(** * tiled_games: the 2048 rules engine (src/games/twenty_forty_eight/game.py)

    A shallow embedding of the game logic: Python ints are [Z], Python lists
    are [list] with Python's indexing (negative indices count from the end,
    anything else out of range raises IndexError, here [None]), methods that
    mutate [self] pass the game explicitly. *)

From Stdlib Require Import ZArith String Lia.
From Stdlib Require Import Floats.SpecFloat.
From stdpp Require Import base option list.

Local Open Scope Z_scope.

(** ** Python lists *)

(** [l[i]] resolves an index against a list of length [n]: [0 <= i < n] is the
    position itself, [-n <= i < 0] counts from the end, the rest raises. *)
Definition py_index (n : nat) (i : Z) : option nat :=
  if (0 <=? i) && (i <? Z.of_nat n) then Some (Z.to_nat i)
  else if (- Z.of_nat n <=? i) && (i <? 0) then Some (Z.to_nat (Z.of_nat n + i))
  else None.

Definition py_getitem {A} (l : list A) (i : Z) : option A :=
  k ← py_index (length l) i; l !! k.

Definition py_setitem {A} (l : list A) (i : Z) (x : A) : option (list A) :=
  k ← py_index (length l) i; Some (<[k:=x]> l).

(** [range(start, stop)] *)
Definition py_range (start stop : Z) : list Z := seqZ start (stop - start).

(** [range(n)] for loop variables that are grid coordinates. *)
Definition range (n : Z) : list nat := seq 0 (Z.to_nat n).

(** ** Index-access traces

    The line-sliding loop is written in a small monad that runs in [option]
    (an IndexError stops the computation) and records every subscript the
    code evaluates, in evaluation order. *)

Inductive array_name := A_array | A_l_copy | A_new_list | A_movement.

Definition access : Type := array_name * Z.

Definition Traced (A : Type) : Type := list access * option A.

#[export] Instance Traced_ret : MRet Traced := λ A x, ([], Some x).

#[export] Instance Traced_bind : MBind Traced := λ A B f m,
  match m with
  | (t, None) => (t, None)
  | (t, Some a) => let '(t', r) := f a in (t ++ t', r)
  end.

Definition trace {A} (m : Traced A) : list access := m.1.
Definition run {A} (m : Traced A) : option A := m.2.

Definition getitem_at (a : array_name) (l : list Z) (i : Z) : Traced Z :=
  ([(a, i)], py_getitem l i).

Definition setitem_at (a : array_name) (l : list Z) (i : Z) (x : Z) : Traced (list Z) :=
  ([(a, i)], py_setitem l i x).

(** [for x in xs: body] over loop-carried locals. *)
Fixpoint for_each {M : Type → Type} `{!MBind M, !MRet M} {A S : Type}
    (xs : list A) (body : A → S → M S) (s : S) : M S :=
  match xs with
  | [] => mret s
  | x :: xs' => s' ← body x s; for_each xs' body s'
  end.

(** ** Enumerations *)

Module SlideDirection.
Inductive t := NONE | UP | RIGHT | DOWN | LEFT.
#[export] Instance eq_dec : EqDecision t.
Proof. solve_decision. Defined.
End SlideDirection.
Export (hints) SlideDirection.

(** [direction in [d1, d2]] *)
Definition direction_in (d : SlideDirection.t) (ds : list SlideDirection.t) : bool :=
  bool_decide (d ∈ ds).

(** ** Tiles *)

Record Tile := { value : Z; momentum : SlideDirection.t }.

(** [Tile(value)]: the momentum defaults to NONE. *)
Definition Tile_of (v : Z) : Tile := {| value := v; momentum := SlideDirection.NONE |}.

(** ** ArrayHelper *)

Module ArrayHelper.

Fixpoint first_non_zero_loop (array : list Z) (idxs : list Z) : Traced Z :=
  match idxs with
  | [] => mret (-1)
  | i :: rest =>
      x ← getitem_at A_array array i;
      if negb (x =? 0) then mret i else first_non_zero_loop array rest
  end.

Definition first_non_zero_index (array : list Z) (start_index : Z) : Traced Z :=
  first_non_zero_loop array (py_range start_index (Z.of_nat (length array))).

(** [zip] of the unpacked rows stops at the shortest row; [n] bounds the number of
    tuples by the length of the first row. *)
Fixpoint zip_star {A} (n : nat) (array : list (list A)) : list (list A) :=
  match n with
  | O => []
  | S n' =>
      match mapM head array with
      | Some hs => hs :: zip_star n' (tail <$> array)
      | None => []
      end
  end.

Definition transpose_columns {A} (array : list (list A)) : list (list A) :=
  match array with
  | [] => []
  | row :: _ => zip_star (length row) array
  end.

End ArrayHelper.

(** ** The grid container

    Modelled from the spec: the [Grid] class (src/tiled_tools/common/grid.py)
    is not among the sources. The spec describes it as a [size × size]
    container addressed by (column, row) with [get], [set], row and column
    extraction and the on-board up/down/left/right neighbours of a cell;
    [tolist] gives the rows. An address off the board is an error. *)
Module Grid.

Abbreviation t := (list (list Tile)).

Definition get (g : t) (c r : nat) : option Tile :=
  row ← g !! r; row !! c.

Definition set (g : t) (c r : nat) (tile : Tile) : option t :=
  row ← g !! r;
  _ ← row !! c;
  Some (<[r := <[c := tile]> row]> g).

Definition get_row (g : t) (r : nat) : option (list Tile) := g !! r.

Definition get_col (g : t) (c : nat) : option (list Tile) :=
  mapM (λ row : list Tile, row !! c) g.

Definition get_adjacent (g : t) (c r : nat) : list Tile :=
  omap id
    [ (if r is S r' then get g c r' else None);
      get g c (S r);
      (if c is S c' then get g c' r else None);
      get g (S c) r ].

Definition tolist (g : t) : list (list Tile) := g.

(** The invariant the spec states: exactly [n × n] cells. *)
Definition square (n : nat) (g : t) : Prop :=
  length g = n ∧ Forall (λ row, length row = n) g.

End Grid.

(** ** GameConfig *)

Record GameConfig := {
  grid_size : Z;
  spawn_tile_count : Z;
  starting_tile_count : Z;
  win_tile_value : Z;
  mutation_probability : spec_float;
  mutation_at_start : bool;
  spawn_kill : bool;
  root_tile_value : Z;
}.

(** The binary64 value of the literal [0.1]. *)
Definition float_0_1 : spec_float := S754_finite false 7205759403792794 (-56).

(** [GameConfig()] *)
Definition GameConfig_default : GameConfig := {|
  grid_size := 4;
  spawn_tile_count := 2;
  starting_tile_count := 2;
  win_tile_value := 2 ^ 11;
  mutation_probability := float_0_1;
  mutation_at_start := true;
  spawn_kill := false;
  root_tile_value := 2;
|}.

(** ** Game state *)

(** An entry of [latest_spawn_locations]: [None] (a failed initial spawn),
    the tuple [(c, r)] built by [get_empty_tiles], or a list as [json.loads]
    returns for a JSON array. *)
Inductive location :=
  | LocNone
  | LocTuple (c r : Z)
  | LocList (xs : list Z).

Record Game := {
  config : GameConfig;
  init_mode : bool;
  grid : list (list Tile);
  score : Z;
  movement_matrix : list (list Z);
  latest_spawn_result : option bool;
  latest_spawn_locations : list location;
}.

Definition with_grid (self : Game) (g : list (list Tile)) : Game :=
  {| config := config self; init_mode := init_mode self; grid := g;
     score := score self; movement_matrix := movement_matrix self;
     latest_spawn_result := latest_spawn_result self;
     latest_spawn_locations := latest_spawn_locations self |}.

Definition with_score (self : Game) (s : Z) : Game :=
  {| config := config self; init_mode := init_mode self; grid := grid self;
     score := s; movement_matrix := movement_matrix self;
     latest_spawn_result := latest_spawn_result self;
     latest_spawn_locations := latest_spawn_locations self |}.

Definition with_movement_matrix (self : Game) (m : list (list Z)) : Game :=
  {| config := config self; init_mode := init_mode self; grid := grid self;
     score := score self; movement_matrix := m;
     latest_spawn_result := latest_spawn_result self;
     latest_spawn_locations := latest_spawn_locations self |}.

(** The grid has the dimensions the configuration announces. *)
Definition well_formed (self : Game) : Prop :=
  Grid.square (Z.to_nat (grid_size (config self))) (grid self).

(** ** Sliding one line *)

Module Slide.

(** The loop-carried locals of [_slide_helper], with [self.score]. *)
Record locals := {
  new_list : list Z;
  movement : list Z;
  new_index : Z;
  score : Z;
}.

(** One iteration of [for i in range(start_index, len(l_copy))]. *)
Definition body (root_tile_value : Z) (l_copy : list Z) (i : Z) (st : locals)
    : Traced locals :=
  x ← getitem_at A_l_copy l_copy i;
  if x =? 0 then mret st
  else
    x ← getitem_at A_l_copy l_copy i;
    y ← getitem_at A_new_list (new_list st) (new_index st);
    if x =? y then
      y ← getitem_at A_new_list (new_list st) (new_index st);
      nl ← setitem_at A_new_list (new_list st) (new_index st) (y * root_tile_value);
      mv ← setitem_at A_movement (movement st) i (new_index st - i);
      x ← getitem_at A_l_copy l_copy i;
      mret {| new_list := nl; movement := mv; new_index := new_index st + 1;
              score := score st + x * root_tile_value |}
    else
      y ← getitem_at A_new_list (new_list st) (new_index st);
      if y =? 0 then
        x ← getitem_at A_l_copy l_copy i;
        nl ← setitem_at A_new_list (new_list st) (new_index st) x;
        mv ← setitem_at A_movement (movement st) i (new_index st - i);
        mret {| new_list := nl; movement := mv; new_index := new_index st;
                score := score st |}
      else
        x ← getitem_at A_l_copy l_copy i;
        nl ← setitem_at A_new_list (new_list st) (new_index st + 1) x;
        mv ← setitem_at A_movement (movement st) i (new_index st + 1 - i);
        mret {| new_list := nl; movement := mv; new_index := new_index st + 1;
                score := score st |}.

(** The whole of [_slide_helper] on the values it reads from [self]:
    the root tile value and the score. *)
Definition helper (root_tile_value : Z) (direction : SlideDirection.t)
    (row_o_col : list Z) (score0 : Z) : Traced (list Z * list Z * Z) :=
  let l_copy := row_o_col in
  let l_copy :=
    if direction_in direction [SlideDirection.DOWN; SlideDirection.RIGHT]
    then reverse l_copy else l_copy in
  let new_list0 := (λ _, 0) <$> l_copy in
  let movement0 := (λ _, 0) <$> l_copy in
  start_index ← ArrayHelper.first_non_zero_index l_copy 0;
  st ← for_each (py_range start_index (Z.of_nat (length l_copy)))
         (body root_tile_value l_copy)
         {| new_list := new_list0; movement := movement0; new_index := 0;
            score := score0 |};
  if direction_in direction [SlideDirection.DOWN; SlideDirection.RIGHT]
  then mret (reverse (new_list st), Z.opp <$> reverse (movement st), score st)
  else mret (new_list st, movement st, score st).

End Slide.

(** ** Game: sliding *)

Definition _slide_helper (self : Game) (direction : SlideDirection.t)
    (row_o_col : list Z) : option (list Z * list Z * Game) :=
  '(new_list, movement, score') ←
    run (Slide.helper (root_tile_value (config self)) direction row_o_col (score self));
  Some (new_list, movement, with_score self score').

Definition slide_each_row (self : Game) (direction : SlideDirection.t)
    : option (list (list Z) * list (list Z) * Game) :=
  for_each (range (grid_size (config self)))
    (λ r '(new_grid_values, movement_matrix, self),
       tiles ← Grid.get_row (grid self) r;
       let row := value <$> tiles in
       '(new_row, movement, self) ← _slide_helper self direction row;
       Some (new_grid_values ++ [new_row], movement_matrix ++ [movement], self))
    ([], [], self).

Definition slide_each_column (self : Game) (direction : SlideDirection.t)
    : option (list (list Z) * list (list Z) * Game) :=
  '(new_grid_values, movement_matrix, self) ←
    for_each (range (grid_size (config self)))
      (λ c '(new_grid_values, movement_matrix, self),
         tiles ← Grid.get_col (grid self) c;
         let column := value <$> tiles in
         '(new_column, movement, self) ← _slide_helper self direction column;
         Some (new_grid_values ++ [new_column], movement_matrix ++ [movement], self))
      ([], [], self);
  Some (ArrayHelper.transpose_columns new_grid_values,
        ArrayHelper.transpose_columns movement_matrix, self).

(** [set_tiles]: every cell of the board is overwritten from [new_list[r][c]];
    a missing row or cell of [new_list] raises IndexError. *)
Definition set_tiles (self : Game) (new_list : list (list Tile)) : option Game :=
  for_each (range (grid_size (config self)))
    (λ r self,
       for_each (range (grid_size (config self)))
         (λ c self,
            row ← new_list !! r;
            tile ← row !! c;
            g ← Grid.set (grid self) c r tile;
            Some (with_grid self g))
         self)
    self.

Definition slide_tiles (self : Game) (direction : SlideDirection.t)
    : option (list (list Z) * Game) :=
  let slid : option (list (list Z) * list (list Z) * Game) :=
    if direction_in direction [SlideDirection.UP; SlideDirection.DOWN]
    then slide_each_column self direction
    else slide_each_row self direction in
  '(new_grid_values, movement_matrix, self) ← slid;
  let new_tiles := (λ row : list Z, Tile_of <$> row) <$> new_grid_values in
  self ← set_tiles self new_tiles;
  let self := with_movement_matrix self movement_matrix in
  Some (movement_matrix, self).

(** A game holding the given rows of values, as the tests build one with
    [set_tiles]. *)
Definition game_of_values (cfg : GameConfig) (vals : list (list Z)) : Game :=
  {| config := cfg; init_mode := false;
     grid := (λ row : list Z, Tile_of <$> row) <$> vals;
     score := 0;
     movement_matrix := (λ row : list Z, (λ _, 0) <$> row) <$> vals;
     latest_spawn_result := None;
     latest_spawn_locations := [] |}.

Definition grid_values (g : list (list Tile)) : list (list Z) :=
  (λ row : list Tile, value <$> row) <$> g.

(** ** Randomness

    The two process-wide generators are streams of draws with a cursor:
    [np.random.rand()] yields the next float, [random.randint(a, b)] maps the
    next draw into [a..b]. *)

Record Rng := {
  rand_draws : nat → spec_float;
  rand_pos : nat;
  randint_draws : nat → nat;
  randint_pos : nat;
}.

Definition np_random_rand (rng : Rng) : spec_float * Rng :=
  (rand_draws rng (rand_pos rng),
   {| rand_draws := rand_draws rng; rand_pos := S (rand_pos rng);
      randint_draws := randint_draws rng; randint_pos := randint_pos rng |}).

Definition random_randint (a b : Z) (rng : Rng) : Z * Rng :=
  (a + Z.of_nat (randint_draws rng (randint_pos rng)) `mod` (b - a + 1),
   {| rand_draws := rand_draws rng; rand_pos := rand_pos rng;
      randint_draws := randint_draws rng; randint_pos := S (randint_pos rng) |}).

(** ** Game: spawning and construction *)

Definition with_init_mode (self : Game) (b : bool) : Game :=
  {| config := config self; init_mode := b; grid := grid self;
     score := score self; movement_matrix := movement_matrix self;
     latest_spawn_result := latest_spawn_result self;
     latest_spawn_locations := latest_spawn_locations self |}.

Definition with_latest_spawn_result (self : Game) (x : option bool) : Game :=
  {| config := config self; init_mode := init_mode self; grid := grid self;
     score := score self; movement_matrix := movement_matrix self;
     latest_spawn_result := x;
     latest_spawn_locations := latest_spawn_locations self |}.

Definition with_latest_spawn_locations (self : Game) (x : list location) : Game :=
  {| config := config self; init_mode := init_mode self; grid := grid self;
     score := score self; movement_matrix := movement_matrix self;
     latest_spawn_result := latest_spawn_result self;
     latest_spawn_locations := x |}.

Module TileHelper.
Definition build_grid_with_value (v : Z) (size : Z) : list (list Tile) :=
  (λ _j, (λ _i, {| value := v; momentum := SlideDirection.NONE |}) <$> range size)
    <$> range size.
End TileHelper.

Definition get_empty_tiles (self : Game) : option (list (nat * nat)) :=
  for_each (range (grid_size (config self)))
    (λ r empty_tiles,
       for_each (range (grid_size (config self)))
         (λ c empty_tiles,
            tile ← Grid.get (grid self) c r;
            Some (if value tile =? 0 then empty_tiles ++ [(c, r)] else empty_tiles))
         empty_tiles)
    [].

Definition _get_new_tile_value (self : Game) (rng : Rng) : Z * Rng :=
  let root_tile_value := root_tile_value (config self) in
  let '(x, rng) := np_random_rand rng in
  let should_mutate := SFltb x (mutation_probability (config self)) in
  let mutated_value := root_tile_value * root_tile_value in
  if init_mode self then
    if mutation_at_start (config self) && should_mutate
    then (mutated_value, rng) else (root_tile_value, rng)
  else
    ((if negb should_mutate then root_tile_value else mutated_value), rng).

Definition _get_new_tile (self : Game) (rng : Rng) : Tile * Rng :=
  let '(new_tile_value, rng) := _get_new_tile_value self rng in
  (Tile_of new_tile_value, rng).

Definition _get_random_empty_tile (self : Game) (rng : Rng)
    : option (option (nat * nat) * Rng) :=
  empty_tiles ← get_empty_tiles self;
  let tiles_len := Z.of_nat (length empty_tiles) in
  if negb (bool_decide (empty_tiles = [])) then
    let '(random_index, rng) := random_randint 0 (tiles_len - 1) rng in
    pos ← py_getitem empty_tiles random_index;
    Some (Some pos, rng)
  else Some (None, rng).

Definition _spawn_new_tile (self : Game) (rng : Rng)
    : option (option (nat * nat) * Game * Rng) :=
  let '(new_tile, rng) := _get_new_tile self rng in
  '(new_tile_pos, rng) ← _get_random_empty_tile self rng;
  match new_tile_pos with
  | None => Some (None, self, rng)
  | Some (c, r) =>
      g ← Grid.set (grid self) c r new_tile;
      Some (Some (c, r), with_grid self g, rng)
  end.

(** A spawn position as the Python value stored in [latest_spawn_locations]. *)
Definition location_of (pos : option (nat * nat)) : location :=
  match pos with
  | None => LocNone
  | Some (c, r) => LocTuple (Z.of_nat c) (Z.of_nat r)
  end.

Definition initial_spawn (self : Game) (rng : Rng) : option (Game * Rng) :=
  '(spawn_locations, self, rng) ←
    for_each (range (starting_tile_count (config self)))
      (λ _i '(spawn_locations, self, rng),
         '(pos, self, rng) ← _spawn_new_tile self rng;
         Some (spawn_locations ++ [location_of pos], self, rng))
      ([], self, rng);
  let self := with_init_mode self false in
  let self := with_latest_spawn_locations self spawn_locations in
  Some (self, rng).

(** [Game(config)] *)
Definition Game_init (config : GameConfig) (rng : Rng) : option (Game * Rng) :=
  let self :=
    {| config := config;
       init_mode := true;
       grid := TileHelper.build_grid_with_value 0 (grid_size config);
       score := 0;
       movement_matrix :=
         (λ _j, (λ _i, 0) <$> range (grid_size config)) <$> range (grid_size config);
       latest_spawn_result := None;
       latest_spawn_locations := [] |} in
  initial_spawn self rng.

(** ** Game: can_play *)

(** [for x in xs: ...] whose body may [return True]; falling out of the loop
    is [false]. *)
Fixpoint returns_true {A} (xs : list A) (body : A → option bool) : option bool :=
  match xs with
  | [] => Some false
  | x :: xs' => b ← body x; if b : bool then Some true else returns_true xs' body
  end.

Definition can_play (self : Game) : option bool :=
  returns_true (range (grid_size (config self)))
    (λ r,
       returns_true (range (grid_size (config self)))
         (λ c,
            tile ← Grid.get (grid self) c r;
            if value tile =? 0 then Some true
            else
              let neighbors := Grid.get_adjacent (grid self) c r in
              returns_true neighbors
                (λ neighbor, Some (value neighbor =? value tile)))).

(** ** Persistence *)

#[warnings="-register-all"]
Inductive json :=
  | JNull
  | JBool (b : bool)
  | JInt (z : Z)
  | JFloat (f : spec_float)
  | JStr (s : string)
  | JArr (items : list json)
  | JObj (members : list (string * json)).

(** What [load] can raise. *)
Inductive py_error :=
  | JSONDecodeError
  | KeyError (k : string)
  | TypeError
  | IndexError.

Inductive result (A : Type) :=
  | Ok (a : A)
  | Raise (e : py_error).
Arguments Ok {A} a.
Arguments Raise {A} e.

#[export] Instance result_ret : MRet result := λ A x, Ok x.

#[export] Instance result_bind : MBind result := λ A B f m,
  match m with
  | Ok a => f a
  | Raise e => Raise e
  end.

Definition or_raise {A} (e : py_error) (o : option A) : result A :=
  match o with
  | Some a => Ok a
  | None => Raise e
  end.

(** [config.__dict__]: the fields in declaration order. *)
Definition config_dict (c : GameConfig) : json :=
  JObj [ ("grid_size", JInt (grid_size c));
         ("spawn_tile_count", JInt (spawn_tile_count c));
         ("starting_tile_count", JInt (starting_tile_count c));
         ("win_tile_value", JInt (win_tile_value c));
         ("mutation_probability", JFloat (mutation_probability c));
         ("mutation_at_start", JBool (mutation_at_start c));
         ("spawn_kill", JBool (spawn_kill c));
         ("root_tile_value", JInt (root_tile_value c)) ]%string.

(** A tuple and a list both serialize as a JSON array. *)
Definition location_json (l : location) : json :=
  match l with
  | LocNone => JNull
  | LocTuple c r => JArr [JInt c; JInt r]
  | LocList xs => JArr (JInt <$> xs)
  end.

Definition matrix_json (m : list (list Z)) : json :=
  JArr ((λ row : list Z, JArr (JInt <$> row)) <$> m).

Definition to_dict (self : Game) : json :=
  JObj [ ("config", config_dict (config self));
         ("grid", matrix_json ((λ row : list Tile, value <$> row) <$> Grid.tolist (grid self)));
         ("score", JInt (score self));
         ("movement_matrix", matrix_json (movement_matrix self));
         ("latest_spawn_result",
            match latest_spawn_result self with
            | None => JNull
            | Some b => JBool b
            end);
         ("latest_spawn_locations", JArr (location_json <$> latest_spawn_locations self))
       ]%string.

(** [d[key]] on what [json.loads] returned: a JSON object is a dict in which
    the last of several equal keys wins; anything else does not take a string
    subscript. *)
Fixpoint dict_get (key : string) (members : list (string * json)) : option json :=
  match members with
  | [] => None
  | (k, v) :: rest =>
      match dict_get key rest with
      | Some v' => Some v'
      | None => if String.eqb k key then Some v else None
      end
  end.

Definition subscript (d : json) (key : string) : result json :=
  match d with
  | JObj members => or_raise (KeyError key) (dict_get key members)
  | _ => Raise TypeError
  end.

(** ** Python values

    [GameHelper.load] checks no type: whatever [json.loads] returns for a
    key is stored in the game as it is, and the constructor computes with
    it as Python does. The values are Python's: None, bool, int, float,
    str, list and dict as [json.loads] returns them, and the tuples the game
    builds itself. *)
#[warnings="-register-all"]
Inductive pyval :=
  | PNone
  | PBool (b : bool)
  | PInt (z : Z)
  | PFloat (f : spec_float)
  | PStr (s : string)
  | PList (items : list pyval)
  | PTuple (items : list pyval)
  | PDict (members : list (string * pyval)).

(** [d[k] = v] on a dict in insertion order: a key that is there keeps its
    place and takes the new value. *)
Fixpoint dict_insert (k : string) (v : pyval) (d : list (string * pyval))
    : list (string * pyval) :=
  match d with
  | [] => [(k, v)]
  | (k', v') :: rest =>
      if String.eqb k' k then (k', v) :: rest else (k', v') :: dict_insert k v rest
  end.

Definition dict_of_pairs (pairs : list (string * pyval)) : list (string * pyval) :=
  foldl (λ d kv, dict_insert kv.1 kv.2 d) [] pairs.

(** The Python value [json.loads] returns for a document. *)
Fixpoint of_json (j : json) : pyval :=
  match j with
  | JNull => PNone
  | JBool b => PBool b
  | JInt z => PInt z
  | JFloat f => PFloat f
  | JStr s => PStr s
  | JArr items => PList (of_json <$> items)
  | JObj members =>
      PDict (dict_of_pairs ((λ kv : string * json, let '(k, v) := kv in (k, of_json v))
                              <$> members))
  end.

(** The keys of a JSON object in the order of the dict [json.loads] builds. *)
Definition dict_keys (members : list (string * json)) : list string :=
  foldl (λ ks kv, if existsb (String.eqb kv.1) ks then ks else ks ++ [kv.1]) [] members.

(** [for x in v] on what [json.loads] returned: the items of a list, the
    characters of a str (a [string] holds one character per element), the
    keys of a dict; nothing else is iterable. *)
Definition iterate (v : json) : result (list json) :=
  match v with
  | JArr items => Ok items
  | JStr s => Ok ((λ c, JStr (String c EmptyString)) <$> list_ascii_of_string s)
  | JObj members => Ok (JStr <$> dict_keys members)
  | _ => Raise TypeError
  end.

(** A [GameConfig] object: the dataclass stores what it is given. *)
Record PyConfig := {
  p_grid_size : pyval;
  p_spawn_tile_count : pyval;
  p_starting_tile_count : pyval;
  p_win_tile_value : pyval;
  p_mutation_probability : pyval;
  p_mutation_at_start : pyval;
  p_spawn_kill : pyval;
  p_root_tile_value : pyval;
}.

(** A configuration whose fields have their declared types, as a Python
    object. *)
Definition py_config (c : GameConfig) : PyConfig := {|
  p_grid_size := PInt (grid_size c);
  p_spawn_tile_count := PInt (spawn_tile_count c);
  p_starting_tile_count := PInt (starting_tile_count c);
  p_win_tile_value := PInt (win_tile_value c);
  p_mutation_probability := PFloat (mutation_probability c);
  p_mutation_at_start := PBool (mutation_at_start c);
  p_spawn_kill := PBool (spawn_kill c);
  p_root_tile_value := PInt (root_tile_value c);
|}.

Definition GameConfig_fields : list string :=
  [ "grid_size"; "spawn_tile_count"; "starting_tile_count"; "win_tile_value";
    "mutation_probability"; "mutation_at_start"; "spawn_kill"; "root_tile_value" ]%string.

(** A keyword argument of the dataclass constructor, or its default. *)
Definition keyword (members : list (string * json)) (name : string) (default : pyval)
    : pyval :=
  match dict_get name members with
  | Some j => of_json j
  | None => default
  end.

(** [GameConfig] applied to the unpacked dict: only a dict unpacks, an unknown
    keyword is a TypeError, a missing one takes the field's default, and a
    given one is stored whatever its type. *)
Definition GameConfig_of_kwargs (kwargs : json) : result PyConfig :=
  match kwargs with
  | JObj members =>
      if forallb (λ kv : string * json,
                    existsb (String.eqb kv.1) GameConfig_fields) members
      then
        let d := py_config GameConfig_default in
        Ok {| p_grid_size := keyword members "grid_size" (p_grid_size d);
              p_spawn_tile_count :=
                keyword members "spawn_tile_count" (p_spawn_tile_count d);
              p_starting_tile_count :=
                keyword members "starting_tile_count" (p_starting_tile_count d);
              p_win_tile_value := keyword members "win_tile_value" (p_win_tile_value d);
              p_mutation_probability :=
                keyword members "mutation_probability" (p_mutation_probability d);
              p_mutation_at_start :=
                keyword members "mutation_at_start" (p_mutation_at_start d);
              p_spawn_kill := keyword members "spawn_kill" (p_spawn_kill d);
              p_root_tile_value :=
                keyword members "root_tile_value" (p_root_tile_value d) |}
      else Raise TypeError
  | _ => Raise TypeError
  end.

(** A [Tile] and a [Game] object with the values they hold. *)
Record PyTile := { p_value : pyval; p_momentum : SlideDirection.t }.

(** [Tile(value)] *)
Definition PyTile_of (v : pyval) : PyTile :=
  {| p_value := v; p_momentum := SlideDirection.NONE |}.

Record PyGame := {
  p_config : PyConfig;
  p_init_mode : bool;
  p_grid : list (list PyTile);
  p_score : pyval;
  p_movement_matrix : pyval;
  p_latest_spawn_result : pyval;
  p_latest_spawn_locations : pyval;
}.

(** The game whose fields have their declared types, as a Python object: a
    spawn location is None, a tuple or a list. *)
Definition py_tile (t : Tile) : PyTile :=
  {| p_value := PInt (value t); p_momentum := momentum t |}.

Definition py_location (l : location) : pyval :=
  match l with
  | LocNone => PNone
  | LocTuple c r => PTuple [PInt c; PInt r]
  | LocList xs => PList (PInt <$> xs)
  end.

Definition py_matrix (m : list (list Z)) : pyval :=
  PList ((λ row : list Z, PList (PInt <$> row)) <$> m).

Definition py_game (self : Game) : PyGame := {|
  p_config := py_config (config self);
  p_init_mode := init_mode self;
  p_grid := (λ row : list Tile, py_tile <$> row) <$> grid self;
  p_score := PInt (score self);
  p_movement_matrix := py_matrix (movement_matrix self);
  p_latest_spawn_result :=
    match latest_spawn_result self with
    | None => PNone
    | Some b => PBool b
    end;
  p_latest_spawn_locations := PList (py_location <$> latest_spawn_locations self);
|}.

(** ** The constructor and set_tiles on Python values

    The functions [load] runs, on a configuration and tiles of any type:
    the same code as above, with the operations that can raise TypeError on
    a value of the wrong type. *)
Module Dyn.

(** [range(x)]: [x] has to be an int, and a bool is one. *)
Definition range_of (x : pyval) : result (list nat) :=
  match x with
  | PInt z => Ok (range z)
  | PBool b => Ok (range (if b then 1 else 0))
  | _ => Raise TypeError
  end.

(** [x == 0] *)
Definition eq_zero (x : pyval) : bool :=
  match x with
  | PInt z => z =? 0
  | PBool b => negb b
  | PFloat f => SFeqb f (S754_zero false)
  | _ => false
  end.

(** The truth value of [x]. *)
Definition truthy (x : pyval) : bool :=
  match x with
  | PNone => false
  | PBool b => b
  | PInt z => negb (z =? 0)
  | PFloat f => negb (SFeqb f (S754_zero false))
  | PStr s => negb (String.eqb s EmptyString)
  | PList items | PTuple items => negb (Nat.eqb (length items) 0)
  | PDict members => negb (Nat.eqb (length members) 0)
  end.

(** [x < z] for a float [x] and an int [z]: Python compares the exact
    values. *)
Definition float_lt_int (x : spec_float) (z : Z) : bool :=
  match x with
  | S754_zero _ => 0 <? z
  | S754_infinity s => s
  | S754_nan => false
  | S754_finite s m e =>
      let v := if s then Z.neg m else Z.pos m in
      if 0 <=? e then v * 2 ^ e <? z else v <? z * 2 ^ (- e)
  end.

(** [x < y] for the float [x] that [np.random.rand()] returns. *)
Definition float_lt (x : spec_float) (y : pyval) : result bool :=
  match y with
  | PFloat f => Ok (SFltb x f)
  | PInt z => Ok (float_lt_int x z)
  | PBool b => Ok (float_lt_int x (if b then 1 else 0))
  | _ => Raise TypeError
  end.

(** [x * x] *)
Definition square_of (x : pyval) : result pyval :=
  match x with
  | PInt z => Ok (PInt (z * z))
  | PBool b => Ok (PInt (if b then 1 else 0))
  | PFloat f => Ok (PFloat (SFmul 53 1024 f f))
  | _ => Raise TypeError
  end.

(** Modelled from the spec: the [Grid] class is not among the sources; [get]
    and [set] as in module [Grid] above, on tiles of any value, an address
    off the board being an IndexError. *)
Definition grid_get (g : list (list PyTile)) (c r : nat) : result PyTile :=
  or_raise IndexError (row ← g !! r; row !! c).

Definition grid_set (g : list (list PyTile)) (c r : nat) (tile : PyTile)
    : result (list (list PyTile)) :=
  or_raise IndexError
    (row ← g !! r;
     _ ← row !! c;
     Some (<[r := <[c := tile]> row]> g)).

Definition grid_square (n : nat) (g : list (list PyTile)) : Prop :=
  length g = n ∧ Forall (λ row, length row = n) g.

Definition with_grid (self : PyGame) (g : list (list PyTile)) : PyGame :=
  {| p_config := p_config self; p_init_mode := p_init_mode self; p_grid := g;
     p_score := p_score self; p_movement_matrix := p_movement_matrix self;
     p_latest_spawn_result := p_latest_spawn_result self;
     p_latest_spawn_locations := p_latest_spawn_locations self |}.

(** [[f(_i) for _i in range(size)]] *)
Definition comprehension {A} (size : pyval) (f : nat → A) : result (list A) :=
  idxs ← range_of size; Ok (f <$> (idxs : list nat)).

(** [[[f(_i) for _i in range(size)] for _j in range(size)]] *)
Definition comprehension2 {A} (size : pyval) (f : nat → A) : result (list (list A)) :=
  rows ← range_of size;
  mapM (λ _j : nat, comprehension size f) rows.

Definition build_grid_with_value (v : pyval) (size : pyval)
    : result (list (list PyTile)) :=
  comprehension2 size (λ _i, {| p_value := v; p_momentum := SlideDirection.NONE |}).

Definition get_empty_tiles (self : PyGame) : result (list (nat * nat)) :=
  rows ← range_of (p_grid_size (p_config self));
  for_each rows
    (λ r empty_tiles,
       cols ← range_of (p_grid_size (p_config self));
       for_each cols
         (λ c empty_tiles,
            tile ← grid_get (p_grid self) c r;
            Ok (if eq_zero (p_value tile) then empty_tiles ++ [(c, r)] else empty_tiles))
         empty_tiles)
    [].

Definition _get_new_tile_value (self : PyGame) (rng : Rng) : result (pyval * Rng) :=
  let root_tile_value := p_root_tile_value (p_config self) in
  let '(x, rng) := np_random_rand rng in
  should_mutate ← float_lt x (p_mutation_probability (p_config self));
  mutated_value ← square_of root_tile_value;
  if p_init_mode self then
    if truthy (p_mutation_at_start (p_config self)) && should_mutate
    then Ok (mutated_value, rng) else Ok (root_tile_value, rng)
  else
    Ok ((if negb should_mutate then root_tile_value else mutated_value), rng).

Definition _get_new_tile (self : PyGame) (rng : Rng) : result (PyTile * Rng) :=
  '(new_tile_value, rng) ← _get_new_tile_value self rng;
  Ok (PyTile_of new_tile_value, rng).

Definition _get_random_empty_tile (self : PyGame) (rng : Rng)
    : result (option (nat * nat) * Rng) :=
  empty_tiles ← get_empty_tiles self;
  let tiles_len := Z.of_nat (length empty_tiles) in
  if negb (Nat.eqb (length empty_tiles) 0) then
    let '(random_index, rng) := random_randint 0 (tiles_len - 1) rng in
    pos ← or_raise IndexError (py_getitem empty_tiles random_index);
    Ok (Some pos, rng)
  else Ok (None, rng).

Definition _spawn_new_tile (self : PyGame) (rng : Rng)
    : result (option (nat * nat) * PyGame * Rng) :=
  '(new_tile, rng) ← _get_new_tile self rng;
  '(new_tile_pos, rng) ← _get_random_empty_tile self rng;
  match new_tile_pos with
  | None => Ok (None, self, rng)
  | Some (c, r) =>
      g ← grid_set (p_grid self) c r new_tile;
      Ok (Some (c, r), with_grid self g, rng)
  end.

Definition initial_spawn (self : PyGame) (rng : Rng) : result (PyGame * Rng) :=
  idxs ← range_of (p_starting_tile_count (p_config self));
  '(spawn_locations, self, rng) ←
    for_each idxs
      (λ _i '(spawn_locations, self, rng),
         '(pos, self, rng) ← _spawn_new_tile self rng;
         Ok (spawn_locations ++ [py_location (location_of pos)], self, rng))
      ([], self, rng);
  Ok ({| p_config := p_config self; p_init_mode := false; p_grid := p_grid self;
         p_score := p_score self; p_movement_matrix := p_movement_matrix self;
         p_latest_spawn_result := p_latest_spawn_result self;
         p_latest_spawn_locations := PList spawn_locations |}, rng).

(** [Game(config)] *)
Definition Game_init (config : PyConfig) (rng : Rng) : result (PyGame * Rng) :=
  grid ← build_grid_with_value (PInt 0) (p_grid_size config);
  movement_matrix ← comprehension2 (p_grid_size config) (λ _i, PInt 0);
  let self :=
    {| p_config := config;
       p_init_mode := true;
       p_grid := grid;
       p_score := PInt 0;
       p_movement_matrix := PList (PList <$> movement_matrix);
       p_latest_spawn_result := PNone;
       p_latest_spawn_locations := PList [] |} in
  initial_spawn self rng.

Definition set_tiles (self : PyGame) (new_list : list (list PyTile)) : result PyGame :=
  rows ← range_of (p_grid_size (p_config self));
  for_each rows
    (λ r self,
       cols ← range_of (p_grid_size (p_config self));
       for_each cols
         (λ c self,
            row ← or_raise IndexError (new_list !! r);
            tile ← or_raise IndexError (row !! c);
            g ← grid_set (p_grid self) c r tile;
            Ok (with_grid self g))
         self)
    self.

End Dyn.

(** [[Tile(value=value) for value in row]] *)
Definition tiles_of_row (row : json) : result (list PyTile) :=
  values ← iterate row;
  Ok ((λ value, PyTile_of (of_json value)) <$> (values : list json)).

Section Persistence.

(** The serialized text and the two functions of Python's [json] module
    between it and JSON documents. *)
Context {text : Type}.
Variable json_dumps : json → text.
Variable json_loads : text → option json.

Definition to_json (self : Game) : text := json_dumps (to_dict self).

(** [GameHelper.load]. The constructor it calls spawns the starting tiles
    from the generators; the state they are left in is not part of the
    result. *)
Definition load (json_string : text) (rng : Rng) : result PyGame :=
  game_dict ← or_raise JSONDecodeError (json_loads json_string);
  kwargs ← subscript game_dict "config";
  config ← GameConfig_of_kwargs kwargs;
  '(game, _) ← Dyn.Game_init config rng;
  rows ← subscript game_dict "grid";
  rows ← iterate rows;
  new_list ← mapM tiles_of_row rows;
  game ← Dyn.set_tiles game new_list;
  score ← subscript game_dict "score";
  movement_matrix ← subscript game_dict "movement_matrix";
  latest_spawn_result ← subscript game_dict "latest_spawn_result";
  latest_spawn_locations ← subscript game_dict "latest_spawn_locations";
  Ok {| p_config := p_config game; p_init_mode := p_init_mode game;
        p_grid := p_grid game;
        p_score := of_json score;
        p_movement_matrix := of_json movement_matrix;
        p_latest_spawn_result := of_json latest_spawn_result;
        p_latest_spawn_locations := of_json latest_spawn_locations |}.

End Persistence.

(** ** Values of the repository's tests and result views *)

Definition power_vals : list (list Z) :=
  [[2;2;2;2]; [0;0;0;0]; [0;0;4;0]; [2;2;0;2]].

Definition full_tile_vals : list (list Z) :=
  [[1;2;3;4]; [8;7;6;5]; [9;10;11;12]; [16;15;14;13]].

Definition slide_outcome (self : Game) (d : SlideDirection.t)
    : option (list (list Z) * list (list Z)) :=
  '(_, self) ← slide_tiles self d;
  Some (grid_values (grid self), movement_matrix self).

(** The result of the LEFT/UP run, read back as the RIGHT/DOWN run does:
    the line reversed, the offsets reversed and negated. *)
Definition mirror (r : list Z * list Z * Game) : list Z * list Z * Game :=
  let '(new_list, movement, self) := r in
  (reverse new_list, Z.opp <$> reverse movement, self).

(** ** The line loop with the trace erased

    [step] is what an iteration of [Slide.body] computes ([run_body] below). *)

Definition step (root : Z) (l : list Z) (i : Z) (st : Slide.locals) : option Slide.locals :=
  x ← py_getitem l i;
  if x =? 0 then Some st
  else
    y ← py_getitem (Slide.new_list st) (Slide.new_index st);
    if x =? y then
      nl ← py_setitem (Slide.new_list st) (Slide.new_index st) (y * root);
      mv ← py_setitem (Slide.movement st) i (Slide.new_index st - i);
      Some {| Slide.new_list := nl; Slide.movement := mv;
              Slide.new_index := Slide.new_index st + 1;
              Slide.score := Slide.score st + x * root |}
    else if y =? 0 then
      nl ← py_setitem (Slide.new_list st) (Slide.new_index st) x;
      mv ← py_setitem (Slide.movement st) i (Slide.new_index st - i);
      Some {| Slide.new_list := nl; Slide.movement := mv;
              Slide.new_index := Slide.new_index st;
              Slide.score := Slide.score st |}
    else
      nl ← py_setitem (Slide.new_list st) (Slide.new_index st + 1) x;
      mv ← py_setitem (Slide.movement st) i (Slide.new_index st + 1 - i);
      Some {| Slide.new_list := nl; Slide.movement := mv;
              Slide.new_index := Slide.new_index st + 1;
              Slide.score := Slide.score st |}.

Definition init_locals (l_copy : list Z) (score0 : Z) : Slide.locals :=
  {| Slide.new_list := (λ _, 0) <$> l_copy; Slide.movement := (λ _, 0) <$> l_copy;
     Slide.new_index := 0; Slide.score := score0 |}.

(** The loop of [Slide.helper] on the line as it is scanned. *)
Definition slide_loop (root : Z) (l_copy : list Z) (score0 : Z) : option Slide.locals :=
  start_index ← run (ArrayHelper.first_non_zero_index l_copy 0);
  for_each (py_range start_index (Z.of_nat (length l_copy))) (step root l_copy)
    (init_locals l_copy score0).

(** What [Slide.helper] returns from the final locals. *)
Definition slide_result (reversed : bool) (st : Slide.locals) : list Z * list Z * Z :=
  if reversed
  then (reverse (Slide.new_list st), Z.opp <$> reverse (Slide.movement st), Slide.score st)
  else (Slide.new_list st, Slide.movement st, Slide.score st).

Definition reversed_direction (d : SlideDirection.t) : bool :=
  direction_in d [SlideDirection.DOWN; SlideDirection.RIGHT].

(** ** Bounds of subscripts *)

(** A subscript that needs no wrap-around: within [0, n). *)
Definition in_bounds (n : nat) (a : access) : Prop := 0 ≤ a.2 < Z.of_nat n.

(** What the line loop keeps at the start of iteration [i]: the buffers keep
    their length and the write cursor trails the read index, or sits on it
    over an empty slot. *)
Definition loop_inv (n : nat) (i : Z) (st : Slide.locals) : Prop :=
  length (Slide.new_list st) = n ∧ length (Slide.movement st) = n ∧
  0 ≤ Slide.new_index st ∧
  (Slide.new_index st < i ∨
   (Slide.new_index st = i ∧ Slide.new_list st !! Z.to_nat i = Some 0)).

(** ** Neighbourhood *)

(** (c', r') is the cell above, below, left or right of (c, r). *)
Definition adjacent (c r c' r' : nat) : Prop :=
  (c' = c ∧ (r' = S r ∨ r = S r')) ∨ (r' = r ∧ (c' = S c ∨ c = S c')).

(** The test of [can_play] on one cell. *)
Definition playable_cell (g : list (list Tile)) (c r : nat) : bool :=
  match Grid.get g c r with
  | Some tile =>
      (value tile =? 0)
      || existsb (λ neighbor, value neighbor =? value tile) (Grid.get_adjacent g c r)
  | None => false
  end.

(** ** Sample inputs *)

(** A stream of draws: [np.random.rand()] always gives 0.5, the k-th
    [random.randint] draw is 7k + 3 before it is mapped into the range. *)
Definition rng_example : Rng :=
  {| rand_draws := λ _, S754_finite false 4503599627370496 (-53);
     rand_pos := 0;
     randint_draws := λ k, (7 * k + 3)%nat;
     randint_pos := 0 |}.

(** The binary64 values 1.0 and 1.5. *)
Definition float_1_0 : spec_float := S754_finite false 4503599627370496 (-52).
Definition float_1_5 : spec_float := S754_finite false 6755399441055744 (-52).

(** [GameConfig(mutation_probability=1.5)] *)
Definition config_probability_1_5 : GameConfig :=
  {| grid_size := 4; spawn_tile_count := 2; starting_tile_count := 2;
     win_tile_value := 2 ^ 11; mutation_probability := float_1_5;
     mutation_at_start := true; spawn_kill := false; root_tile_value := 2 |}.

(** [GameConfig(grid_size=0)] *)
Definition config_grid_size_0 : GameConfig :=
  {| grid_size := 0; spawn_tile_count := 2; starting_tile_count := 2;
     win_tile_value := 2 ^ 11; mutation_probability := float_0_1;
     mutation_at_start := true; spawn_kill := false; root_tile_value := 2 |}.

(** [GameConfig(root_tile_value=0)]: a merge then leaves an empty cell. *)
Definition config_root_0 : GameConfig :=
  {| grid_size := 4; spawn_tile_count := 2; starting_tile_count := 2;
     win_tile_value := 2 ^ 11; mutation_probability := float_0_1;
     mutation_at_start := true; spawn_kill := false; root_tile_value := 0 |}.

(** ** Persisted documents *)

(** A location as [json.loads] gives it back: a tuple has become a list. *)
Definition loaded_location (l : location) : location :=
  match l with
  | LocNone => LocNone
  | LocTuple c r => LocList [c; r]
  | LocList xs => LocList xs
  end.

(** The JSON document of a persisted state with the given parts. *)
Definition persisted (kwargs : json) (rows : list (list Z)) (sc : Z)
    (mm : list (list Z)) (lsr : option bool) (locs : list location) : json :=
  JObj [ ("config", kwargs);
         ("grid", matrix_json rows);
         ("score", JInt sc);
         ("movement_matrix", matrix_json mm);
         ("latest_spawn_result",
            match lsr with
            | None => JNull
            | Some b => JBool b
            end);
         ("latest_spawn_locations", JArr (location_json <$> locs)) ]%string.

(** The game [Game(GameConfig())] builds from the draws of [rng_example]. *)
Definition game_after_init : Game :=
  {| config := GameConfig_default;
     init_mode := false;
     grid := (λ row : list Z, Tile_of <$> row)
               <$> [[0;0;0;2]; [0;0;0;0]; [0;0;0;2]; [0;0;0;0]];
     score := 0;
     movement_matrix := [[0;0;0;0]; [0;0;0;0]; [0;0;0;0]; [0;0;0;0]];
     latest_spawn_result := None;
     latest_spawn_locations := [LocTuple 3 0; LocTuple 3 2] |}.

(** A persisted state that is malformed in each way: the configuration
    record is empty, the grid is 5x5 for a 4x4 board, a tile and the score
    are negative, and the movement matrix is empty. *)
Definition document_malformed : json :=
  persisted (JObj [])
    [[2;0;0;0;9]; [0;-3;0;0;9]; [0;0;0;0;9]; [0;0;0;0;9]; [9;9;9;9;9]]
    (-5) [] None [].

(** A persisted grid with a row too few for a 4x4 board. *)
Definition document_short_grid : json :=
  persisted (JObj []) [[2;0;0;0]; [0;0;0;0]; [0;0;0;0]] 0 [] None [].

(** [new_list[r][c]] where it exists. *)
Definition cell (new_list : list (list PyTile)) (c r : nat) : option PyTile :=
  row ← new_list !! r; row !! c.

(** A field of the configuration built from a record: the value the record
    gives for it, whatever its type, or the default of the dataclass. *)
Definition field_as_given (members : list (string * json)) (name : string)
    (field default : pyval) : Prop :=
  match dict_get name members with
  | Some j => field = of_json j
  | None => field = default
  end.

Definition config_as_given (members : list (string * json)) (cfg : PyConfig) : Prop :=
  field_as_given members "grid_size" (p_grid_size cfg) (PInt 4)
  ∧ field_as_given members "spawn_tile_count" (p_spawn_tile_count cfg) (PInt 2)
  ∧ field_as_given members "starting_tile_count" (p_starting_tile_count cfg) (PInt 2)
  ∧ field_as_given members "win_tile_value" (p_win_tile_value cfg) (PInt 2048)
  ∧ field_as_given members "mutation_probability" (p_mutation_probability cfg)
      (PFloat float_0_1)
  ∧ field_as_given members "mutation_at_start" (p_mutation_at_start cfg) (PBool true)
  ∧ field_as_given members "spawn_kill" (p_spawn_kill cfg) (PBool false)
  ∧ field_as_given members "root_tile_value" (p_root_tile_value cfg) (PInt 2).

(** The values the constructor can compute with: [range] takes an int (a
    bool is one), and the comparison with a random float and the product
    with itself take a number. *)
Definition integral (x : pyval) : bool :=
  match x with
  | PInt _ | PBool _ => true
  | _ => false
  end.

Definition numeric (x : pyval) : bool :=
  match x with
  | PInt _ | PBool _ | PFloat _ => true
  | _ => false
  end.

(** [len(range(x))] *)
Definition count (x : pyval) : nat :=
  match x with
  | PInt z => Z.to_nat z
  | PBool b => if b then 1%nat else 0%nat
  | _ => 0%nat
  end.

(** The configurations on which [Game(config)] raises no TypeError: the two
    sizes are ints and, if a starting tile is asked for, the mutation
    probability and the root tile value are numbers. *)
Definition constructible (cfg : PyConfig) : bool :=
  integral (p_grid_size cfg)
  && integral (p_starting_tile_count cfg)
  && (Nat.eqb (count (p_starting_tile_count cfg)) 0
      || numeric (p_mutation_probability cfg) && numeric (p_root_tile_value cfg)).

(** A persisted state whose values have other types than the fields they
    go to: an int for mutation_probability, a float for the score, a flat
    list for the movement matrix, a str for latest_spawn_result, a dict for
    latest_spawn_locations and a str and a null among the tiles; the keys
    come in another order than to_dict writes them, with one more. *)
Definition document_mistyped : json :=
  JObj [ ("latest_spawn_locations", JObj [("a", JInt 1)]);
         ("score", JFloat float_1_5);
         ("extra", JNull);
         ("grid", JArr [JArr [JInt 2; JStr "x"]; JArr [JNull; JInt 0]]);
         ("movement_matrix", JArr [JInt 1; JInt 2]);
         ("config", JObj [("mutation_probability", JInt 1); ("grid_size", JInt 2)]);
         ("latest_spawn_result", JStr "yes") ]%string.

(** ** Lines on which a slide merges nothing *)

(** The tiles of a line, in order. *)
Fixpoint nonzeros (l : list Z) : list Z :=
  match l with
  | [] => []
  | x :: rest => if x =? 0 then nonzeros rest else x :: nonzeros rest
  end.

Fixpoint distinct_neighbours (l : list Z) : bool :=
  match l with
  | x :: rest =>
      match rest with
      | y :: _ => negb (x =? y) && distinct_neighbours rest
      | [] => true
      end
  | [] => true
  end.

(** No two equal tiles of the line face each other, at any distance over
    empty cells: a slide along the line merges nothing. *)
Definition merge_free (l : list Z) : bool := distinct_neighbours (nonzeros l).

(** The tiles packed toward index 0. *)
Definition compact (l : list Z) : list Z :=
  nonzeros l ++ replicate (length l - length (nonzeros l)) 0.

(** The offsets of a merge-free slide toward index 0: the [k]-th tile, found
    at index [i], moves by [k - i]. *)
Fixpoint offsets (k i : Z) (l : list Z) : list Z :=
  match l with
  | [] => []
  | x :: rest =>
      if x =? 0 then 0 :: offsets k (i + 1) rest
      else (k - i) :: offsets (k + 1) (i + 1) rest
  end.

(** The locals of the line loop once the prefix [pre] of a merge-free line of
    length [n] is scanned. *)
Definition scanned (n : nat) (s : Z) (pre : list Z) : Slide.locals :=
  {| Slide.new_list := nonzeros pre ++ replicate (n - length (nonzeros pre)) 0;
     Slide.movement := offsets 0 0 pre ++ replicate (n - length pre) 0;
     Slide.new_index := Z.max (Z.of_nat (length (nonzeros pre)) - 1) 0;
     Slide.score := s |}.

Definition line_values (d : SlideDirection.t) (l : list Z) : list Z :=
  if reversed_direction d then reverse (compact (reverse l)) else compact l.

Definition line_offsets (d : SlideDirection.t) (l : list Z) : list Z :=
  if reversed_direction d then Z.opp <$> reverse (offsets 0 0 (reverse l))
  else offsets 0 0 l.

(** ** Square matrices *)

(** [m[r][c]] where it exists. *)
Definition entry {A} (m : list (list A)) (c r : nat) : option A :=
  row ← m !! r; row !! c.

Definition square_matrix {A} (n : nat) (m : list (list A)) : Prop :=
  length m = n ∧ Forall (λ row, length row = n) m.

(** ** Lines of the board along a direction *)

(** The lines [slide_tiles] hands to [_slide_helper]: the columns for UP and
    DOWN, the rows otherwise. *)
Definition lines_along (d : SlideDirection.t) (self : Game) : list (list Z) :=
  if direction_in d [SlideDirection.UP; SlideDirection.DOWN]
  then ArrayHelper.transpose_columns (grid_values (grid self))
  else grid_values (grid self).

(** The board rebuilt from its lines. *)
Definition lines_back (d : SlideDirection.t) (m : list (list Z)) : list (list Z) :=
  if direction_in d [SlideDirection.UP; SlideDirection.DOWN]
  then ArrayHelper.transpose_columns m
  else m.

(** Boards for the worked slides: one whose top row merges on every LEFT
    slide, one on which a LEFT slide moves tiles and merges nothing. *)
Definition twos_vals : list (list Z) :=
  [[2;2;2;2]; [0;0;0;0]; [0;0;0;0]; [0;0;0;0]].

Definition loose_vals : list (list Z) :=
  [[0;2;0;4]; [0;0;0;0]; [2;0;0;0]; [0;0;8;2]].

(** The game after a slide along [d] that merges nothing. *)
Definition slid (d : SlideDirection.t) (self : Game) : Game :=
  with_movement_matrix
    (with_grid self
       ((λ row : list Z, Tile_of <$> row)
          <$> lines_back d (line_values d <$> lines_along d self)))
    (lines_back d (line_offsets d <$> lines_along d self)).

(** ** The spec's line algorithm

    Following the spec's words (4.1 SlideEngine, steps 2 to 4), for a slide
    toward index 0: an output buffer of zeros and a write cursor at 0; each
    source index [i] holding a non-zero value [v], in order, either merges
    into the output cell under the cursor when that cell holds [v] (the cell
    is multiplied by the root tile value, the movement is cursor - i, the
    score grows by v times the root tile value, the cursor advances), or is
    placed under the cursor when that cell is still empty (movement
    cursor - i, the cursor stays), or is placed after the cursor (movement
    cursor + 1 - i, the cursor advances). Zero cells contribute nothing. *)

Record spec_state := {
  out : list Z;
  moved : list Z;
  cursor : nat;
  gained : Z;
}.

Definition spec_visit (root : Z) (st : spec_state) (i : nat) (v : Z) : spec_state :=
  if v =? 0 then st
  else if v =? out st !!! cursor st then
    {| out := <[cursor st := (out st !!! cursor st) * root]> (out st);
       moved := <[i := Z.of_nat (cursor st) - Z.of_nat i]> (moved st);
       cursor := S (cursor st);
       gained := gained st + v * root |}
  else if out st !!! cursor st =? 0 then
    {| out := <[cursor st := v]> (out st);
       moved := <[i := Z.of_nat (cursor st) - Z.of_nat i]> (moved st);
       cursor := cursor st;
       gained := gained st |}
  else
    {| out := <[S (cursor st) := v]> (out st);
       moved := <[i := Z.of_nat (cursor st) + 1 - Z.of_nat i]> (moved st);
       cursor := S (cursor st);
       gained := gained st |}.

Fixpoint spec_scan (root : Z) (i : nat) (vs : list Z) (st : spec_state) : spec_state :=
  match vs with
  | [] => st
  | v :: rest => spec_scan root (S i) rest (spec_visit root st i v)
  end.

Definition spec_init (n : nat) : spec_state :=
  {| out := replicate n 0; moved := replicate n 0; cursor := 0; gained := 0 |}.

(** The line, the movement offsets and the score gained. *)
Definition spec_slide (root : Z) (line : list Z) : list Z * list Z * Z :=
  let st := spec_scan root 0 line (spec_init (length line)) in
  (out st, moved st, gained st).

(** The locals of the code's loop that a state of the spec's scan stands
    for, on a run that started with score [s0]. *)
Definition to_locals (s0 : Z) (st : spec_state) : Slide.locals :=
  {| Slide.new_list := out st; Slide.movement := moved st;
     Slide.new_index := Z.of_nat (cursor st); Slide.score := s0 + gained st |}.

(** ** The rest of the game logic *)

Module SlideResult.
Inductive t := NORMAL | BOARD_FULL | SPAWN_KILL | SPAWN_FILL.
End SlideResult.

(** [ArrayHelper.first_zero_index] *)
Fixpoint first_zero_loop (array : list Z) (idxs : list Z) : option Z :=
  match idxs with
  | [] => Some (-1)
  | i :: rest =>
      x ← py_getitem array i;
      if x =? 0 then Some i else first_zero_loop array rest
  end.

Definition first_zero_index (array : list Z) (start_index : Z) : option Z :=
  first_zero_loop array (py_range start_index (Z.of_nat (length array))).

(** [for x in xs: ...] whose body may [return False]; [body] tells whether it
    does, and falling out of the loop is [true]. *)
Fixpoint returns_false {A} (xs : list A) (body : A → option bool) : option bool :=
  match xs with
  | [] => Some true
  | x :: xs' => b ← body x; if b : bool then Some false else returns_false xs' body
  end.

Definition board_full (self : Game) : option bool :=
  returns_false (range (grid_size (config self)))
    (λ r,
       negb <$> returns_false (range (grid_size (config self)))
         (λ c, tile ← Grid.get (grid self) c r; Some (value tile =? 0))).

Definition get_highest_tile (self : Game) : option Z :=
  for_each (range (grid_size (config self)))
    (λ r highest_tile,
       for_each (range (grid_size (config self)))
         (λ c highest_tile,
            tile ← Grid.get (grid self) c r;
            Some (if highest_tile <? value tile then value tile else highest_tile))
         highest_tile)
    0.

(** The loop of [spawn_new_tiles]: a spawn that finds no empty cell returns
    False at once. *)
Fixpoint spawn_loop (idxs : list nat) (self : Game) (rng : Rng)
    : option (bool * Game * Rng) :=
  match idxs with
  | [] => Some (true, self, rng)
  | _i :: rest =>
      '(new_location, self, rng) ← _spawn_new_tile self rng;
      match new_location with
      | None => Some (false, self, rng)
      | Some _ =>
          let self :=
            with_latest_spawn_locations self
              (latest_spawn_locations self ++ [location_of new_location]) in
          spawn_loop rest self rng
      end
  end.

Definition spawn_new_tiles (self : Game) (rng : Rng) : option (bool * Game * Rng) :=
  let self := with_latest_spawn_locations self [] in
  spawn_loop (range (spawn_tile_count (config self))) self rng.

Definition play_turn (self : Game) (direction : SlideDirection.t) (rng : Rng)
    : option (SlideResult.t * Game * Rng) :=
  '(_, self) ← slide_tiles self direction;
  full ← board_full self;
  if full : bool then Some (SlideResult.BOARD_FULL, self, rng)
  else
    '(spawn_result, self, rng) ← spawn_new_tiles self rng;
    let self := with_latest_spawn_result self (Some spawn_result) in
    if negb spawn_result then
      if spawn_kill (config self) then Some (SlideResult.SPAWN_KILL, self, rng)
      else Some (SlideResult.SPAWN_FILL, self, rng)
    else Some (SlideResult.NORMAL, self, rng).

(** ** Any slide, line by line *)

(** The spec's scan of a line in direction [d]: of the line itself, or of
    its reverse for RIGHT and DOWN. *)
Definition line_scan (root : Z) (d : SlideDirection.t) (line : list Z) : spec_state :=
  let l := if reversed_direction d then reverse line else line in
  spec_scan root 0 l (spec_init (length l)).

Definition line_new (root : Z) (d : SlideDirection.t) (line : list Z) : list Z :=
  if reversed_direction d then reverse (out (line_scan root d line))
  else out (line_scan root d line).

Definition line_moved (root : Z) (d : SlideDirection.t) (line : list Z) : list Z :=
  if reversed_direction d then Z.opp <$> reverse (moved (line_scan root d line))
  else moved (line_scan root d line).

Definition line_gained (root : Z) (d : SlideDirection.t) (line : list Z) : Z :=
  gained (line_scan root d line).

Definition Zsum (l : list Z) : Z := foldr Z.add 0 l.

(** The game after [slide_tiles] in direction [d]. *)
Definition slid_any (d : SlideDirection.t) (self : Game) : Game :=
  let root := root_tile_value (config self) in
  with_movement_matrix
    (with_grid
       (with_score self
          (score self + Zsum (line_gained root d <$> lines_along d self)))
       ((λ row : list Z, Tile_of <$> row)
          <$> lines_back d (line_new root d <$> lines_along d self)))
    (lines_back d (line_moved root d <$> lines_along d self)).

(** ** What a scan of a line maintains *)

(** The state of the scan once the prefix [pre] of a line of length [n] has
    been visited: the lengths stay [n]; the cursor is at most the number of
    cells visited, and strictly less once its cell is filled; nothing lies
    beyond the cursor; with a non-zero root no cell before the cursor is
    empty; [root] times the sum of the output is [root] times the sum of the
    visited cells plus [(root - 2)] times the score gained; cells not yet
    visited have offset 0, empty cells too, and a tile found at [j] has an
    offset [m] in [-j..0] whose target [j + m] is at most the cursor and
    holds the tile's value or, merged, that value times [root]. *)
Record scan_inv (root : Z) (n : nat) (pre : list Z) (st : spec_state) : Prop := {
  inv_out_length : length (out st) = n;
  inv_moved_length : length (moved st) = n;
  inv_cursor : (cursor st ≤ length pre)%nat;
  inv_cursor_full :
    ∀ x, out st !! cursor st = Some x → x ≠ 0 → (cursor st < length pre)%nat;
  inv_after : ∀ j x, (cursor st < j)%nat → out st !! j = Some x → x = 0;
  inv_before : root ≠ 0 → ∀ j x, (j < cursor st)%nat → out st !! j = Some x → x ≠ 0;
  inv_sum : root * Zsum (out st) = root * Zsum pre + (root - 2) * gained st;
  inv_unvisited : ∀ j m, (length pre ≤ j)%nat → moved st !! j = Some m → m = 0;
  inv_visited :
    ∀ j v, pre !! j = Some v →
      ∃ m, moved st !! j = Some m
           ∧ (v = 0 → m = 0)
           ∧ (v ≠ 0 →
              - Z.of_nat j ≤ m ≤ 0
              ∧ ∃ t : nat,
                  Z.of_nat t = Z.of_nat j + m
                  ∧ (((t < cursor st)%nat
                      ∧ (out st !! t = Some v ∨ out st !! t = Some (v * root)))
                     ∨ (t = cursor st ∧ out st !! t = Some v)));
}.

(** The sum of the tile values on the board. *)
Definition tile_sum (self : Game) : Z := Zsum (Zsum <$> grid_values (grid self)).

(** A line seen from the edge the slide moves to: index 0 is the cell at
    that edge. *)
Definition toward (d : SlideDirection.t) (l : list Z) : list Z :=
  if reversed_direction d then reverse l else l.

(** No empty cell comes before a tile. *)
Definition packed (l : list Z) : Prop :=
  ∀ j k x, (j < k)%nat → l !! j = Some 0 → l !! k = Some x → x = 0.

(** A board on which a slide along [d] has nothing left to do: no line along
    [d] has two equal tiles facing each other, and none has an empty cell
    before a tile, seen from the edge the slide moves to. *)
Definition settled (d : SlideDirection.t) (self : Game) : Prop :=
  Forall (λ line, merge_free line = true ∧ packed (toward d line)) (lines_along d self).

(** The cell of the board behind the [j]-th element of the [k]-th line. *)
Definition line_cell (d : SlideDirection.t) (k j : nat) : nat * nat :=
  if direction_in d [SlideDirection.UP; SlideDirection.DOWN] then (k, j) else (j, k).

(** ** Queries on the board *)

(** The cell [(c, r)] is on the board and holds the value 0. *)
Definition empty_at (g : list (list Tile)) (pos : nat * nat) : Prop :=
  ∃ tile, Grid.get g pos.1 pos.2 = Some tile ∧ value tile = 0.

(** [pos] comes before [pos'] in the order of the two loops: rows first,
    then columns. *)
Definition row_major (pos pos' : nat * nat) : Prop :=
  (pos.2 < pos'.2)%nat ∨ (pos.2 = pos'.2 ∧ pos.1 < pos'.1)%nat.

(** Strictly increasing for [row_major]. *)
Fixpoint ascending (l : list (nat * nat)) : Prop :=
  match l with
  | [] => True
  | pos :: rest => Forall (row_major pos) rest ∧ ascending rest
  end.

(** ** Spawning *)

(** What one spawn does to the board: nothing when it finds no empty cell,
    otherwise it puts [tile] on the formerly empty cell [(c, r)] and leaves
    every other cell alone. *)
Definition spawned (root : Z) (g g' : list (list Tile)) (pos : option (nat * nat)) : Prop :=
  match pos with
  | None => g' = g ∧ ¬ ∃ p, empty_at g p
  | Some (c, r) =>
      empty_at g (c, r)
      ∧ (∃ tile, Grid.get g' c r = Some tile
                 ∧ (value tile = root ∨ value tile = root * root))
      ∧ ∀ c' r', (c', r') ≠ (c, r) → Grid.get g' c' r' = Grid.get g c' r'
  end.

(** [len(self.get_empty_tiles())] *)
Definition empty_count (self : Game) : nat :=
  match get_empty_tiles self with
  | Some empty_tiles => length empty_tiles
  | None => 0%nat
  end.

(** [self'] differs from [self] by tiles put on empty cells only: every
    tile of [self] is still there, and every other tile is worth
    root_tile_value or its square. *)
Definition tiles_added (self self' : Game) : Prop :=
  ∀ c r tile',
    Grid.get (grid self') c r = Some tile' →
    Grid.get (grid self) c r = Some tile'
    ∨ (empty_at (grid self) (c, r)
       ∧ (value tile' = root_tile_value (config self)
          ∨ value tile' = root_tile_value (config self) * root_tile_value (config self))).

(** ** The starting board *)

(** A value a starting tile may have: 0 (empty), root_tile_value, or its
    square when the configuration lets starting tiles mutate. *)
Definition starting_value (cfg : GameConfig) (v : Z) : Prop :=
  v = 0 ∨ v = root_tile_value cfg
  ∨ (mutation_at_start cfg = true ∧ v = root_tile_value cfg * root_tile_value cfg).

(** The game on the transposed board: rows and columns exchanged. *)
Definition transposed (self : Game) : Game :=
  with_grid self
    ((λ row : list Z, Tile_of <$> row)
       <$> ArrayHelper.transpose_columns (grid_values (grid self))).

(** ** GameConfig.to_json *)

(** [GameConfig.to_json]: the eight fields, written out key by key. *)
Definition GameConfig_to_json {text : Type} (json_dumps : json → text)
    (self : GameConfig) : text :=
  json_dumps
    (JObj [ ("grid_size", JInt (grid_size self));
            ("spawn_tile_count", JInt (spawn_tile_count self));
            ("starting_tile_count", JInt (starting_tile_count self));
            ("win_tile_value", JInt (win_tile_value self));
            ("mutation_probability", JFloat (mutation_probability self));
            ("mutation_at_start", JBool (mutation_at_start self));
            ("spawn_kill", JBool (spawn_kill self));
            ("root_tile_value", JInt (root_tile_value self)) ]%string).

(** * Properties *)

(** ** The traced monad *)

Lemma run_bind {A B} (m : Traced A) (f : A → Traced B) :
  run (m ≫= f) = run m ≫= (λ a, run (f a)).
Proof.
  destruct m as [t [a|]]; simpl; [|done].
  unfold run; simpl. by destruct (f a).
Qed.

Lemma trace_bind {A B} (m : Traced A) (f : A → Traced B) :
  trace (m ≫= f) =
  trace m ++ match run m with Some a => trace (f a) | None => [] end.
Proof.
  destruct m as [t [a|]]; simpl.
  - unfold trace; simpl. by destruct (f a).
  - unfold trace; simpl. by rewrite app_nil_r.
Qed.

Lemma run_ret {A} (x : A) : run (mret x) = Some x.
Proof. done. Qed.

Lemma run_for_each {A S} (xs : list A) (body : A → S → Traced S) (s : S) :
  run (for_each xs body s) = for_each xs (λ x s, run (body x s)) s.
Proof.
  revert s. induction xs as [|x xs IH]; intros s; simpl; [done|].
  rewrite run_bind. destruct (run (body x s)); simpl; auto.
Qed.

Lemma for_each_ext {A S} (xs : list A) (f g : A → S → option S) (s : S) :
  (∀ x s, f x s = g x s) → for_each xs f s = for_each xs g s.
Proof.
  intros Hfg. revert s. induction xs as [|x xs IH]; intros s; simpl; [done|].
  rewrite Hfg. destruct (g x s); simpl; auto.
Qed.

Lemma run_body root l i st : run (Slide.body root l i st) = step root l i st.
Proof.
  unfold Slide.body, step, getitem_at, setitem_at, run.
  destruct (py_getitem l i) as [x|]; simpl; [|done].
  destruct (x =? 0); simpl; [done|].
  destruct (py_getitem (Slide.new_list st) (Slide.new_index st)) as [y|]; simpl; [|done].
  destruct (x =? y); simpl.
  - destruct (py_setitem (Slide.new_list st) _ _); simpl; [|done].
    destruct (py_setitem (Slide.movement st) _ _); simpl; done.
  - destruct (y =? 0); simpl.
    + destruct (py_setitem (Slide.new_list st) _ _); simpl; [|done].
      destruct (py_setitem (Slide.movement st) _ _); simpl; done.
    + destruct (py_setitem (Slide.new_list st) _ _); simpl; [|done].
      destruct (py_setitem (Slide.movement st) _ _); simpl; done.
Qed.

(** [Slide.helper] is the loop on the (possibly reversed) line, then the
    reading back. *)
Lemma run_helper root d line s :
  run (Slide.helper root d line s) =
  slide_result (reversed_direction d)
    <$> slide_loop root (if reversed_direction d then reverse line else line) s.
Proof.
  unfold Slide.helper, slide_loop, slide_result. fold (reversed_direction d).
  cbv zeta. rewrite run_bind.
  destruct (run (ArrayHelper.first_non_zero_index _ _)) as [start|]; simpl; [|done].
  rewrite run_bind, run_for_each.
  rewrite (for_each_ext _ _ (step root (if reversed_direction d then reverse line else line)))
    by (intros; apply run_body).
  unfold init_locals.
  destruct (for_each _ _ _) as [st|]; simpl; [|done].
  by destruct (reversed_direction d).
Qed.

(** ** Worked examples of the repository's tests *)

Example test_slide_down :
  slide_outcome (game_of_values GameConfig_default power_vals) SlideDirection.DOWN =
  Some ([[0;0;0;0]; [0;0;0;0]; [0;0;2;0]; [4;4;4;4]],
        [[3;3;2;3]; [0;0;0;0]; [0;0;1;0]; [0;0;0;0]]).
Proof. reflexivity. Qed.

Example test_slide_right :
  slide_outcome (game_of_values GameConfig_default power_vals) SlideDirection.RIGHT =
  Some ([[0;0;4;4]; [0;0;0;0]; [0;0;0;4]; [0;0;2;4]],
        [[2;1;1;0]; [0;0;0;0]; [0;0;1;0]; [2;2;0;0]]).
Proof. reflexivity. Qed.

Example test_slide_left :
  slide_outcome (game_of_values GameConfig_default power_vals) SlideDirection.LEFT =
  Some ([[4;4;0;0]; [0;0;0;0]; [4;0;0;0]; [4;2;0;0]],
        [[0;-1;-1;-2]; [0;0;0;0]; [0;0;-2;0]; [0;-1;0;-2]]).
Proof. reflexivity. Qed.

Example test_can_play_full :
  can_play (game_of_values GameConfig_default full_tile_vals) = Some false.
Proof. reflexivity. Qed.

Example test_can_play_power :
  can_play (game_of_values GameConfig_default power_vals) = Some true.
Proof. reflexivity. Qed.

Lemma fmap_eq_cons {A B} (f : A → B) (l : list A) y k :
  f <$> l = y :: k → ∃ x l', l = x :: l' ∧ f x = y ∧ f <$> l' = k.
Proof. destruct l as [|x l']; intros [= <- <-]. by exists x, l'. Qed.

Lemma fmap_eq_nil {A B} (f : A → B) (l : list A) : f <$> l = [] → l = [].
Proof. by destruct l. Qed.

Local Ltac invert_fmap :=
  repeat match goal with
  | H : _ <$> _ = _ :: _ |- _ =>
      let x := fresh "t" in let l := fresh "l" in
      apply fmap_eq_cons in H as (x & l & -> & ? & H)
  | H : _ <$> _ = [] |- _ => apply fmap_eq_nil in H as ->
  end.

(** C2: for a 4x4 game with root tile value 2 whose grid holds
    [[2,2,2,2],[0,0,0,0],[0,0,4,0],[2,2,0,2]] (rows top to bottom),
    slide_tiles(UP) leaves the grid [[4,4,2,4],[0,0,4,0],[0,0,0,0],[0,0,0,0]]
    and a movement matrix whose entry at row 3, column 0 is -3: that tile
    moved from row 3 to row 0. *)
Theorem slide_tiles_up_power_grid (self : Game) :
  grid_size (config self) = 4 →
  root_tile_value (config self) = 2 →
  grid_values (grid self) = [[2;2;2;2]; [0;0;0;0]; [0;0;4;0]; [2;2;0;2]] →
  ∃ movement self',
    slide_tiles self SlideDirection.UP = Some (movement, self')
    ∧ grid_values (grid self') = [[4;4;2;4]; [0;0;4;0]; [0;0;0;0]; [0;0;0;0]]
    ∧ movement_matrix self' = movement
    ∧ movement = [[0;0;0;0]; [0;0;0;0]; [0;0;-1;0]; [-3;-3;0;-3]]
    ∧ entry (movement_matrix self') 0 3 = Some (-3).
Proof.
  destruct self as [cfg im g sc mm lsr locs]. simpl.
  destruct cfg as [gs stc sttc wtv mp mas sk rtv]. simpl.
  intros -> -> Hg. unfold grid_values in Hg.
  invert_fmap. simpl in *. invert_fmap.
  repeat match goal with t : Tile |- _ => destruct t as [? ?] end.
  simpl in *. subst.
  match goal with
  | |- ∃ m s, ?e = _ ∧ _ => destruct e as [[movement self']|] eqn:E
  end; vm_compute in E; [|discriminate].
  injection E as <- <-. do 2 eexists. split; [reflexivity|].
  vm_compute. repeat split.
Qed.

Lemma slide_tiles_up_power_grid_witness :
  ∃ movement self',
    slide_tiles (game_of_values GameConfig_default power_vals) SlideDirection.UP
      = Some (movement, self')
    ∧ grid_values (grid self') = [[4;4;2;4]; [0;0;4;0]; [0;0;0;0]; [0;0;0;0]]
    ∧ movement_matrix self' = movement
    ∧ movement = [[0;0;0;0]; [0;0;0;0]; [0;0;-1;0]; [-3;-3;0;-3]]
    ∧ entry (movement_matrix self') 0 3 = Some (-3).
Proof.
  apply (slide_tiles_up_power_grid (game_of_values GameConfig_default power_vals));
    reflexivity.
Defined.

(** ** Mirror directions *)

(** C3: for every line, _slide_helper in direction RIGHT (resp. DOWN) returns
    the reverse of the line that the LEFT (resp. UP) run returns on the
    reversed input, with the movement offsets of that run reversed and
    negated (and the same score). *)
Theorem slide_helper_mirror (self : Game) (row_o_col : list Z) :
  _slide_helper self SlideDirection.RIGHT row_o_col
    = mirror <$> _slide_helper self SlideDirection.LEFT (reverse row_o_col)
  ∧ _slide_helper self SlideDirection.DOWN row_o_col
    = mirror <$> _slide_helper self SlideDirection.UP (reverse row_o_col).
Proof.
  split; unfold _slide_helper, Slide.helper;
    change (direction_in SlideDirection.RIGHT _) with true;
    change (direction_in SlideDirection.DOWN _) with true;
    change (direction_in SlideDirection.LEFT _) with false;
    change (direction_in SlideDirection.UP _) with false;
    cbv beta zeta; rewrite !run_bind;
    destruct (run (ArrayHelper.first_non_zero_index _ _)) as [start|]; simpl; try done;
    rewrite !run_bind;
    destruct (run (for_each _ _ _)) as [st|]; simpl; done.
Qed.

(** ** Direction NONE *)

(** C9: slide_tiles with direction NONE is slide_tiles with direction LEFT:
    same board, same movement matrix, same score. *)
Theorem slide_tiles_none_is_left (self : Game) :
  slide_tiles self SlideDirection.NONE = slide_tiles self SlideDirection.LEFT.
Proof. reflexivity. Qed.

(** ** Subscripts of the line loop *)

Lemma py_index_nonneg n i : 0 ≤ i < Z.of_nat n → py_index n i = Some (Z.to_nat i).
Proof.
  intros H. unfold py_index.
  destruct (0 <=? i) eqn:E1; [|lia]. destruct (i <? Z.of_nat n) eqn:E2; [done|lia].
Qed.

Lemma py_getitem_nonneg {A} (l : list A) i :
  0 ≤ i < Z.of_nat (length l) → py_getitem l i = l !! Z.to_nat i.
Proof. intros H. unfold py_getitem. by rewrite py_index_nonneg. Qed.

Lemma py_setitem_nonneg {A} (l : list A) i x :
  0 ≤ i < Z.of_nat (length l) → py_setitem l i x = Some (<[Z.to_nat i := x]> l).
Proof. intros H. unfold py_setitem. by rewrite py_index_nonneg. Qed.

Lemma py_getitem_last {A} (l : list A) :
  l ≠ [] → py_getitem l (-1) = last l.
Proof.
  intros Hl. unfold py_getitem, py_index.
  assert (0 < length l)%nat by (destruct l; simpl; [done|lia]).
  destruct (0 <=? -1) eqn:E1; [lia|]. simpl.
  destruct (- Z.of_nat (length l) <=? -1) eqn:E2; [|lia]. simpl.
  rewrite last_lookup. f_equal. lia.
Qed.

Local Ltac solve_trace :=
  simpl; repeat (apply Forall_cons_2; [assumption|]); apply Forall_nil_2.

Lemma body_safe root l i st :
  0 ≤ i < Z.of_nat (length l) → loop_inv (length l) i st →
  ∃ st', run (Slide.body root l i st) = Some st'
         ∧ loop_inv (length l) (i + 1) st'
         ∧ Forall (in_bounds (length l)) (trace (Slide.body root l i st)).
Proof.
  intros Hi (Hnl & Hmv & Hni & Hslot).
  unfold Slide.body, getitem_at, setitem_at.
  rewrite (py_getitem_nonneg l) by done.
  destruct (lookup_lt_is_Some_2 l (Z.to_nat i)) as [x Hx]; [lia|]. rewrite Hx.
  assert (Hb : in_bounds (length l) (A_l_copy, i)) by (unfold in_bounds; simpl; lia).
  simpl. destruct (x =? 0) eqn:Ex; simpl.
  { exists st. unfold run, trace; simpl. split; [done|]. split.
    - repeat split; try done. left. destruct Hslot; lia.
    - solve_trace. }
  assert (Hni' : 0 ≤ Slide.new_index st < Z.of_nat (length (Slide.new_list st))).
  { rewrite Hnl. destruct Hslot; lia. }
  rewrite (py_getitem_nonneg (Slide.new_list st)) by done.
  destruct (lookup_lt_is_Some_2 (Slide.new_list st) (Z.to_nat (Slide.new_index st)))
    as [y Hy]; [lia|]. rewrite Hy. simpl.
  assert (Hb' : in_bounds (length l) (A_new_list, Slide.new_index st)).
  { unfold in_bounds; simpl. lia. }
  assert (Hbm : in_bounds (length l) (A_movement, i)) by (unfold in_bounds; simpl; lia).
  assert (Hmi : 0 ≤ i < Z.of_nat (length (Slide.movement st))) by lia.
  destruct (x =? y) eqn:Exy; simpl.
  - assert (Slide.new_index st < i).
    { destruct Hslot as [?|[Heq Hz]]; [done|]. rewrite Heq, Hz in Hy. injection Hy as <-. lia. }
    rewrite (py_setitem_nonneg (Slide.new_list st)) by done. simpl.
    rewrite (py_setitem_nonneg (Slide.movement st)) by done. simpl.
    eexists. unfold run, trace; simpl. split; [done|]. split.
    + split; [|split; [|split]]; simpl; rewrite ?length_insert; try done; lia.
    + solve_trace.
  - destruct (y =? 0) eqn:Ey; simpl.
    + rewrite (py_setitem_nonneg (Slide.new_list st)) by done. simpl.
      rewrite (py_setitem_nonneg (Slide.movement st)) by done. simpl.
      eexists. unfold run, trace; simpl. split; [done|]. split.
      * split; [|split; [|split]]; simpl; rewrite ?length_insert; try done.
        left. destruct Hslot; lia.
      * solve_trace.
    + assert (Slide.new_index st < i).
      { destruct Hslot as [?|[Heq Hz]]; [done|]. rewrite Heq, Hz in Hy. injection Hy as <-. lia. }
      rewrite (py_setitem_nonneg (Slide.new_list st)) by lia. simpl.
      rewrite (py_setitem_nonneg (Slide.movement st)) by done. simpl.
      eexists. unfold run, trace; simpl. split; [done|]. split.
      * split; [|split; [|split]]; simpl; rewrite ?length_insert; try done; lia.
      * assert (in_bounds (length l) (A_new_list, Slide.new_index st + 1)).
        { unfold in_bounds; simpl. lia. }
        solve_trace.
Qed.
Lemma loop_safe root l (m : nat) i st :
  0 ≤ i → i + Z.of_nat m = Z.of_nat (length l) → loop_inv (length l) i st →
  ∃ st', run (for_each (seqZ i (Z.of_nat m)) (Slide.body root l) st) = Some st'
         ∧ length (Slide.new_list st') = length l
         ∧ length (Slide.movement st') = length l
         ∧ Forall (in_bounds (length l))
             (trace (for_each (seqZ i (Z.of_nat m)) (Slide.body root l) st)).
Proof.
  revert i st. induction m as [|m IH]; intros i st Hi Hlen Hinv.
  - exists st. simpl. destruct Hinv as (? & ? & _). by repeat split.
  - rewrite seqZ_cons by lia. simpl.
    rewrite run_bind, trace_bind.
    destruct (body_safe root l i st) as (st1 & Hrun & Hinv1 & Htr); [lia|done|].
    rewrite Hrun. simpl.
    replace (Z.pred (Z.of_nat (S m))) with (Z.of_nat m) by lia.
    destruct (IH (Z.succ i) st1) as (st' & Hrun' & Hnl & Hmv & Htr'); [lia|lia|done|].
    exists st'. repeat split; try done. by apply Forall_app_2.
Qed.

Lemma first_non_zero_loop_spec l (m : nat) k :
  0 ≤ k → k + Z.of_nat m = Z.of_nat (length l) →
  Forall (λ x, x = 0) (take (Z.to_nat k) l) →
  ∃ start,
    run (ArrayHelper.first_non_zero_loop l (seqZ k (Z.of_nat m))) = Some start
    ∧ Forall (in_bounds (length l))
        (trace (ArrayHelper.first_non_zero_loop l (seqZ k (Z.of_nat m))))
    ∧ ((start = -1 ∧ Forall (λ x, x = 0) l)
       ∨ (0 ≤ start < Z.of_nat (length l)
          ∧ Forall (λ x, x = 0) (take (Z.to_nat start) l)
          ∧ ∃ x, l !! Z.to_nat start = Some x ∧ x ≠ 0)).
Proof.
  revert k. induction m as [|m IH]; intros k Hk Hlen Hzero.
  - exists (-1). simpl. repeat split; [apply Forall_nil_2|].
    left. split; [done|]. rewrite take_ge in Hzero by lia. done.
  - rewrite seqZ_cons by lia. simpl.
    unfold getitem_at. rewrite py_getitem_nonneg by lia.
    destruct (lookup_lt_is_Some_2 l (Z.to_nat k)) as [x Hx]; [lia|]. rewrite Hx.
    assert (Hb : in_bounds (length l) (A_array, k)) by (unfold in_bounds; simpl; lia).
    simpl. destruct (x =? 0) eqn:Ex; simpl.
    + replace (Z.pred (Z.of_nat (S m))) with (Z.of_nat m) by lia.
      destruct (IH (Z.succ k)) as (start & Hrun & Htr & Hspec); [lia|lia| |].
      { replace (Z.to_nat (Z.succ k)) with (S (Z.to_nat k)) by lia.
        rewrite (take_S_r _ _ x) by done. apply Forall_app_2; [done|].
        apply Forall_cons_2; [lia|apply Forall_nil_2]. }
      exists start. unfold run, trace in *.
      destruct (ArrayHelper.first_non_zero_loop l (seqZ (Z.succ k) (Z.of_nat m)))
        as [t r]; simpl in *.
      repeat split; try done. by apply Forall_cons_2.
    + exists k. unfold run, trace; simpl. repeat split.
      * apply Forall_cons_2; [done|apply Forall_nil_2].
      * right. repeat split; try lia; [done|]. exists x. split; [done|lia].
Qed.

Lemma first_non_zero_index_spec l :
  ∃ start,
    run (ArrayHelper.first_non_zero_index l 0) = Some start
    ∧ Forall (in_bounds (length l)) (trace (ArrayHelper.first_non_zero_index l 0))
    ∧ ((start = -1 ∧ Forall (λ x, x = 0) l)
       ∨ (0 ≤ start < Z.of_nat (length l)
          ∧ Forall (λ x, x = 0) (take (Z.to_nat start) l)
          ∧ ∃ x, l !! Z.to_nat start = Some x ∧ x ≠ 0)).
Proof.
  unfold ArrayHelper.first_non_zero_index, py_range.
  rewrite Z.sub_0_r. apply first_non_zero_loop_spec; [lia|lia|].
  apply Forall_nil_2.
Qed.
Lemma init_loop_inv (l : list Z) s i :
  l ≠ [] → 0 ≤ i →
  loop_inv (length l) i
    {| Slide.new_list := (λ _, 0) <$> l; Slide.movement := (λ _, 0) <$> l;
       Slide.new_index := 0; Slide.score := s |}.
Proof.
  intros Hl Hi. repeat split; simpl; rewrite ?length_fmap; try done.
  destruct (decide (i = 0)) as [->|]; [right|left; lia].
  split; [done|]. destruct l; [done|]. done.
Qed.

(** The loop of [_slide_helper] on a non-empty line: it returns, and each
    subscript is within [0, n) except the read [l_copy[-1]] with which the
    scan of an all-zero line starts. *)
Lemma slide_loop_safe root (l : list Z) s :
  l ≠ [] →
  let m := ArrayHelper.first_non_zero_index l 0 ≫= λ start_index,
             for_each (py_range start_index (Z.of_nat (length l))) (Slide.body root l)
               {| Slide.new_list := (λ _, 0) <$> l; Slide.movement := (λ _, 0) <$> l;
                  Slide.new_index := 0; Slide.score := s |} in
  ∃ st, run m = Some st
        ∧ length (Slide.new_list st) = length l
        ∧ length (Slide.movement st) = length l
        ∧ Forall (λ a, in_bounds (length l) a
                       ∨ (a = (A_l_copy, -1) ∧ Forall (λ x, x = 0) l)) (trace m).
Proof.
  intros Hl m. subst m. rewrite run_bind, trace_bind.
  destruct (first_non_zero_index_spec l) as (start & Hrun & Htr & Hspec).
  rewrite Hrun. simpl. unfold py_range.
  destruct Hspec as [[-> Hzero] | (Hstart & _ & _)].
  - replace (Z.of_nat (length l) - -1) with (Z.of_nat (S (length l))) by lia.
    rewrite seqZ_cons by lia. simpl.
    replace (Z.pred (Z.of_nat (S (length l)))) with (Z.of_nat (length l)) by lia.
    rewrite run_bind, trace_bind.
    assert (Hlast : py_getitem l (-1) = Some 0).
    { rewrite py_getitem_last by done. rewrite last_lookup.
      destruct (lookup_lt_is_Some_2 l (pred (length l))) as [x Hx].
      { destruct l; [done|simpl; lia]. }
      rewrite Hx. f_equal. by eapply (proj1 (Forall_lookup _ _) Hzero). }
    assert (Hbody : ∀ st, Slide.body root l (-1) st = ([(A_l_copy, -1)], Some st)).
    { intros st. unfold Slide.body, getitem_at. rewrite Hlast. done. }
    rewrite Hbody. simpl.
    edestruct (loop_safe root l (length l) 0) as (st' & Hrun' & Hnl & Hmv & Htr');
      [lia|lia|apply (init_loop_inv l s 0); [done|lia]|].
    exists st'. simpl in Hrun'. repeat split; try done.
    apply Forall_app_2; [|apply Forall_cons_2; [by right|]];
      (eapply Forall_impl; [eassumption|by left]).
  - edestruct (loop_safe root l (Z.to_nat (Z.of_nat (length l) - start)) start)
      as (st' & Hrun' & Hnl & Hmv & Htr');
      [lia|lia|apply (init_loop_inv l s start); [done|lia]|].
    rewrite Z2Nat.id in Hrun', Htr' by lia.
    exists st'. repeat split; try done.
    apply Forall_app_2; (eapply Forall_impl; [eassumption|by left]).
Qed.

Lemma helper_as_loop root d line s :
  Slide.helper root d line s =
  (let l := if reversed_direction d then reverse line else line in
   ArrayHelper.first_non_zero_index l 0 ≫= λ start_index,
     for_each (py_range start_index (Z.of_nat (length l))) (Slide.body root l)
       {| Slide.new_list := (λ _, 0) <$> l; Slide.movement := (λ _, 0) <$> l;
          Slide.new_index := 0; Slide.score := s |})
  ≫= λ st, mret (slide_result (reversed_direction d) st).
Proof.
  unfold Slide.helper, slide_result. fold (reversed_direction d). cbv zeta.
  destruct (ArrayHelper.first_non_zero_index _ 0) as [t [start|]]; simpl; [|done].
  destruct (for_each _ _ _) as [t' [st|]]; simpl; [|done].
  destruct (reversed_direction d); simpl; by rewrite !app_nil_r.
Qed.

(** C10 (as amended): on every line of length n >= 1, _slide_helper returns
    two lists of length n, and every subscript it evaluates on l_copy,
    new_list and movement (and the scan of first_non_zero_index) is within
    [0, n), with one exception: when the line holds no non-zero element,
    first_non_zero_index returns -1 and the first iteration reads
    l_copy[-1], Python's last element (a zero). No subscript raises. *)
Theorem slide_helper_indices (root : Z) (d : SlideDirection.t) (line : list Z) (s : Z) :
  (1 ≤ length line)%nat →
  (∃ new_list movement s',
      run (Slide.helper root d line s) = Some (new_list, movement, s')
      ∧ length new_list = length line ∧ length movement = length line)
  ∧ Forall (λ a : access,
              0 ≤ a.2 < Z.of_nat (length line)
              ∨ (a = (A_l_copy, -1) ∧ Forall (λ x, x = 0) line))
      (trace (Slide.helper root d line s)).
Proof.
  intros Hlen. rewrite helper_as_loop. cbv zeta.
  set (l := if reversed_direction d then reverse line else line).
  assert (Hll : length l = length line).
  { subst l. destruct (reversed_direction d); [apply length_reverse|done]. }
  assert (Hl : l ≠ []) by (intros E; rewrite E in Hll; simpl in Hll; lia).
  destruct (slide_loop_safe root l s Hl) as (st & Hrun & Hnl & Hmv & Htr).
  cbv zeta in Hrun, Htr. rewrite run_bind, trace_bind, Hrun. simpl.
  split.
  - unfold slide_result. destruct (reversed_direction d); do 3 eexists;
      (split; [reflexivity|]);
      rewrite ?length_fmap, ?length_reverse; split; congruence.
  - rewrite app_nil_r. eapply Forall_impl; [exact Htr|].
    intros a [Ha | [-> Hz]]; [left; unfold in_bounds in Ha; lia|right].
    split; [done|]. subst l. destruct (reversed_direction d); [|done].
    by apply Forall_reverse.
Qed.

Lemma slide_helper_indices_witness :
  Forall (λ a : access, 0 ≤ a.2 < 4 ∨ (a = (A_l_copy, -1) ∧ Forall (λ x, x = 0) [2;2;4;2]))
    (trace (Slide.helper 2 SlideDirection.LEFT [2;2;4;2] 0)).
Proof.
  refine (proj2 (slide_helper_indices 2 SlideDirection.LEFT [2;2;4;2] 0 _)).
  simpl. lia.
Defined.

(** C10 as stated fails on the line [0]: the trace of subscripts holds the
    read l_copy[-1], which is not within [0, 1). *)
Lemma slide_helper_negative_index :
  trace (Slide.helper 2 SlideDirection.LEFT [0] 0)
    = [(A_array, 0); (A_l_copy, -1); (A_l_copy, 0)]
  ∧ ¬ Forall (in_bounds (length [0])) (trace (Slide.helper 2 SlideDirection.LEFT [0] 0)).
Proof.
  split; [reflexivity|]. intros H. vm_compute in H.
  apply Forall_cons_1 in H as [_ H]. apply Forall_cons_1 in H as [[H _] _].
  by apply H.
Qed.

(** ** can_play *)

Lemma returns_true_existsb {A} (xs : list A) (body : A → option bool) (f : A → bool) :
  (∀ x, x ∈ xs → body x = Some (f x)) →
  returns_true xs body = Some (existsb f xs).
Proof.
  induction xs as [|x xs IH]; intros H; simpl; [done|].
  rewrite (H x) by apply list_elem_of_here. simpl.
  destruct (f x); simpl; [done|].
  apply IH. intros y Hy. apply H. by apply list_elem_of_further.
Qed.

Lemma existsb_elem_of {A} (f : A → bool) (xs : list A) :
  existsb f xs = true ↔ ∃ x, x ∈ xs ∧ f x = true.
Proof.
  rewrite existsb_exists. split; intros (x & Hx & Hf); exists x; split; try done;
    by apply list_elem_of_In.
Qed.

Lemma elem_of_range (n : Z) (k : nat) : k ∈ range n ↔ (k < Z.to_nat n)%nat.
Proof. unfold range. rewrite elem_of_seq. lia. Qed.

Lemma square_get n (g : list (list Tile)) c r :
  Grid.square n g → (is_Some (Grid.get g c r) ↔ (c < n ∧ r < n)%nat).
Proof.
  intros [Hlen Hrows]. unfold Grid.get. split.
  - intros [tile Ht]. destruct (g !! r) as [row|] eqn:Hr; simpl in Ht; [|done].
    assert (length row = n) by (by eapply (proj1 (Forall_lookup _ _) Hrows)).
    apply lookup_lt_Some in Hr, Ht. lia.
  - intros [Hc Hr]. destruct (lookup_lt_is_Some_2 g r) as [row Hrow]; [lia|].
    rewrite Hrow. simpl. apply lookup_lt_is_Some_2.
    assert (length row = n) by (by eapply (proj1 (Forall_lookup _ _) Hrows)). lia.
Qed.

Lemma elem_of_get_adjacent (g : list (list Tile)) c r tile :
  tile ∈ Grid.get_adjacent g c r ↔
  ∃ c' r', adjacent c r c' r' ∧ Grid.get g c' r' = Some tile.
Proof.
  unfold Grid.get_adjacent, adjacent. rewrite list_elem_of_omap. split.
  - intros (o & Ho & Hsome). simpl in Hsome. subst o.
    rewrite !elem_of_cons, elem_of_nil in Ho.
    destruct Ho as [Ho|[Ho|[Ho|[Ho|[]]]]].
    + destruct r as [|r']; [done|]. exists c, r'. split; [|done]. left. auto.
    + exists c, (S r). split; [|done]. left. auto.
    + destruct c as [|c']; [done|]. exists c', r. split; [|done]. right. auto.
    + exists (S c), r. split; [|done]. right. auto.
  - intros (c' & r' & Hadj & Hget). exists (Some tile). split; [|done].
    rewrite !elem_of_cons.
    destruct Hadj as [[-> [-> | ->]] | [-> [-> | ->]]]; rewrite <- Hget; auto.
Qed.

Lemma can_play_cells (self : Game) :
  well_formed self →
  can_play self =
  Some (existsb (λ r, existsb (λ c, playable_cell (grid self) c r)
                        (range (grid_size (config self))))
          (range (grid_size (config self)))).
Proof.
  intros Hwf. unfold can_play.
  apply returns_true_existsb. intros r Hr.
  apply returns_true_existsb. intros c Hc.
  apply elem_of_range in Hr, Hc.
  destruct (proj2 (square_get _ _ c r Hwf)) as [tile Ht]; [done|].
  unfold playable_cell. rewrite Ht. simpl.
  destruct (value tile =? 0); simpl; [done|].
  by apply returns_true_existsb.
Qed.

(** C5: on a well-formed game, can_play returns true exactly when some cell
    of the board is empty (value 0) or some cell has an on-board cell above,
    below, left or right of it holding the same value. A full board without
    such a pair therefore gives false, a full board with one gives true. *)
Theorem can_play_iff (self : Game) :
  well_formed self →
  ∃ b, can_play self = Some b
       ∧ (b = true ↔
          ∃ c r tile,
            Grid.get (grid self) c r = Some tile
            ∧ (value tile = 0
               ∨ ∃ c' r' tile',
                   adjacent c r c' r'
                   ∧ Grid.get (grid self) c' r' = Some tile'
                   ∧ value tile' = value tile)).
Proof.
  intros Hwf. eexists. split; [by apply can_play_cells|].
  rewrite existsb_elem_of. split.
  - intros (r & Hr & Hex). apply existsb_elem_of in Hex as (c & Hc & Hcell).
    unfold playable_cell in Hcell.
    destruct (Grid.get (grid self) c r) as [tile|] eqn:Ht; [|done].
    exists c, r, tile. split; [done|].
    apply orb_true_iff in Hcell as [Hz | Hnb]; [left; lia|right].
    apply existsb_elem_of in Hnb as (nb & Hnb & Heq).
    apply elem_of_get_adjacent in Hnb as (c' & r' & Hadj & Hget).
    exists c', r', nb. repeat split; try done. lia.
  - intros (c & r & tile & Ht & Hcell).
    destruct (proj1 (square_get _ _ c r Hwf)) as [Hc Hr]; [by rewrite Ht|].
    exists r. split; [by apply elem_of_range|].
    apply existsb_elem_of. exists c. split; [by apply elem_of_range|].
    unfold playable_cell. rewrite Ht. apply orb_true_iff.
    destruct Hcell as [Hz | (c' & r' & tile' & Hadj & Hget & Heq)]; [left; lia|right].
    apply existsb_elem_of. exists tile'. split; [|lia].
    apply elem_of_get_adjacent. eauto.
Qed.

Lemma can_play_iff_witness :
  ∃ b, can_play (game_of_values GameConfig_default full_tile_vals) = Some b
       ∧ (b = true ↔
          ∃ c r tile,
            Grid.get (grid (game_of_values GameConfig_default full_tile_vals)) c r = Some tile
            ∧ (value tile = 0
               ∨ ∃ c' r' tile',
                   adjacent c r c' r'
                   ∧ Grid.get (grid (game_of_values GameConfig_default full_tile_vals)) c' r'
                     = Some tile'
                   ∧ value tile' = value tile)).
Proof.
  apply (can_play_iff (game_of_values GameConfig_default full_tile_vals)).
  split; [reflexivity|]. simpl. repeat constructor.
Defined.

(** ** Loops over [range] *)

Lemma for_each_seq_inv {St} (Q : nat → St → Prop) (body : nat → St → option St) a m s :
  Q a s →
  (∀ k s, (a ≤ k < a + m)%nat → Q k s → ∃ s', body k s = Some s' ∧ Q (S k) s') →
  ∃ s', for_each (seq a m) body s = Some s' ∧ Q (a + m)%nat s'.
Proof.
  revert a s. induction m as [|m IH]; intros a s Hs Hstep; simpl.
  - exists s. by rewrite Nat.add_0_r.
  - destruct (Hstep a s) as (s1 & Hb & Hs1); [lia|done|]. rewrite Hb. simpl.
    destruct (IH (S a) s1) as (s' & Hrun & Hs'); [done| |].
    { intros k s2 Hk. apply Hstep. lia. }
    exists s'. split; [done|]. by replace (a + S m)%nat with (S a + m)%nat by lia.
Qed.

Lemma for_each_range_inv {St} (Q : nat → St → Prop) (body : nat → St → option St) n s :
  Q 0%nat s →
  (∀ k s, (k < Z.to_nat n)%nat → Q k s → ∃ s', body k s = Some s' ∧ Q (S k) s') →
  ∃ s', for_each (range n) body s = Some s' ∧ Q (Z.to_nat n) s'.
Proof.
  intros Hs Hstep. unfold range.
  destruct (for_each_seq_inv Q body 0 (Z.to_nat n) s) as (s' & Hrun & Hs'); [done| |eauto].
  intros k s0 Hk. apply Hstep. lia.
Qed.

(** A loop in which some iteration raises whatever the state raises. *)
Lemma for_each_raises {A S} (xs : list A) (body : A → S → option S) x :
  x ∈ xs → (∀ s, body x s = None) → ∀ s, for_each xs body s = None.
Proof.
  intros Hx Hfail. induction xs as [|y xs IH]; intros s; [by apply elem_of_nil in Hx|].
  simpl. apply elem_of_cons in Hx as [<- | Hx].
  - by rewrite Hfail.
  - destruct (body y s); simpl; [by apply IH|done].
Qed.

(** ** The grid container *)

Lemma square_lookup n (g : list (list Tile)) r row :
  Grid.square n g → g !! r = Some row → length row = n ∧ (r < n)%nat.
Proof.
  intros [Hlen Hrows] Hr. split.
  - by eapply (proj1 (Forall_lookup _ _) Hrows).
  - apply lookup_lt_Some in Hr. lia.
Qed.

Lemma grid_set_square n (g : list (list Tile)) c r tile :
  Grid.square n g → (c < n)%nat → (r < n)%nat →
  ∃ g', Grid.set g c r tile = Some g'
        ∧ Grid.square n g'
        ∧ Grid.get g' c r = Some tile
        ∧ ∀ c' r', (c', r') ≠ (c, r) → Grid.get g' c' r' = Grid.get g c' r'.
Proof.
  intros Hsq Hc Hr. unfold Grid.set.
  destruct (lookup_lt_is_Some_2 g r) as [row Hrow]; [destruct Hsq; lia|].
  destruct (square_lookup _ _ _ _ Hsq Hrow) as [Hlen _].
  destruct (lookup_lt_is_Some_2 row c) as [old Hold]; [lia|].
  rewrite Hrow. simpl. rewrite Hold. simpl. eexists. split; [done|].
  assert (Hr' : (r < length g)%nat) by (destruct Hsq; lia).
  split; [|split].
  - destruct Hsq as [Hlg Hrows]. split; [by rewrite length_insert|].
    apply Forall_insert; [done|]. by rewrite length_insert.
  - unfold Grid.get. rewrite list_lookup_insert_eq by done. simpl.
    apply list_lookup_insert_eq. lia.
  - intros c' r' Hne. unfold Grid.get.
    destruct (decide (r' = r)) as [->|Hrr].
    + rewrite list_lookup_insert_eq by done. rewrite Hrow. simpl.
      apply list_lookup_insert_ne. congruence.
    + by rewrite list_lookup_insert_ne.
Qed.

Lemma square_ext n (g1 g2 : list (list Tile)) :
  Grid.square n g1 → Grid.square n g2 →
  (∀ c r, (c < n)%nat → (r < n)%nat → Grid.get g1 c r = Grid.get g2 c r) →
  g1 = g2.
Proof.
  intros Hs1 Hs2 Hget. apply list_eq. intros r.
  destruct (decide (r < n)%nat) as [Hr|Hr].
  - destruct (lookup_lt_is_Some_2 g1 r) as [row1 H1]; [destruct Hs1; lia|].
    destruct (lookup_lt_is_Some_2 g2 r) as [row2 H2]; [destruct Hs2; lia|].
    rewrite H1, H2. f_equal. apply list_eq. intros c.
    destruct (decide (c < n)%nat) as [Hc|Hc].
    + specialize (Hget c r Hc Hr). unfold Grid.get in Hget.
      by rewrite H1, H2 in Hget.
    + destruct (square_lookup _ _ _ _ Hs1 H1), (square_lookup _ _ _ _ Hs2 H2).
      rewrite !lookup_ge_None_2 by lia. done.
  - destruct Hs1, Hs2. rewrite !lookup_ge_None_2 by lia. done.
Qed.

(** ** set_tiles *)

Lemma with_grid_with_grid self g g' : with_grid (with_grid self g) g' = with_grid self g'.
Proof. done. Qed.

Lemma set_tiles_spec (self : Game) (new_list : list (list Tile)) :
  let n := Z.to_nat (grid_size (config self)) in
  Grid.square n (grid self) →
  (∀ c r, (c < n)%nat → (r < n)%nat → is_Some (Grid.get new_list c r)) →
  ∃ g, set_tiles self new_list = Some (with_grid self g)
       ∧ Grid.square n g
       ∧ ∀ c r, (c < n)%nat → (r < n)%nat → Grid.get g c r = Grid.get new_list c r.
Proof.
  intros n Hsq Hcover.
  pose (Qrow (r : nat) (c : nat) (s : Game) :=
    ∃ g, s = with_grid self g ∧ Grid.square n g
         ∧ (∀ c' r', (c' < n)%nat → (r' < r)%nat →
              Grid.get g c' r' = Grid.get new_list c' r')
         ∧ (∀ c', (c' < c)%nat → Grid.get g c' r = Grid.get new_list c' r)).
  assert (Hloop : ∃ s', set_tiles self new_list = Some s' ∧ Qrow n 0%nat s').
  { unfold set_tiles. apply (for_each_range_inv (λ r s, Qrow r 0%nat s)).
    - exists (grid self). split; [by destruct self|]. split; [done|]. split; intros; lia.
    - intros r s Hr Hs.
      assert (Hinner : ∃ s1,
        for_each (range (grid_size (config s)))
          (λ c self1,
             row ← new_list !! r;
             tile ← row !! c;
             g ← Grid.set (grid self1) c r tile;
             Some (with_grid self1 g)) s = Some s1 ∧ Qrow r n s1).
      { assert (Hcfg : config s = config self) by (by destruct Hs as (g & -> & _)).
        rewrite Hcfg.
        apply (for_each_range_inv (λ c s, Qrow r c s)); [done|].
        intros c s0 Hc (g & -> & Hg & Hdone & Hrow).
        destruct (Hcover c r) as [tile Htile]; [done|done|].
        unfold Grid.get in Htile.
        destruct (new_list !! r) as [row|] eqn:Hnr; simpl in Htile; [|done].
        simpl. rewrite Htile. simpl.
        destruct (grid_set_square n g c r tile) as (g' & Hset & Hg' & Hat & Hother);
          [done|done|done|].
        rewrite Hset. simpl. eexists. split; [done|].
        exists g'. split; [done|]. split; [done|]. split.
        * intros c' r' Hc' Hr'. rewrite Hother by (intros [=]; lia). by apply Hdone.
        * intros c' Hc'. destruct (decide (c' = c)) as [->|Hne].
          -- rewrite Hat. unfold Grid.get. by rewrite Hnr.
          -- rewrite Hother by congruence. apply Hrow. lia. }
      destruct Hinner as (s1 & Hrun1 & (g & -> & Hg & Hdone & Hrow)).
      exists (with_grid self g). split; [done|].
      exists g. split; [done|]. split; [done|]. split; [|intros; lia].
      intros c' r' Hc' Hr'. destruct (decide (r' = r)) as [->|Hne].
      * by apply Hrow.
      * apply Hdone; [done|lia]. }
  destruct Hloop as (s' & Hrun & (g & -> & Hg & Hdone & _)).
  exists g. split; [done|]. split; [done|].
  intros c r Hc Hr. by apply Hdone.
Qed.

Lemma set_tiles_square (self : Game) (new_list : list (list Tile)) :
  let n := Z.to_nat (grid_size (config self)) in
  Grid.square n (grid self) → Grid.square n new_list →
  set_tiles self new_list = Some (with_grid self new_list).
Proof.
  intros n Hsq Hnew.
  destruct (set_tiles_spec self new_list) as (g & Hrun & Hg & Hget); [done| |].
  { intros c r Hc Hr. by apply (square_get n). }
  rewrite Hrun. do 2 f_equal. by apply (square_ext n).
Qed.

(** ** Construction *)

Lemma build_grid_square v size :
  Grid.square (Z.to_nat size) (TileHelper.build_grid_with_value v size).
Proof.
  unfold TileHelper.build_grid_with_value, range. split.
  - by rewrite length_fmap, length_seq.
  - apply Forall_fmap, Forall_forall. intros _j _. simpl.
    by rewrite length_fmap, length_seq.
Qed.

Lemma get_empty_tiles_on_board (self : Game) :
  well_formed self →
  ∃ empty_tiles,
    get_empty_tiles self = Some empty_tiles
    ∧ Forall (λ pos : nat * nat,
                (pos.1 < Z.to_nat (grid_size (config self)))%nat
                ∧ (pos.2 < Z.to_nat (grid_size (config self)))%nat) empty_tiles.
Proof.
  intros Hwf. unfold get_empty_tiles.
  set (P := Forall (λ pos : nat * nat,
                (pos.1 < Z.to_nat (grid_size (config self)))%nat
                ∧ (pos.2 < Z.to_nat (grid_size (config self)))%nat)).
  apply (for_each_range_inv (λ _ acc, P acc)); [by apply Forall_nil_2|].
  intros r acc Hr Hacc.
  apply (for_each_range_inv (λ _ acc, P acc)); [done|].
  intros c acc' Hc Hacc'.
  destruct (proj2 (square_get _ _ c r Hwf)) as [tile Ht]; [done|].
  rewrite Ht. simpl. eexists. split; [done|].
  destruct (value tile =? 0); [|done].
  apply Forall_app_2; [done|]. apply Forall_cons_2; [done|apply Forall_nil_2].
Qed.

Lemma spawn_new_tile_total (self : Game) (rng : Rng) :
  well_formed self →
  ∃ pos g rng',
    _spawn_new_tile self rng = Some (pos, with_grid self g, rng')
    ∧ Grid.square (Z.to_nat (grid_size (config self))) g.
Proof.
  intros Hwf. unfold _spawn_new_tile.
  destruct (_get_new_tile self rng) as [new_tile rng1].
  unfold _get_random_empty_tile.
  destruct (get_empty_tiles_on_board self Hwf) as (empty & Hempty & Hon).
  rewrite Hempty. cbn [mbind option_bind].
  destruct (decide (empty = [])) as [->|Hne].
  - simpl. exists None, (grid self), rng1. split; [by destruct self|done].
  - rewrite bool_decide_eq_false_2 by done.
    destruct (random_randint 0 (Z.of_nat (length empty) - 1) rng1) as [idx rng2] eqn:Hrand.
    assert (Hidx : 0 ≤ idx < Z.of_nat (length empty)).
    { unfold random_randint in Hrand. injection Hrand as <- _.
      assert (0 < Z.of_nat (length empty)) by (destruct empty; simpl; [done|lia]).
      pose proof (Z.mod_pos_bound
                    (Z.of_nat (randint_draws rng1 (randint_pos rng1)))
                    (Z.of_nat (length empty) - 1 - 0 + 1)). lia. }
    simpl. rewrite py_getitem_nonneg by done.
    destruct (lookup_lt_is_Some_2 empty (Z.to_nat idx)) as [[c r] Hpos]; [lia|].
    rewrite Hpos. simpl.
    destruct (proj1 (Forall_lookup _ _) Hon _ _ Hpos) as [Hc Hr]. simpl in Hc, Hr.
    destruct (grid_set_square _ (grid self) c r new_tile Hwf Hc Hr)
      as (g' & Hset & Hg' & _).
    rewrite Hset. simpl. by exists (Some (c, r)), g', rng2.
Qed.

Lemma initial_spawn_total (self : Game) (rng : Rng) :
  well_formed self →
  ∃ g locs rng',
    initial_spawn self rng
      = Some (with_latest_spawn_locations (with_init_mode (with_grid self g) false) locs,
              rng')
    ∧ Grid.square (Z.to_nat (grid_size (config self))) g
    ∧ length locs = Z.to_nat (starting_tile_count (config self)).
Proof.
  intros Hwf. unfold initial_spawn.
  pose (Q (k : nat) (acc : list location * Game * Rng) :=
    ∃ g, acc.1.2 = with_grid self g
         ∧ Grid.square (Z.to_nat (grid_size (config self))) g
         ∧ length acc.1.1 = k).
  destruct (for_each_range_inv Q
              (λ _i '(spawn_locations, self0, rng0),
                 '(pos, self1, rng1) ← _spawn_new_tile self0 rng0;
                 Some (spawn_locations ++ [location_of pos], self1, rng1))
              (starting_tile_count (config self)) ([], self, rng))
    as ([[locs s'] rng'] & Hrun & (g & Hs' & Hg & Hlen)).
  - exists (grid self). split; [by destruct self|done].
  - intros k [[locs s0] rng0] Hk (g & Hs0 & Hg & Hlen). simpl in Hs0, Hlen. subst s0.
    destruct (spawn_new_tile_total (with_grid self g) rng0) as (pos & g' & rng1 & Hsp & Hg');
      [done|].
    rewrite Hsp. simpl. eexists. split; [done|].
    exists g'. split; [done|]. split; [exact Hg'|]. simpl. rewrite length_app. simpl. lia.
  - rewrite Hrun. simpl in *. subst s'. by exists g, locs, rng'.
Qed.

(** The constructor returns on every configuration, with a board of the
    configured size. *)
Lemma game_init_returns (cfg : GameConfig) (rng : Rng) :
  ∃ game rng',
    Game_init cfg rng = Some (game, rng') ∧ config game = cfg ∧ well_formed game.
Proof.
  unfold Game_init.
  edestruct initial_spawn_total as (g & locs & rng' & Hrun & Hg & _);
    [|rewrite Hrun].
  { apply build_grid_square. }
  simpl in *. by do 2 eexists.
Qed.

(** C7 (as amended): the constructor validates nothing. For every
    configuration, whatever its grid_size, counts and mutation_probability
    (inside [0,1] or not), Game(config) returns a game: it keeps the
    configuration as given, has left init mode, has score 0, an all-zero
    movement matrix and a board of max(grid_size, 0) rows and columns, and
    records one entry per requested starting tile. *)
Theorem game_init_total (cfg : GameConfig) (rng : Rng) :
  ∃ game rng',
    Game_init cfg rng = Some (game, rng')
    ∧ config game = cfg
    ∧ init_mode game = false
    ∧ score game = 0
    ∧ movement_matrix game
      = replicate (Z.to_nat (grid_size cfg)) (replicate (Z.to_nat (grid_size cfg)) 0)
    ∧ latest_spawn_result game = None
    ∧ well_formed game
    ∧ length (latest_spawn_locations game) = Z.to_nat (starting_tile_count cfg).
Proof.
  unfold Game_init.
  edestruct initial_spawn_total as (g & locs & rng' & Hrun & Hg & Hlen);
    [|rewrite Hrun].
  { apply build_grid_square. }
  simpl in *. do 2 eexists. split; [done|]. simpl.
  split; [done|]. split; [done|]. split; [done|]. split; [|done].
  unfold range.
  rewrite (const_fmap (λ _, 0) _ 0) by done. rewrite length_seq.
  rewrite (const_fmap _ _ (replicate (Z.to_nat (grid_size cfg)) 0)) by done.
  by rewrite length_seq.
Qed.

(** C7 as stated fails: with mutation_probability = 1.5 > 1 the constructor
    returns a game (both starting tiles mutated to 4) instead of raising. *)
Lemma game_init_accepts_probability_above_one :
  SFltb float_1_0 (mutation_probability config_probability_1_5) = true
  ∧ ∃ game rng',
      Game_init config_probability_1_5 rng_example = Some (game, rng')
      ∧ config game = config_probability_1_5
      ∧ grid_values (grid game) = [[0;0;0;4]; [0;0;0;0]; [0;0;0;4]; [0;0;0;0]].
Proof.
  split; [reflexivity|].
  destruct (Game_init config_probability_1_5 rng_example) as [[game rng']|] eqn:E;
    vm_compute in E; [|discriminate].
  injection E as <- <-. do 2 eexists. split; [reflexivity|]. by vm_compute.
Qed.

(** With the grid container as the spec describes it, grid_size = 0 is
    accepted as well: the board is empty and both starting spawns fail. *)
Example game_init_grid_size_0 :
  (λ '(game, _), (grid game, latest_spawn_locations game))
    <$> Game_init config_grid_size_0 rng_example
  = Some ([], [LocNone; LocNone]).
Proof. reflexivity. Qed.

(** ** Save and load *)

Lemma grid_values_tiles (m : list (list Z)) :
  grid_values ((λ row : list Z, Tile_of <$> row) <$> m) = m.
Proof.
  unfold grid_values. rewrite <- list_fmap_compose.
  rewrite <- (list_fmap_id m) at 2. apply list_fmap_ext. intros _ row _. simpl.
  rewrite <- list_fmap_compose. rewrite <- (list_fmap_id row) at 2.
  by apply list_fmap_ext.
Qed.

Lemma square_tiles_of_values n (g : list (list Tile)) :
  Grid.square n g →
  Grid.square n ((λ row : list Z, Tile_of <$> row) <$> grid_values g).
Proof.
  intros [Hlen Hrows]. unfold grid_values. split.
  - by rewrite !length_fmap.
  - apply Forall_fmap, Forall_fmap. eapply Forall_impl; [exact Hrows|].
    intros row Hrow. simpl. by rewrite !length_fmap.
Qed.

Lemma for_each_preserves {A St} (P : St → Prop) (xs : list A)
    (body : A → St → option St) s s' :
  (∀ x s s', P s → body x s = Some s' → P s') →
  P s → for_each xs body s = Some s' → P s'.
Proof.
  intros Hstep. revert s. induction xs as [|x xs IH]; intros s Hs Hrun; simpl in Hrun.
  - by injection Hrun as <-.
  - destruct (body x s) as [s1|] eqn:Hb; simpl in Hrun; [|done].
    eapply IH; [|done]. by eapply Hstep.
Qed.

Lemma for_each_raises_inv {A St} (P : St → Prop) (xs : list A)
    (body : A → St → option St) x :
  (∀ y s s', P s → body y s = Some s' → P s') →
  x ∈ xs → (∀ s, P s → body x s = None) →
  ∀ s, P s → for_each xs body s = None.
Proof.
  intros Hstep Hx Hfail.
  induction xs as [|y xs IH]; intros s Hs; [by apply elem_of_nil in Hx|].
  simpl. apply elem_of_cons in Hx as [<- | Hx].
  - by rewrite Hfail.
  - destruct (body y s) as [s1|] eqn:Hb; simpl; [|done].
    apply IH; [done|]. by eapply Hstep.
Qed.

Lemma set_tiles_raises (self : Game) (new_list : list (list Tile)) c r :
  (c < Z.to_nat (grid_size (config self)))%nat →
  (r < Z.to_nat (grid_size (config self)))%nat →
  Grid.get new_list c r = None →
  set_tiles self new_list = None.
Proof.
  intros Hc Hr Hnone. unfold set_tiles.
  set (P := λ s : Game, config s = config self).
  assert (Hcell : ∀ c' r' s s',
            P s →
            (row ← new_list !! r'; tile ← row !! c';
             g ← Grid.set (grid s) c' r' tile; Some (with_grid s g)) = Some s' → P s').
  { intros c' r' s s' Hs Hrun.
    destruct (new_list !! r') as [row|]; simpl in Hrun; [|done].
    destruct (row !! c') as [tile|]; simpl in Hrun; [|done].
    destruct (Grid.set (grid s) c' r' tile) as [g|]; simpl in Hrun; [|done].
    by injection Hrun as <-. }
  apply (for_each_raises_inv P _ _ r); [| by apply elem_of_range | | done].
  - intros r' s s' Hs Hrun.
    eapply (for_each_preserves P); [|exact Hs|exact Hrun].
    intros c' s0 s1. apply Hcell.
  - intros s Hs. rewrite Hs.
    apply (for_each_raises_inv P _ _ c); [| by apply elem_of_range | | done].
    + intros c' s0 s1. apply Hcell.
    + intros s0 _. unfold Grid.get in Hnone.
      destruct (new_list !! r) as [row|]; simpl in *; [|done].
      by rewrite Hnone.
Qed.

Lemma game_init_default_example :
  fst <$> Game_init GameConfig_default rng_example = Some game_after_init.
Proof. reflexivity. Qed.

(** *** Loops that may raise *)

Lemma result_for_each_seq_inv {St} (Q : nat → St → Prop)
    (body : nat → St → result St) a m s :
  Q a s →
  (∀ k s, (a ≤ k < a + m)%nat → Q k s → ∃ s', body k s = Ok s' ∧ Q (S k) s') →
  ∃ s', for_each (seq a m) body s = Ok s' ∧ Q (a + m)%nat s'.
Proof.
  revert a s. induction m as [|m IH]; intros a s Hs Hstep; simpl.
  - exists s. by rewrite Nat.add_0_r.
  - destruct (Hstep a s) as (s1 & Hb & Hs1); [lia|done|]. rewrite Hb. simpl.
    destruct (IH (S a) s1) as (s' & Hrun & Hs'); [done| |].
    { intros k s2 Hk. apply Hstep. lia. }
    exists s'. split; [done|]. by replace (a + S m)%nat with (S a + m)%nat by lia.
Qed.

Lemma result_for_each_inv {St} (Q : nat → St → Prop)
    (body : nat → St → result St) n s :
  Q 0%nat s →
  (∀ k s, (k < n)%nat → Q k s → ∃ s', body k s = Ok s' ∧ Q (S k) s') →
  ∃ s', for_each (seq 0 n) body s = Ok s' ∧ Q n s'.
Proof.
  intros Hs Hstep.
  destruct (result_for_each_seq_inv Q body 0 n s) as (s' & Hrun & Hs'); [done| |eauto].
  intros k s0 Hk. apply Hstep. lia.
Qed.

(** A loop that keeps [P], in which the iteration [x] raises [e] and no
    iteration raises anything else, raises [e]. *)
Lemma result_for_each_raises {A St} (P : St → Prop) (e : py_error) (xs : list A)
    (body : A → St → result St) x :
  (∀ y s s', P s → body y s = Ok s' → P s') →
  (∀ y s e', P s → body y s = Raise e' → e' = e) →
  x ∈ xs → (∀ s, P s → body x s = Raise e) →
  ∀ s, P s → for_each xs body s = Raise e.
Proof.
  intros Hstep Honly Hx Hfail.
  induction xs as [|y xs IH]; intros s Hs; [by apply elem_of_nil in Hx|].
  simpl. apply elem_of_cons in Hx as [<- | Hx].
  - by rewrite Hfail.
  - destruct (body y s) as [s1|e'] eqn:Hb; simpl.
    + apply IH; [done|]. by eapply Hstep.
    + by rewrite (Honly y s e' Hs Hb).
Qed.

Lemma result_for_each_keeps {A St} (P : St → Prop) (xs : list A)
    (body : A → St → result St) s s' :
  (∀ x s s', P s → body x s = Ok s' → P s') →
  P s → for_each xs body s = Ok s' → P s'.
Proof.
  intros Hstep. revert s. induction xs as [|x xs IH]; intros s Hs Hrun; simpl in Hrun.
  - by injection Hrun as <-.
  - destruct (body x s) as [s1|] eqn:Hb; simpl in Hrun; [|done].
    eapply IH; [|done]. by eapply Hstep.
Qed.

Lemma result_for_each_only {A St} (P : St → Prop) (e : py_error) (xs : list A)
    (body : A → St → result St) :
  (∀ y s s', P s → body y s = Ok s' → P s') →
  (∀ y s e', P s → body y s = Raise e' → e' = e) →
  ∀ s e', P s → for_each xs body s = Raise e' → e' = e.
Proof.
  intros Hstep Honly. induction xs as [|y xs IH]; intros s e' Hs Hrun; [done|].
  simpl in Hrun. destruct (body y s) as [s1|e1] eqn:Hb; simpl in Hrun.
  - eapply IH; [|done]. by eapply Hstep.
  - injection Hrun as <-. by eapply Honly.
Qed.

Lemma mapM_result_Ok {A B} (f : A → result B) (g : A → B) (xs : list A) :
  (∀ x, x ∈ xs → f x = Ok (g x)) → mapM f xs = Ok (g <$> xs).
Proof.
  induction xs as [|x xs IH]; intros H; [done|].
  rewrite fmap_cons. cbn [mapM]. rewrite H by apply list_elem_of_here.
  cbn [mbind result_bind]. rewrite IH; [done|].
  intros y Hy. apply H. by apply list_elem_of_further.
Qed.

(** *** The grid and the constructor on Python values *)

Lemma range_of_integral (x : pyval) :
  integral x = true → Dyn.range_of x = Ok (seq 0 (count x)).
Proof. destruct x as [|[]| | | | | |]; try done. Qed.

Lemma range_of_not_integral (x : pyval) :
  integral x = false → Dyn.range_of x = Raise TypeError.
Proof. by destruct x. Qed.

Lemma dyn_square_cell n (g : list (list PyTile)) c r :
  Dyn.grid_square n g → (is_Some (cell g c r) ↔ (c < n ∧ r < n)%nat).
Proof.
  intros [Hlen Hrows]. unfold cell. split.
  - intros [tile Ht]. destruct (g !! r) as [row|] eqn:Hr; simpl in Ht; [|done].
    assert (length row = n) by (by eapply (proj1 (Forall_lookup _ _) Hrows)).
    apply lookup_lt_Some in Hr, Ht. lia.
  - intros [Hc Hr]. destruct (lookup_lt_is_Some_2 g r) as [row Hrow]; [lia|].
    rewrite Hrow. simpl. apply lookup_lt_is_Some_2.
    assert (length row = n) by (by eapply (proj1 (Forall_lookup _ _) Hrows)). lia.
Qed.

Lemma dyn_grid_get_cell (g : list (list PyTile)) c r :
  Dyn.grid_get g c r = or_raise IndexError (cell g c r).
Proof. done. Qed.

Lemma dyn_grid_set_square n (g : list (list PyTile)) c r tile :
  Dyn.grid_square n g → (c < n)%nat → (r < n)%nat →
  ∃ g', Dyn.grid_set g c r tile = Ok g'
        ∧ Dyn.grid_square n g'
        ∧ cell g' c r = Some tile
        ∧ ∀ c' r', (c', r') ≠ (c, r) → cell g' c' r' = cell g c' r'.
Proof.
  intros Hsq Hc Hr. unfold Dyn.grid_set.
  destruct (lookup_lt_is_Some_2 g r) as [row Hrow]; [destruct Hsq; lia|].
  assert (Hlen : length row = n)
    by (destruct Hsq as [_ Hrows]; by eapply (proj1 (Forall_lookup _ _) Hrows)).
  destruct (lookup_lt_is_Some_2 row c) as [old Hold]; [lia|].
  rewrite Hrow. simpl. rewrite Hold. simpl. eexists. split; [done|].
  assert (Hr' : (r < length g)%nat) by (destruct Hsq; lia).
  split; [|split].
  - destruct Hsq as [Hlg Hrows]. split; [by rewrite length_insert|].
    apply Forall_insert; [done|]. by rewrite length_insert.
  - unfold cell. rewrite list_lookup_insert_eq by done. simpl.
    apply list_lookup_insert_eq. lia.
  - intros c' r' Hne. unfold cell.
    destruct (decide (r' = r)) as [->|Hrr].
    + rewrite list_lookup_insert_eq by done. rewrite Hrow. simpl.
      apply list_lookup_insert_ne. congruence.
    + by rewrite list_lookup_insert_ne.
Qed.

Lemma dyn_square_ext n (g1 g2 : list (list PyTile)) :
  Dyn.grid_square n g1 → Dyn.grid_square n g2 →
  (∀ c r, (c < n)%nat → (r < n)%nat → cell g1 c r = cell g2 c r) →
  g1 = g2.
Proof.
  intros [Hl1 Hr1] [Hl2 Hr2] Hget. apply list_eq. intros r.
  destruct (decide (r < n)%nat) as [Hr|Hr].
  - destruct (lookup_lt_is_Some_2 g1 r) as [row1 H1]; [lia|].
    destruct (lookup_lt_is_Some_2 g2 r) as [row2 H2]; [lia|].
    rewrite H1, H2. f_equal. apply list_eq. intros c.
    pose proof (proj1 (Forall_lookup _ _) Hr1 _ _ H1) as Hlen1.
    pose proof (proj1 (Forall_lookup _ _) Hr2 _ _ H2) as Hlen2.
    simpl in Hlen1, Hlen2.
    destruct (decide (c < n)%nat) as [Hc|Hc].
    + specialize (Hget c r Hc Hr). unfold cell in Hget.
      by rewrite H1, H2 in Hget.
    + rewrite !lookup_ge_None_2 by lia. done.
  - rewrite !lookup_ge_None_2 by lia. done.
Qed.

Lemma comprehension2_integral {A} (size : pyval) (f : nat → A) :
  integral size = true →
  Dyn.comprehension2 size f
  = Ok ((λ _ : nat, f <$> seq 0 (count size)) <$> seq 0 (count size)).
Proof.
  intros Hint. unfold Dyn.comprehension2, Dyn.comprehension.
  rewrite range_of_integral by done. cbn [mbind result_bind].
  by apply mapM_result_Ok.
Qed.

Lemma build_grid_dyn_square (v size : pyval) :
  integral size = true →
  ∃ g, Dyn.build_grid_with_value v size = Ok g ∧ Dyn.grid_square (count size) g.
Proof.
  intros Hint. unfold Dyn.build_grid_with_value.
  rewrite comprehension2_integral by done. eexists. split; [done|]. split.
  - by rewrite length_fmap, length_seq.
  - apply Forall_fmap, Forall_forall. intros _j _. simpl.
    by rewrite length_fmap, length_seq.
Qed.

Lemma dyn_get_empty_tiles_on_board (self : PyGame) :
  integral (p_grid_size (p_config self)) = true →
  Dyn.grid_square (count (p_grid_size (p_config self))) (p_grid self) →
  ∃ empty_tiles,
    Dyn.get_empty_tiles self = Ok empty_tiles
    ∧ Forall (λ pos : nat * nat,
                (pos.1 < count (p_grid_size (p_config self)))%nat
                ∧ (pos.2 < count (p_grid_size (p_config self)))%nat) empty_tiles.
Proof.
  intros Hint Hsq. unfold Dyn.get_empty_tiles.
  rewrite range_of_integral by done. cbn [mbind result_bind].
  set (n := count (p_grid_size (p_config self))) in *.
  set (P := Forall (λ pos : nat * nat, (pos.1 < n)%nat ∧ (pos.2 < n)%nat)).
  apply (result_for_each_inv (λ _ acc, P acc)); [by apply Forall_nil_2|].
  intros r acc Hr Hacc. cbn [mbind result_bind].
  apply (result_for_each_inv (λ _ acc, P acc)); [done|].
  intros c acc' Hc Hacc'.
  destruct (proj2 (dyn_square_cell _ _ c r Hsq)) as [tile Ht]; [done|].
  rewrite dyn_grid_get_cell, Ht. simpl. eexists. split; [done|].
  destruct (Dyn.eq_zero (p_value tile)); [|done].
  apply Forall_app_2; [done|]. apply Forall_cons_2; [done|apply Forall_nil_2].
Qed.

(** The value of a new tile needs two numbers; without them it is a
    TypeError, whatever the state of the game and of the generators. *)
Lemma dyn_new_tile_value (self : PyGame) (rng : Rng) :
  if numeric (p_mutation_probability (p_config self))
     && numeric (p_root_tile_value (p_config self))
  then ∃ v rng', Dyn._get_new_tile_value self rng = Ok (v, rng')
  else Dyn._get_new_tile_value self rng = Raise TypeError.
Proof.
  unfold Dyn._get_new_tile_value, np_random_rand.
  destruct (p_mutation_probability (p_config self));
    destruct (p_root_tile_value (p_config self));
    cbn [numeric andb Dyn.float_lt Dyn.square_of mbind result_bind]; try done;
    repeat case_match; eauto.
Qed.

Lemma dyn_spawn_new_tile_spec (self : PyGame) (rng : Rng) :
  integral (p_grid_size (p_config self)) = true →
  Dyn.grid_square (count (p_grid_size (p_config self))) (p_grid self) →
  if numeric (p_mutation_probability (p_config self))
     && numeric (p_root_tile_value (p_config self))
  then ∃ pos g rng',
         Dyn._spawn_new_tile self rng = Ok (pos, Dyn.with_grid self g, rng')
         ∧ Dyn.grid_square (count (p_grid_size (p_config self))) g
  else Dyn._spawn_new_tile self rng = Raise TypeError.
Proof.
  intros Hint Hsq. unfold Dyn._spawn_new_tile, Dyn._get_new_tile.
  pose proof (dyn_new_tile_value self rng) as Hval.
  destruct (numeric _ && numeric _); [|by rewrite Hval].
  destruct Hval as (v & rng1 & ->). cbn [mbind result_bind].
  unfold Dyn._get_random_empty_tile.
  destruct (dyn_get_empty_tiles_on_board self Hint Hsq) as (empty & -> & Hon).
  cbn [mbind result_bind].
  destruct empty as [|e0 empty'] eqn:Hempty.
  - simpl. exists None, (p_grid self), rng1. split; [by destruct self|done].
  - rewrite <- Hempty in *. replace (length empty =? 0)%nat with false
      by (by rewrite Hempty).
    cbn [negb].
    destruct (random_randint 0 (Z.of_nat (length empty) - 1) rng1) as [idx rng2] eqn:Hdraw.
    assert (Hidx : 0 ≤ idx < Z.of_nat (length empty)).
    { unfold random_randint in Hdraw. injection Hdraw as <- _.
      assert (0 < Z.of_nat (length empty)) by (rewrite Hempty; simpl; lia).
      pose proof (Z.mod_pos_bound
                    (Z.of_nat (randint_draws rng1 (randint_pos rng1)))
                    (Z.of_nat (length empty) - 1 - 0 + 1)). lia. }
    rewrite py_getitem_nonneg by done.
    destruct (lookup_lt_is_Some_2 empty (Z.to_nat idx)) as [[c r] Hpos]; [lia|].
    rewrite Hpos. cbn [or_raise mbind result_bind].
    destruct (proj1 (Forall_lookup _ _) Hon _ _ Hpos) as [Hc Hr]. simpl in Hc, Hr.
    destruct (dyn_grid_set_square _ (p_grid self) c r (PyTile_of v) Hsq Hc Hr)
      as (g' & Hset & Hg' & _).
    rewrite Hset. cbn [mbind result_bind]. by exists (Some (c, r)), g', rng2.
Qed.

Lemma dyn_initial_spawn_spec (self : PyGame) (rng : Rng) :
  integral (p_grid_size (p_config self)) = true →
  integral (p_starting_tile_count (p_config self)) = true →
  Dyn.grid_square (count (p_grid_size (p_config self))) (p_grid self) →
  if Nat.eqb (count (p_starting_tile_count (p_config self))) 0
     || numeric (p_mutation_probability (p_config self))
        && numeric (p_root_tile_value (p_config self))
  then ∃ game rng',
         Dyn.initial_spawn self rng = Ok (game, rng')
         ∧ p_config game = p_config self
         ∧ p_init_mode game = false
         ∧ Dyn.grid_square (count (p_grid_size (p_config self))) (p_grid game)
  else Dyn.initial_spawn self rng = Raise TypeError.
Proof.
  intros Hint Hstart Hsq. unfold Dyn.initial_spawn.
  rewrite range_of_integral by done. cbn [mbind result_bind].
  set (n := count (p_grid_size (p_config self))) in *.
  set (k := count (p_starting_tile_count (p_config self))).
  set (ok := numeric (p_mutation_probability (p_config self))
             && numeric (p_root_tile_value (p_config self))).
  destruct ok eqn:Hok.
  - rewrite orb_true_r.
    pose (Q (_ : nat) (acc : list pyval * PyGame * Rng) :=
      ∃ g, acc.1.2 = Dyn.with_grid self g ∧ Dyn.grid_square n g).
    destruct (result_for_each_inv Q
                (λ _i '(spawn_locations, self0, rng0),
                   '(pos, self1, rng1) ← Dyn._spawn_new_tile self0 rng0;
                   Ok (spawn_locations ++ [py_location (location_of pos)], self1, rng1))
                k ([], self, rng))
      as ([[locs s'] rng'] & Hrun & (g & Hs' & Hg)).
    + exists (p_grid self). split; [by destruct self|done].
    + intros i [[locs s0] rng0] Hi (g & Hs0 & Hg). simpl in Hs0. subst s0.
      pose proof (dyn_spawn_new_tile_spec (Dyn.with_grid self g) rng0 Hint Hg) as Hsp.
      cbn [p_config Dyn.with_grid] in Hsp. fold ok in Hsp. rewrite Hok in Hsp.
      destruct Hsp as (pos & g' & rng1 & Hsp & Hg').
      rewrite Hsp. cbn [mbind result_bind]. eexists. split; [done|].
      by exists g'.
    + rewrite Hrun. cbn [mbind result_bind]. simpl in Hs'. subst s'.
      do 2 eexists. split; [done|]. split; [done|]. split; [done|exact Hg].
  - rewrite orb_false_r. destruct k as [|k'] eqn:Hk; simpl.
    + do 2 eexists. split; [done|]. split; [done|]. split; [done|exact Hsq].
    + pose proof (dyn_spawn_new_tile_spec self rng Hint Hsq) as Hsp.
      fold ok in Hsp. rewrite Hok in Hsp. rewrite Hsp. done.
Qed.

Lemma dyn_game_init_spec (cfg : PyConfig) (rng : Rng) :
  if constructible cfg
  then ∃ game rng',
         Dyn.Game_init cfg rng = Ok (game, rng')
         ∧ p_config game = cfg
         ∧ p_init_mode game = false
         ∧ Dyn.grid_square (count (p_grid_size cfg)) (p_grid game)
  else Dyn.Game_init cfg rng = Raise TypeError.
Proof.
  unfold constructible, Dyn.Game_init.
  destruct (integral (p_grid_size cfg)) eqn:Hint.
  2:{ simpl. unfold Dyn.build_grid_with_value, Dyn.comprehension2.
      by rewrite range_of_not_integral. }
  destruct (build_grid_dyn_square (PInt 0) (p_grid_size cfg) Hint) as (g & -> & Hg).
  cbn [mbind result_bind]. rewrite comprehension2_integral by done.
  cbn [mbind result_bind].
  destruct (integral (p_starting_tile_count cfg)) eqn:Hstart.
  2:{ simpl. unfold Dyn.initial_spawn. simpl. by rewrite range_of_not_integral. }
  cbn [andb].
  match goal with
  | |- context [Dyn.initial_spawn ?s rng] =>
      pose proof (dyn_initial_spawn_spec s rng Hint Hstart Hg) as Hsp
  end.
  cbn [p_config] in Hsp. destruct (_ || _); [|done].
  destruct Hsp as (game & rng' & -> & Hcfg & Hmode & Hsq). by exists game, rng'.
Qed.

(** *** set_tiles on Python values *)

Lemma dyn_set_tiles_spec (self : PyGame) (new_list : list (list PyTile)) :
  let n := count (p_grid_size (p_config self)) in
  integral (p_grid_size (p_config self)) = true →
  Dyn.grid_square n (p_grid self) →
  (∀ c r, (c < n)%nat → (r < n)%nat → is_Some (cell new_list c r)) →
  ∃ g, Dyn.set_tiles self new_list = Ok (Dyn.with_grid self g)
       ∧ Dyn.grid_square n g
       ∧ ∀ c r, (c < n)%nat → (r < n)%nat → cell g c r = cell new_list c r.
Proof.
  intros n Hint Hsq Hcover.
  pose (Qrow (r : nat) (c : nat) (s : PyGame) :=
    ∃ g, s = Dyn.with_grid self g ∧ Dyn.grid_square n g
         ∧ (∀ c' r', (c' < n)%nat → (r' < r)%nat → cell g c' r' = cell new_list c' r')
         ∧ (∀ c', (c' < c)%nat → cell g c' r = cell new_list c' r)).
  assert (Hloop : ∃ s', Dyn.set_tiles self new_list = Ok s' ∧ Qrow n 0%nat s').
  { unfold Dyn.set_tiles. rewrite range_of_integral by done. cbn [mbind result_bind].
    apply (result_for_each_inv (λ r s, Qrow r 0%nat s)).
    - exists (p_grid self). split; [by destruct self|]. split; [done|]. split; intros; lia.
    - intros r s Hr Hs.
      assert (Hcfg : p_config s = p_config self) by (by destruct Hs as (g & -> & _)).
      rewrite Hcfg, range_of_integral by done. cbn [mbind result_bind].
      assert (Hinner : ∃ s1,
        for_each (seq 0 n)
          (λ c self1,
             row ← or_raise IndexError (new_list !! r);
             tile ← or_raise IndexError (row !! c);
             g ← Dyn.grid_set (p_grid self1) c r tile;
             Ok (Dyn.with_grid self1 g)) s = Ok s1 ∧ Qrow r n s1).
      { apply (result_for_each_inv (λ c s, Qrow r c s)); [done|].
        intros c s0 Hc (g & -> & Hg & Hdone & Hrow).
        destruct (Hcover c r) as [tile Htile]; [done|done|].
        unfold cell in Htile.
        destruct (new_list !! r) as [row|] eqn:Hnr; simpl in Htile; [|done].
        cbn [or_raise mbind result_bind]. rewrite Htile.
        cbn [or_raise mbind result_bind].
        destruct (dyn_grid_set_square n g c r tile Hg Hc Hr)
          as (g' & Hset & Hg' & Hnew & Hothers).
        cbn [p_grid Dyn.with_grid]. rewrite Hset. cbn [mbind result_bind].
        eexists. split; [done|]. exists g'. split; [done|]. split; [done|]. split.
        - intros c' r' Hc' Hr'. rewrite Hothers by (intros [= -> ->]; lia).
          by apply Hdone.
        - intros c' Hc'. destruct (decide (c' = c)) as [->|Hne].
          + rewrite Hnew. unfold cell. by rewrite Hnr.
          + rewrite Hothers by (intros [= ->]; done). apply Hrow. lia. }
      destruct Hinner as (s1 & Hrun & (g & -> & Hg & Hdone & Hrow)).
      exists (Dyn.with_grid self g). split; [done|]. exists g.
      split; [done|]. split; [done|]. split; [|intros; lia].
      intros c' r' Hc' Hr'. destruct (decide (r' = r)) as [->|Hne].
      + by apply Hrow.
      + apply Hdone; [done|lia]. }
  destruct Hloop as (s' & Hrun & (g & -> & Hg & Hdone & _)).
  exists g. split; [done|]. split; [done|]. intros c r Hc Hr. by apply Hdone.
Qed.

Lemma dyn_set_tiles_square (self : PyGame) (new_list : list (list PyTile)) :
  let n := count (p_grid_size (p_config self)) in
  integral (p_grid_size (p_config self)) = true →
  Dyn.grid_square n (p_grid self) → Dyn.grid_square n new_list →
  Dyn.set_tiles self new_list = Ok (Dyn.with_grid self new_list).
Proof.
  intros n Hint Hsq Hnew.
  destruct (dyn_set_tiles_spec self new_list) as (g & Hrun & Hg & Hget); [done|done| |].
  { intros c r Hc Hr. by apply (dyn_square_cell n). }
  rewrite Hrun. do 2 f_equal. by apply (dyn_square_ext n).
Qed.

Lemma dyn_set_tiles_raises (self : PyGame) (new_list : list (list PyTile)) c r :
  integral (p_grid_size (p_config self)) = true →
  (c < count (p_grid_size (p_config self)))%nat →
  (r < count (p_grid_size (p_config self)))%nat →
  cell new_list c r = None →
  Dyn.set_tiles self new_list = Raise IndexError.
Proof.
  intros Hint Hc Hr Hnone. unfold Dyn.set_tiles.
  rewrite range_of_integral by done. cbn [mbind result_bind].
  set (n := count (p_grid_size (p_config self))) in *.
  set (P := λ s : PyGame, p_config s = p_config self).
  set (body := λ (r' c' : nat) (self1 : PyGame),
         row ← or_raise IndexError (new_list !! r');
         tile ← or_raise IndexError (row !! c');
         g ← Dyn.grid_set (p_grid self1) c' r' tile;
         Ok (Dyn.with_grid self1 g)).
  assert (Hkeep : ∀ r' c' s s', P s → body r' c' s = Ok s' → P s').
  { intros r' c' s s' Hs Hrun. unfold body in Hrun.
    destruct (new_list !! r') as [row|]; simpl in Hrun; [|done].
    destruct (row !! c') as [tile|]; simpl in Hrun; [|done].
    destruct (Dyn.grid_set (p_grid s) c' r' tile) as [g|]; simpl in Hrun; [|done].
    by injection Hrun as <-. }
  assert (Honly : ∀ r' c' s e, body r' c' s = Raise e → e = IndexError).
  { intros r' c' s e Hrun. unfold body in Hrun.
    destruct (new_list !! r') as [row|]; simpl in Hrun; [|by injection Hrun].
    destruct (row !! c') as [tile|]; simpl in Hrun; [|by injection Hrun].
    unfold Dyn.grid_set in Hrun.
    destruct (p_grid s !! r') as [grow|]; simpl in Hrun; [|by injection Hrun].
    destruct (grow !! c'); simpl in Hrun; [done|by injection Hrun]. }
  assert (Hrowkeep : ∀ r' s s', P s →
            (cols ← Dyn.range_of (p_grid_size (p_config s));
             for_each cols (body r') s) = Ok s' → P s').
  { intros r' s s' Hs. rewrite Hs, range_of_integral by done. cbn [mbind result_bind].
    apply (result_for_each_keeps P); [|done]. intros c'. apply Hkeep. }
  assert (Hrowonly : ∀ r' s e, P s →
            (cols ← Dyn.range_of (p_grid_size (p_config s));
             for_each cols (body r') s) = Raise e → e = IndexError).
  { intros r' s e Hs. rewrite Hs, range_of_integral by done. cbn [mbind result_bind].
    intros Hrun.
    apply (result_for_each_only P IndexError (seq 0 n) (body r')
             (λ c', Hkeep r' c') (λ c' s0 e' _, Honly r' c' s0 e') s e Hs Hrun). }
  apply (result_for_each_raises P IndexError _ _ r);
    [exact Hrowkeep|exact Hrowonly|apply elem_of_seq; lia| |done].
  intros s Hs. rewrite Hs, range_of_integral by done. cbn [mbind result_bind].
  apply (result_for_each_raises P IndexError _ _ c);
    [intros c'; apply Hkeep|intros c' s0 e' _; apply Honly|apply elem_of_seq; lia| |done].
  intros s0 _. unfold body. unfold cell in Hnone.
  destruct (new_list !! r) as [row|]; simpl in *; [|done].
  by rewrite Hnone.
Qed.

(** Two games with the same configuration and boards of its size: set_tiles
    raises on both or leaves both with the same grid. *)
Lemma dyn_set_tiles_agree (s1 s2 : PyGame) (new_list : list (list PyTile)) :
  p_config s1 = p_config s2 →
  integral (p_grid_size (p_config s1)) = true →
  Dyn.grid_square (count (p_grid_size (p_config s1))) (p_grid s1) →
  Dyn.grid_square (count (p_grid_size (p_config s1))) (p_grid s2) →
  (Dyn.set_tiles s1 new_list = Raise IndexError
   ∧ Dyn.set_tiles s2 new_list = Raise IndexError)
  ∨ ∃ g, Dyn.set_tiles s1 new_list = Ok (Dyn.with_grid s1 g)
         ∧ Dyn.set_tiles s2 new_list = Ok (Dyn.with_grid s2 g).
Proof.
  intros Hcfg Hint Hsq1 Hsq2. set (n := count (p_grid_size (p_config s1))) in *.
  destruct (decide (Forall (λ r, Forall (λ c, is_Some (cell new_list c r)) (seq 0 n))
                      (seq 0 n))) as [Hcover|Hmiss].
  - right.
    assert (Hall : ∀ c r, (c < n)%nat → (r < n)%nat → is_Some (cell new_list c r)).
    { intros c r Hc Hr.
      assert (Hrow : Forall (λ c, is_Some (cell new_list c r)) (seq 0 n)).
      { apply (proj1 (Forall_forall _ _) Hcover r), elem_of_seq. lia. }
      apply (proj1 (Forall_forall _ _) Hrow c), elem_of_seq. lia. }
    destruct (dyn_set_tiles_spec s1 new_list Hint Hsq1 Hall) as (g1 & Hrun1 & Hg1 & Hget1).
    destruct (dyn_set_tiles_spec s2 new_list) as (g2 & Hrun2 & Hg2 & Hget2);
      [by rewrite <- Hcfg|by rewrite <- Hcfg|by rewrite <- Hcfg|].
    rewrite <- Hcfg in Hg2, Hget2. fold n in Hg1, Hget1, Hg2, Hget2.
    assert (g1 = g2) as <-.
    { apply (dyn_square_ext n); [done|done|]. intros c r Hc Hr.
      by rewrite Hget1, Hget2. }
    by exists g1.
  - left. apply not_Forall_Exists in Hmiss; [|apply _].
    apply Exists_exists in Hmiss as (r & Hr & Hrow).
    apply not_Forall_Exists in Hrow; [|apply _].
    apply Exists_exists in Hrow as (c & Hc & Hnone).
    apply elem_of_seq in Hr, Hc.
    assert (Hget : cell new_list c r = None).
    { destruct (cell new_list c r) eqn:E; [|done]. exfalso. apply Hnone. by eexists. }
    split; apply (dyn_set_tiles_raises _ new_list c r);
      rewrite <- ?Hcfg; (done || (fold n; lia)).
Qed.

(** *** load *)

Lemma config_roundtrip (c : GameConfig) :
  GameConfig_of_kwargs (config_dict c) = Ok (py_config c).
Proof. by destruct c. Qed.

Lemma constructible_py_config (c : GameConfig) : constructible (py_config c) = true.
Proof. unfold constructible. simpl. by rewrite orb_true_r. Qed.

Lemma to_dict_persisted (self : Game) :
  to_dict self =
  persisted (config_dict (config self)) (grid_values (grid self)) (score self)
    (movement_matrix self) (latest_spawn_result self) (latest_spawn_locations self).
Proof. done. Qed.

Lemma of_json_ints (row : list Z) : of_json <$> (JInt <$> row) = PInt <$> row.
Proof. rewrite <- list_fmap_compose. by apply list_fmap_ext. Qed.

Lemma of_json_matrix (m : list (list Z)) : of_json (matrix_json m) = py_matrix m.
Proof.
  unfold matrix_json, py_matrix. cbn [of_json]. f_equal.
  rewrite <- list_fmap_compose. apply list_fmap_ext. intros _ row _. simpl.
  f_equal. apply of_json_ints.
Qed.

Lemma of_json_location (l : location) :
  of_json (location_json l) = py_location (loaded_location l).
Proof.
  destruct l as [|c r|xs]; [done|done|]. simpl. f_equal. apply of_json_ints.
Qed.

Lemma of_json_locations (locs : list location) :
  of_json (JArr (location_json <$> locs))
  = PList (py_location <$> (loaded_location <$> locs)).
Proof.
  cbn [of_json]. f_equal. rewrite <- !list_fmap_compose.
  apply list_fmap_ext. intros _ l _. apply of_json_location.
Qed.

Lemma location_json_loaded (l : location) :
  location_json (loaded_location l) = location_json l.
Proof. by destruct l. Qed.

(** The tiles [load] builds from the grid that to_dict writes. *)
Lemma tiles_of_matrix (m : list (list Z)) :
  (rows ← iterate (matrix_json m); mapM tiles_of_row rows)
  = Ok ((λ row : list Tile, py_tile <$> row) <$> ((λ row : list Z, Tile_of <$> row) <$> m)).
Proof.
  unfold matrix_json. cbn [iterate mbind result_bind].
  rewrite (mapM_result_Ok tiles_of_row
             (λ j, match j with
                   | JArr items => (λ value, PyTile_of (of_json value)) <$> items
                   | _ => []
                   end)).
  - f_equal. rewrite <- !list_fmap_compose. apply list_fmap_ext. intros _ row _. simpl.
    rewrite <- !list_fmap_compose. by apply list_fmap_ext.
  - intros j Hj. apply list_elem_of_fmap in Hj as (row & -> & _). done.
Qed.

Lemma tiles_square_dyn n (g : list (list Tile)) :
  Grid.square n g →
  Dyn.grid_square n
    ((λ row : list Tile, py_tile <$> row)
       <$> ((λ row : list Z, Tile_of <$> row) <$> grid_values g)).
Proof.
  intros [Hlen Hrows]. unfold grid_values. split.
  - by rewrite !length_fmap.
  - apply Forall_fmap, Forall_fmap, Forall_fmap. eapply Forall_impl; [exact Hrows|].
    intros row Hrow. simpl. by rewrite !length_fmap.
Qed.

Section LoadFacts.

Context {text : Type}.
Variable json_loads : text → option json.

(** [load] on a document with the six keys, in any order, and a
    configuration record without unknown keys: what is left is the
    constructor, the tiles and [set_tiles]. *)
Lemma load_steps s doc kwargs cfg grid_j score_j movement_j result_j locations_j rng :
  json_loads s = Some (JObj doc) →
  dict_get "config" doc = Some kwargs →
  GameConfig_of_kwargs kwargs = Ok cfg →
  dict_get "grid" doc = Some grid_j →
  dict_get "score" doc = Some score_j →
  dict_get "movement_matrix" doc = Some movement_j →
  dict_get "latest_spawn_result" doc = Some result_j →
  dict_get "latest_spawn_locations" doc = Some locations_j →
  load json_loads s rng =
  ('(game, _) ← Dyn.Game_init cfg rng;
   new_list ← (rows ← iterate grid_j; mapM tiles_of_row rows);
   game ← Dyn.set_tiles game new_list;
   Ok {| p_config := p_config game; p_init_mode := p_init_mode game;
         p_grid := p_grid game;
         p_score := of_json score_j;
         p_movement_matrix := of_json movement_j;
         p_latest_spawn_result := of_json result_j;
         p_latest_spawn_locations := of_json locations_j |}).
Proof.
  intros Hloads Hconfig Hcfg Hgrid Hscore Hmovement Hresult Hlocations.
  unfold load, subscript. rewrite Hloads. cbn [or_raise mbind result_bind].
  rewrite Hconfig. cbn [or_raise mbind result_bind]. rewrite Hcfg.
  cbn [mbind result_bind].
  destruct (Dyn.Game_init cfg rng) as [[game rng']|]; cbn [mbind result_bind]; [|done].
  rewrite Hgrid. cbn [or_raise mbind result_bind].
  destruct (iterate grid_j) as [rows|]; cbn [mbind result_bind]; [|done].
  destruct (mapM tiles_of_row rows) as [new_list|]; cbn [mbind result_bind]; [|done].
  destruct (Dyn.set_tiles game new_list) as [game'|]; cbn [mbind result_bind]; [|done].
  rewrite Hscore, Hmovement, Hresult, Hlocations. done.
Qed.

End LoadFacts.

(** The embedding of typed games into Python objects loses nothing. *)
Lemma py_game_inj (a b : Game) : py_game a = py_game b → a = b.
Proof.
  assert (Htile : Inj (=) (=) py_tile).
  { intros [v m] [v' m'] H. by injection H as -> ->. }
  assert (Hint : Inj (=) (=) PInt) by (intros x y H; by injection H).
  assert (Hrow : Inj (=) (=) (λ row : list Z, PList (PInt <$> row))).
  { intros x y H. injection H as H. by apply (inj (fmap PInt)) in H. }
  assert (Hloc : Inj (=) (=) py_location).
  { intros [|c r|xs] [|c' r'|xs'] H; try done.
    - by injection H as -> ->.
    - injection H as H. apply (inj (fmap PInt)) in H. by subst. }
  intros H.
  assert (Hc := f_equal p_config H). assert (Hi := f_equal p_init_mode H).
  assert (Hg := f_equal p_grid H). assert (Hs := f_equal p_score H).
  assert (Hm := f_equal p_movement_matrix H).
  assert (Hr := f_equal p_latest_spawn_result H).
  assert (Hl := f_equal p_latest_spawn_locations H). clear H.
  destruct a as [ca ia ga sa ma ra la], b as [cb ib gb sb mb rb lb].
  cbn [py_game p_config p_init_mode p_grid p_score p_movement_matrix
       p_latest_spawn_result p_latest_spawn_locations config init_mode grid score
       movement_matrix latest_spawn_result latest_spawn_locations] in *.
  apply (inj (fmap (fmap py_tile))) in Hg.
  injection Hs as ->. injection Hm as Hm. apply (inj (fmap _)) in Hm.
  injection Hl as Hl. apply (inj (fmap py_location)) in Hl.
  assert (ca = cb) as ->.
  { destruct ca, cb. unfold py_config in Hc. cbn in Hc. by injection Hc as -> -> -> -> -> -> -> ->. }
  assert (ra = rb) as -> by (by destruct ra as [[]|], rb as [[]|]).
  by subst.
Qed.

(** C6 (as amended): for every well-formed game, loading its serialization
    succeeds, serializing the loaded game gives the same text again, and the
    loaded game has the saved configuration, grid values, score, movement
    matrix and latest_spawn_result; its latest_spawn_locations hold the same
    coordinates, each (column, row) tuple having become a two-element list.
    The [json] module enters through its contract on the documents to_dict
    builds: loads (dumps d) = d. *)
Theorem save_load_roundtrip {text : Type}
    (json_dumps : json → text) (json_loads : text → option json)
    (self : Game) (rng : Rng) :
  (∀ g, json_loads (json_dumps (to_dict g)) = Some (to_dict g)) →
  well_formed self →
  ∃ loaded,
    load json_loads (to_json json_dumps self) rng = Ok (py_game loaded)
    ∧ to_json json_dumps loaded = to_json json_dumps self
    ∧ config loaded = config self
    ∧ grid_values (grid loaded) = grid_values (grid self)
    ∧ score loaded = score self
    ∧ movement_matrix loaded = movement_matrix self
    ∧ latest_spawn_result loaded = latest_spawn_result self
    ∧ latest_spawn_locations loaded = loaded_location <$> latest_spawn_locations self.
Proof.
  intros Hjson Hwf.
  exists {| config := config self; init_mode := false;
            grid := (λ row : list Z, Tile_of <$> row) <$> grid_values (grid self);
            score := score self; movement_matrix := movement_matrix self;
            latest_spawn_result := latest_spawn_result self;
            latest_spawn_locations := loaded_location <$> latest_spawn_locations self |}.
  split.
  - unfold to_json.
    rewrite (load_steps json_loads _ _ (config_dict (config self)) (py_config (config self))
               (matrix_json (grid_values (grid self))) (JInt (score self))
               (matrix_json (movement_matrix self))
               (match latest_spawn_result self with None => JNull | Some b => JBool b end)
               (JArr (location_json <$> latest_spawn_locations self)) rng
               (Hjson self) eq_refl (config_roundtrip _) eq_refl eq_refl eq_refl eq_refl
               eq_refl).
    pose proof (dyn_game_init_spec (py_config (config self)) rng) as Hinit.
    rewrite constructible_py_config in Hinit.
    destruct Hinit as (g0 & rng' & -> & Hcfg & Hmode & Hsq).
    cbn [mbind result_bind]. rewrite tiles_of_matrix. cbn [mbind result_bind].
    rewrite dyn_set_tiles_square.
    + cbn [mbind result_bind]. unfold py_game.
      cbn [Dyn.with_grid p_config p_init_mode p_grid config init_mode grid score
           movement_matrix latest_spawn_result latest_spawn_locations].
      rewrite Hcfg, Hmode, of_json_matrix, of_json_locations.
      by destruct (latest_spawn_result self).
    + by rewrite Hcfg.
    + by rewrite Hcfg.
    + rewrite Hcfg. by apply tiles_square_dyn.
  - split; [|simpl; by rewrite grid_values_tiles].
    unfold to_json. f_equal. rewrite !to_dict_persisted. simpl.
    rewrite grid_values_tiles. unfold persisted. do 7 f_equal.
    rewrite <- list_fmap_compose. do 2 f_equal.
    apply list_fmap_ext. intros _ l _. simpl. apply location_json_loaded.
Qed.

Lemma save_load_roundtrip_witness :
  ∃ loaded,
    load (text:=json) Some (to_json id game_after_init) rng_example = Ok (py_game loaded)
    ∧ to_json id loaded = to_json id game_after_init
    ∧ config loaded = config game_after_init
    ∧ grid_values (grid loaded) = grid_values (grid game_after_init)
    ∧ score loaded = score game_after_init
    ∧ movement_matrix loaded = movement_matrix game_after_init
    ∧ latest_spawn_result loaded = latest_spawn_result game_after_init
    ∧ latest_spawn_locations loaded
      = loaded_location <$> latest_spawn_locations game_after_init.
Proof.
  apply (save_load_roundtrip (text:=json) id Some game_after_init rng_example).
  - reflexivity.
  - split; [reflexivity|]. simpl. repeat constructor.
Defined.

(** C6 as stated fails on the game that Game(GameConfig()) builds: the saved
    state holds the tuples (3, 0) and (3, 2) in latest_spawn_locations, the
    loaded state the lists [3, 0] and [3, 2], and a tuple is not a list. *)
Lemma load_turns_tuples_into_lists :
  well_formed game_after_init
  ∧ ∃ loaded,
      load (text:=json) Some (to_json id game_after_init) rng_example = Ok loaded
      ∧ p_latest_spawn_locations (py_game game_after_init)
        = PList [PTuple [PInt 3; PInt 0]; PTuple [PInt 3; PInt 2]]
      ∧ p_latest_spawn_locations loaded
        = PList [PList [PInt 3; PInt 0]; PList [PInt 3; PInt 2]]
      ∧ p_latest_spawn_locations loaded
        ≠ p_latest_spawn_locations (py_game game_after_init).
Proof.
  split.
  { split; [reflexivity|]. simpl. repeat constructor. }
  destruct (load (text:=json) Some (to_json id game_after_init) rng_example)
    as [loaded|e] eqn:E; vm_compute in E; [|discriminate].
  injection E as <-. eexists. split; [reflexivity|]. simpl.
  repeat split. discriminate.
Qed.

(** ** Loading malformed states *)

Lemma config_of_kwargs_as_given (members : list (string * json)) :
  forallb (λ kv : string * json, existsb (String.eqb kv.1) GameConfig_fields) members
  = true →
  ∃ cfg, GameConfig_of_kwargs (JObj members) = Ok cfg ∧ config_as_given members cfg.
Proof.
  intros Hknown. unfold GameConfig_of_kwargs. rewrite Hknown. eexists. split; [done|].
  unfold config_as_given, field_as_given, keyword. simpl.
  repeat split; by case_match.
Qed.

(** C8 (as amended): load validates nothing. On a persisted state that is a
    JSON object with the six keys (in any order, other keys ignored) and a
    configuration record without unknown keys: (1) every configuration
    field the record leaves out takes the dataclass default and every field
    it gives is stored as it comes, whatever its type; (2) the only error
    the constructor raises on such a configuration is Python's TypeError,
    when a size is no int or, a starting tile being asked for, the
    probability or the root tile value is no number; (3) otherwise, with
    new_list the tiles built from the rows of the grid, if new_list has a
    tile at every cell of the n x n board (n = grid_size), load succeeds:
    the board takes new_list[r][c] for r, c < n with whatever values these
    tiles hold, rows and cells beyond n are dropped, and score, movement
    matrix, spawn result and spawn locations are stored as they come,
    whatever their types, values or dimensions; (4) if new_list lacks a
    cell of the board, load raises IndexError out of set_tiles; (5) if the
    grid or one of its rows cannot be iterated, load raises the TypeError of
    the iteration. *)
Theorem load_validates_nothing {text : Type} (json_loads : text → option json)
    (s : text) (doc members : list (string * json))
    (grid_j score_j movement_j result_j locations_j : json) (rng : Rng) :
  json_loads s = Some (JObj doc) →
  dict_get "config" doc = Some (JObj members) →
  forallb (λ kv : string * json, existsb (String.eqb kv.1) GameConfig_fields) members
  = true →
  dict_get "grid" doc = Some grid_j →
  dict_get "score" doc = Some score_j →
  dict_get "movement_matrix" doc = Some movement_j →
  dict_get "latest_spawn_result" doc = Some result_j →
  dict_get "latest_spawn_locations" doc = Some locations_j →
  ∃ cfg,
    GameConfig_of_kwargs (JObj members) = Ok cfg
    ∧ config_as_given members cfg
    ∧ (constructible cfg = false → load json_loads s rng = Raise TypeError)
    ∧ (constructible cfg = true →
       let n := count (p_grid_size cfg) in
       (∀ new_list,
          (rows ← iterate grid_j; mapM tiles_of_row rows) = Ok new_list →
          ((∀ c r, (c < n)%nat → (r < n)%nat → is_Some (cell new_list c r)) →
           ∃ game,
             load json_loads s rng = Ok game
             ∧ p_config game = cfg
             ∧ p_init_mode game = false
             ∧ Dyn.grid_square n (p_grid game)
             ∧ (∀ c r, (c < n)%nat → (r < n)%nat →
                  cell (p_grid game) c r = cell new_list c r)
             ∧ p_score game = of_json score_j
             ∧ p_movement_matrix game = of_json movement_j
             ∧ p_latest_spawn_result game = of_json result_j
             ∧ p_latest_spawn_locations game = of_json locations_j)
          ∧ (∀ c r, (c < n)%nat → (r < n)%nat → cell new_list c r = None →
               load json_loads s rng = Raise IndexError))
       ∧ (∀ e, (rows ← iterate grid_j; mapM tiles_of_row rows) = Raise e →
            e = TypeError ∧ load json_loads s rng = Raise TypeError)).
Proof.
  intros Hloads Hconfig Hknown Hgrid Hscore Hmovement Hresult Hlocations.
  destruct (config_of_kwargs_as_given members Hknown) as (cfg & Hcfg & Hgiven).
  exists cfg. split; [done|]. split; [done|].
  rewrite (load_steps json_loads s doc (JObj members) cfg grid_j score_j movement_j
             result_j locations_j rng) by done.
  pose proof (dyn_game_init_spec cfg rng) as Hinit.
  split.
  { intros Hno. rewrite Hno in Hinit. by rewrite Hinit. }
  intros Hyes n. rewrite Hyes in Hinit.
  destruct Hinit as (g0 & rng' & -> & Hcfg0 & Hmode & Hsq).
  cbn [mbind result_bind].
  assert (Hint : integral (p_grid_size (p_config g0)) = true).
  { rewrite Hcfg0. unfold constructible in Hyes.
    by destruct (integral (p_grid_size cfg)). }
  split.
  - intros new_list ->. cbn [mbind result_bind]. split.
    + intros Hcover.
      destruct (dyn_set_tiles_spec g0 new_list) as (g & -> & Hg & Hget);
        [done|by rewrite Hcfg0|by rewrite Hcfg0|].
      cbn [mbind result_bind]. eexists. split; [done|]. simpl.
      rewrite Hcfg0 in *. split; [done|]. split; [done|]. split; [exact Hg|].
      split; [exact Hget|]. done.
    + intros c r Hc Hr Hnone.
      rewrite (dyn_set_tiles_raises g0 new_list c r); [done|done| | |done];
        by rewrite Hcfg0.
  - intros e He. rewrite He. cbn [mbind result_bind].
    assert (e = TypeError) as ->; [|done].
    assert (Hrow : ∀ row e', tiles_of_row row = Raise e' → e' = TypeError).
    { intros row e'. unfold tiles_of_row.
      destruct row; simpl; congruence. }
    destruct (iterate grid_j) as [rows|e0] eqn:Hit; cbn [mbind result_bind] in He.
    + clear Hit. revert e He.
      assert (Hall : ∀ (rows : list json) (e : py_error),
                mapM tiles_of_row rows = Raise e → e = TypeError); [|by apply Hall].
      clear rows. induction rows as [|row rows IH]; intros e He; [done|].
      cbn [mapM] in He.
      destruct (tiles_of_row row) as [tiles|e1] eqn:Ht; cbn [mbind result_bind] in He.
      * destruct (mapM tiles_of_row rows) as [rest|e2] eqn:Hm;
          cbn [mbind result_bind] in He; [done|].
        injection He as <-. by apply IH.
      * injection He as <-. by eapply Hrow.
    + injection He as <-. destruct grid_j; simpl in Hit; congruence.
Qed.

Lemma load_validates_nothing_witness :
  ∃ cfg,
    GameConfig_of_kwargs
      (JObj [("mutation_probability", JInt 1); ("grid_size", JInt 2)]%string) = Ok cfg
    ∧ config_as_given [("mutation_probability", JInt 1); ("grid_size", JInt 2)]%string cfg
    ∧ (constructible cfg = false
       → load (text:=json) Some document_mistyped rng_example = Raise TypeError)
    ∧ (constructible cfg = true →
       let n := count (p_grid_size cfg) in
       (∀ new_list,
          (rows ← iterate (JArr [JArr [JInt 2; JStr "x"]; JArr [JNull; JInt 0]]);
           mapM tiles_of_row rows) = Ok new_list →
          ((∀ c r, (c < n)%nat → (r < n)%nat → is_Some (cell new_list c r)) →
           ∃ game,
             load (text:=json) Some document_mistyped rng_example = Ok game
             ∧ p_config game = cfg
             ∧ p_init_mode game = false
             ∧ Dyn.grid_square n (p_grid game)
             ∧ (∀ c r, (c < n)%nat → (r < n)%nat →
                  cell (p_grid game) c r = cell new_list c r)
             ∧ p_score game = of_json (JFloat float_1_5)
             ∧ p_movement_matrix game = of_json (JArr [JInt 1; JInt 2])
             ∧ p_latest_spawn_result game = of_json (JStr "yes")
             ∧ p_latest_spawn_locations game = of_json (JObj [("a"%string, JInt 1)]))
          ∧ (∀ c r, (c < n)%nat → (r < n)%nat → cell new_list c r = None →
               load (text:=json) Some document_mistyped rng_example = Raise IndexError))
       ∧ (∀ e, (rows ← iterate (JArr [JArr [JInt 2; JStr "x"]; JArr [JNull; JInt 0]]);
                mapM tiles_of_row rows) = Raise e →
            e = TypeError
            ∧ load (text:=json) Some document_mistyped rng_example = Raise TypeError)).
Proof.
  apply (load_validates_nothing (text:=json) Some document_mistyped
           (match document_mistyped with JObj doc => doc | _ => [] end)
           [("mutation_probability", JInt 1); ("grid_size", JInt 2)]%string
           (JArr [JArr [JInt 2; JStr "x"]; JArr [JNull; JInt 0]])
           (JFloat float_1_5) (JArr [JInt 1; JInt 2]) (JStr "yes")
           (JObj [("a"%string, JInt 1)]) rng_example); reflexivity.
Defined.

(** C8 as stated fails: a persisted state with an empty configuration
    record, a 5x5 grid for the 4x4 board, a negative tile, a negative score
    and an empty movement matrix is loaded without an error, the
    configuration filled with the defaults and the grid cut to 4x4. *)
Lemma load_accepts_malformed_state :
  ∃ game,
    load (text:=json) Some document_malformed rng_example = Ok game
    ∧ p_config game = py_config GameConfig_default
    ∧ p_grid game
      = (λ row : list Z, (λ v, PyTile_of (PInt v)) <$> row)
          <$> [[2;0;0;0]; [0;-3;0;0]; [0;0;0;0]; [0;0;0;0]]
    ∧ p_score game = PInt (-5)
    ∧ p_movement_matrix game = PList [].
Proof.
  destruct (load (text:=json) Some document_malformed rng_example)
    as [game|e] eqn:E; vm_compute in E; [|discriminate].
  injection E as <-. eexists. split; [reflexivity|]. by vm_compute.
Qed.

(** A state whose values have other types than the fields they go to is
    loaded as well: the int 1 is the mutation probability, the float 1.5 the
    score, a flat list the movement matrix, and the str "x" and None are
    tiles. *)
Example load_accepts_mistyped_state :
  ∃ game,
    load (text:=json) Some document_mistyped rng_example = Ok game
    ∧ p_mutation_probability (p_config game) = PInt 1
    ∧ p_value <$> cell (p_grid game) 1 0 = Some (PStr "x")
    ∧ p_value <$> cell (p_grid game) 0 1 = Some PNone
    ∧ p_score game = PFloat float_1_5
    ∧ p_movement_matrix game = PList [PInt 1; PInt 2]
    ∧ p_latest_spawn_result game = PStr "yes".
Proof.
  destruct (load (text:=json) Some document_mistyped rng_example)
    as [game|e] eqn:E; vm_compute in E; [|discriminate].
  injection E as <-. eexists. split; [reflexivity|]. by vm_compute.
Qed.

(** What does fail: a state without the key "config" raises KeyError, and a
    configuration record with a key that is no field of GameConfig raises
    TypeError. *)
Lemma load_missing_config_key {text : Type} (json_loads : text → option json)
    (s : text) (members : list (string * json)) (rng : Rng) :
  json_loads s = Some (JObj members) →
  dict_get "config" members = None →
  load json_loads s rng = Raise (KeyError "config").
Proof.
  intros Hloads Hkey. unfold load. rewrite Hloads. simpl. by rewrite Hkey.
Qed.

Example config_unknown_keyword :
  GameConfig_of_kwargs (JObj [("size"%string, JInt 4)]) = Raise TypeError.
Proof. reflexivity. Qed.

(** ** Sliding a merge-free line *)

Lemma nonzeros_app a b : nonzeros (a ++ b) = nonzeros a ++ nonzeros b.
Proof.
  induction a as [|x a IH]; simpl; [done|]. destruct (x =? 0); simpl; by rewrite IH.
Qed.

Lemma nonzeros_length_le l : (length (nonzeros l) ≤ length l)%nat.
Proof. induction l as [|x l IH]; simpl; [done|]. destruct (x =? 0); simpl; lia. Qed.

Lemma nonzeros_Forall l : Forall (λ x, x ≠ 0) (nonzeros l).
Proof.
  induction l as [|x l IH]; simpl; [apply Forall_nil_2|].
  destruct (x =? 0) eqn:E; [done|]. apply Forall_cons_2; [lia|done].
Qed.

Lemma nonzeros_zeros l : Forall (λ x, x = 0) l → nonzeros l = [].
Proof. induction 1 as [|x l -> _ IH]; simpl; done. Qed.

Lemma nonzeros_id l : Forall (λ x, x ≠ 0) l → nonzeros l = l.
Proof.
  induction 1 as [|x l Hx _ IH]; simpl; [done|].
  destruct (x =? 0) eqn:E; [lia|]. by rewrite IH.
Qed.

Lemma nonzeros_reverse l : nonzeros (reverse l) = reverse (nonzeros l).
Proof.
  induction l as [|x l IH]; simpl; [done|].
  rewrite reverse_cons, nonzeros_app, IH. simpl.
  destruct (x =? 0); simpl; [by rewrite app_nil_r|by rewrite reverse_cons].
Qed.

Lemma distinct_neighbours_snoc l y x :
  distinct_neighbours (l ++ [y; x]) = distinct_neighbours (l ++ [y]) && negb (y =? x).
Proof.
  induction l as [|a l IH]; simpl.
  - by destruct (y =? x).
  - destruct l as [|b l]; simpl in *.
    + by destruct (a =? y), (y =? x).
    + rewrite IH. by rewrite andb_assoc.
Qed.

Lemma distinct_neighbours_app_l a b :
  distinct_neighbours (a ++ b) = true → distinct_neighbours a = true.
Proof.
  induction a as [|x a IH]; simpl; [done|].
  destruct a as [|y a]; simpl in *; [done|].
  intros [Hxy Hrest]%andb_true_iff. rewrite Hxy. simpl. by apply IH.
Qed.

Lemma distinct_neighbours_reverse l :
  distinct_neighbours (reverse l) = distinct_neighbours l.
Proof.
  induction l as [|x l IH]; [done|].
  destruct l as [|y l]; [done|].
  rewrite reverse_cons. rewrite reverse_cons in *.
  change (distinct_neighbours (x :: y :: l))
    with (negb (x =? y) && distinct_neighbours (y :: l)).
  rewrite <- IH, <- app_assoc. simpl. rewrite distinct_neighbours_snoc.
  rewrite andb_comm. f_equal. f_equal. apply Z.eqb_sym.
Qed.

Lemma merge_free_reverse l : merge_free (reverse l) = merge_free l.
Proof. unfold merge_free. by rewrite nonzeros_reverse, distinct_neighbours_reverse. Qed.

Lemma offsets_app k i a b :
  offsets k i (a ++ b) =
  offsets k i a
  ++ offsets (k + Z.of_nat (length (nonzeros a))) (i + Z.of_nat (length a)) b.
Proof.
  revert k i. induction a as [|x a IH]; intros k i; simpl.
  - by rewrite !Z.add_0_r.
  - destruct (x =? 0); simpl; rewrite IH; do 2 f_equal; f_equal; lia.
Qed.

Lemma offsets_length k i l : length (offsets k i l) = length l.
Proof.
  revert k i. induction l as [|x l IH]; intros k i; simpl; [done|].
  destruct (x =? 0); simpl; by rewrite IH.
Qed.

Lemma offsets_zeros k i l : Forall (λ x, x = 0) l → offsets k i l = replicate (length l) 0.
Proof.
  intros H. revert i. induction H as [|x l -> _ IH]; intros i; simpl; [done|].
  by rewrite IH.
Qed.

Lemma offsets_packed k l :
  Forall (λ x, x ≠ 0) l → offsets k k l = replicate (length l) 0.
Proof.
  intros H. revert k. induction H as [|x l Hx _ IH]; intros k; simpl; [done|].
  destruct (x =? 0) eqn:E; [lia|]. rewrite IH. f_equal. lia.
Qed.

Lemma insert_at_zeros (a : list Z) (v : Z) (m : nat) :
  <[length a := v]> (a ++ replicate (S m) 0) = (a ++ [v]) ++ replicate m 0.
Proof.
  rewrite insert_app_r_alt by lia. rewrite Nat.sub_diag. simpl.
  by rewrite <- app_assoc.
Qed.

Lemma lookup_at_zeros (a : list Z) (m : nat) :
  (a ++ replicate (S m) 0) !! length a = Some 0.
Proof. rewrite lookup_app_r by lia. by rewrite Nat.sub_diag. Qed.
Lemma snoc_cases {A} (l : list A) : l = [] ∨ ∃ l' y, l = l' ++ [y].
Proof.
  induction l as [|x l _] using rev_ind; [by left|right]. by exists l, x.
Qed.

Lemma step_scanned root pre x suf s :
  merge_free (pre ++ x :: suf) = true →
  step root (pre ++ x :: suf) (Z.of_nat (length pre))
    (scanned (length (pre ++ x :: suf)) s pre)
  = Some (scanned (length (pre ++ x :: suf)) s (pre ++ [x])).
Proof.
  intros Hfree.
  assert (Hn : length (pre ++ x :: suf) = S (length pre + length suf)).
  { rewrite length_app. simpl. lia. }
  pose proof (nonzeros_length_le pre) as Hk.
  unfold step.
  rewrite (py_getitem_nonneg (pre ++ x :: suf)) by lia.
  rewrite Nat2Z.id, list_lookup_middle by done.
  set (n := length (pre ++ x :: suf)) in *. simpl.
  assert (Hmv : ∀ v, py_setitem (offsets 0 0 pre ++ replicate (n - length pre) 0)
                       (Z.of_nat (length pre)) v
                     = Some ((offsets 0 0 pre ++ [v])
                             ++ replicate (n - length (pre ++ [x])) 0)).
  { intros v. rewrite py_setitem_nonneg.
    2:{ rewrite length_app, offsets_length, length_replicate. lia. }
    rewrite Nat2Z.id. f_equal.
    replace (n - length pre)%nat with (S (n - length (pre ++ [x])))
      by (rewrite length_app; simpl; lia).
    rewrite <- (offsets_length 0 0 pre) at 1. apply insert_at_zeros. }
  destruct (x =? 0) eqn:Ex.
  - f_equal. unfold scanned. rewrite nonzeros_app, offsets_app. simpl. rewrite Ex.
    rewrite app_nil_r. f_equal.
    replace (n - length pre)%nat with (S (n - length (pre ++ [x])))
      by (rewrite length_app; simpl; lia).
    simpl. by rewrite <- app_assoc.
  - assert (Hnz : nonzeros (pre ++ [x]) = nonzeros pre ++ [x]).
    { rewrite nonzeros_app. simpl. by rewrite Ex. }
    assert (Hoff : offsets 0 0 (pre ++ [x])
                   = offsets 0 0 pre
                     ++ [Z.of_nat (length (nonzeros pre)) - Z.of_nat (length pre)]).
    { rewrite offsets_app. simpl. by rewrite Ex. }
    unfold scanned at 1. simpl.
    destruct (snoc_cases (nonzeros pre)) as [HN | (N & y & HN)].
    + rewrite HN in *. simpl.
      replace (n - 0)%nat with (S (n - 1)) by lia.
      change (py_getitem (replicate (S (n - 1)) 0) 0) with (Some 0). simpl.
      rewrite Ex. simpl.
      change (py_setitem (0 :: replicate (n - 1) 0) 0 x)
        with (Some (x :: replicate (n - 1) 0)). simpl.
      rewrite Hmv. simpl. f_equal. unfold scanned. rewrite Hnz, Hoff. simpl.
      by replace (0 - Z.of_nat (length pre)) with (- Z.of_nat (length pre)) by lia.
    + assert (Hy : y ≠ 0).
      { pose proof (nonzeros_Forall pre) as HF. rewrite HN in HF.
        apply Forall_app in HF as [_ HF]. by apply Forall_cons_1 in HF as [? _]. }
      assert (Hxy : (x =? y) = false).
      { unfold merge_free in Hfree. rewrite nonzeros_app in Hfree. simpl in Hfree.
        rewrite Ex, HN in Hfree. rewrite <- app_assoc in Hfree. simpl in Hfree.
        change (N ++ y :: x :: nonzeros suf) with (N ++ [y; x] ++ nonzeros suf) in Hfree.
        rewrite app_assoc in Hfree. apply distinct_neighbours_app_l in Hfree.
        rewrite distinct_neighbours_snoc in Hfree.
        apply andb_true_iff in Hfree as [_ Hne]. rewrite Z.eqb_sym.
        by destruct (y =? x). }
      rewrite HN in *. rewrite length_app in *. simpl in *.
      replace (Z.max (Z.of_nat (length N + 1) - 1) 0) with (Z.of_nat (length N)) by lia.
      replace (n - (length N + 1))%nat with (S (n - (length N + 2))) by lia.
      rewrite py_getitem_nonneg.
      2:{ rewrite !length_app, length_replicate. simpl. lia. }
      rewrite Nat2Z.id, <- app_assoc. simpl.
      rewrite list_lookup_middle by done. simpl. rewrite Hxy.
      destruct (y =? 0) eqn:Ey; [lia|].
      rewrite (py_setitem_nonneg (N ++ _)).
      2:{ rewrite length_app. cbn [length]. rewrite length_replicate. lia. }
      replace (Z.to_nat (Z.of_nat (length N) + 1)) with (length (N ++ [y]))
        by (rewrite length_app; simpl; lia).
      change (N ++ y :: 0 :: replicate (n - (length N + 2)) 0)
        with (N ++ [y] ++ replicate (S (n - (length N + 2))) 0).
      rewrite app_assoc, insert_at_zeros. simpl.
      rewrite Hmv. simpl. f_equal. unfold scanned. rewrite Hnz, Hoff.
      rewrite !length_app. simpl.
      replace (length N + 1 + 1)%nat with (length N + 2)%nat by lia.
      replace (Z.of_nat (length N + 1)) with (Z.of_nat (length N) + 1) by lia.
      replace (Z.max (Z.of_nat (length N + 2) - 1) 0) with (Z.of_nat (length N) + 1)
        by lia.
      done.
Qed.
Lemma loop_scanned root s suf : ∀ pre,
  merge_free (pre ++ suf) = true →
  for_each (seqZ (Z.of_nat (length pre)) (Z.of_nat (length suf)))
    (step root (pre ++ suf)) (scanned (length (pre ++ suf)) s pre)
  = Some (scanned (length (pre ++ suf)) s (pre ++ suf)).
Proof.
  induction suf as [|x suf IH]; intros pre Hfree.
  - simpl. by rewrite app_nil_r.
  - cbn [length]. rewrite Nat2Z.inj_succ, seqZ_cons, Z.pred_succ by lia.
    cbn [for_each]. rewrite step_scanned by done. cbn [mbind option_bind].
    replace (Z.succ (Z.of_nat (length pre))) with (Z.of_nat (length (pre ++ [x])))
      by (rewrite length_app; simpl; lia).
    rewrite (cons_middle x pre suf), app_assoc in *. by apply IH.
Qed.

Lemma init_locals_scanned (l pre : list Z) s :
  Forall (λ x, x = 0) pre → (length pre ≤ length l)%nat →
  init_locals l s = scanned (length l) s pre.
Proof.
  intros Hzero Hlen. unfold init_locals, scanned.
  rewrite (nonzeros_zeros pre), (offsets_zeros 0 0 pre) by done. simpl.
  rewrite (const_fmap (λ _, 0) l 0) by done.
  rewrite Nat.sub_0_r, <- replicate_add. do 2 f_equal. lia.
Qed.

(** On a non-empty merge-free line the loop packs the tiles toward index 0,
    records where each came from and leaves the score alone. *)
Lemma slide_loop_merge_free root (l : list Z) s :
  l ≠ [] → merge_free l = true →
  slide_loop root l s = Some (scanned (length l) s l).
Proof.
  intros Hl Hfree. unfold slide_loop.
  destruct (first_non_zero_index_spec l) as (start & Hrun & _ & Hspec).
  rewrite Hrun. simpl. unfold py_range.
  destruct Hspec as [[-> Hzero] | (Hstart & Hzero & _)].
  - replace (Z.of_nat (length l) - -1) with (Z.of_nat (S (length l))) by lia.
    rewrite Nat2Z.inj_succ, seqZ_cons, Z.pred_succ by lia. cbn [for_each].
    assert (Hlast : py_getitem l (-1) = Some 0).
    { rewrite py_getitem_last by done. rewrite last_lookup.
      destruct (lookup_lt_is_Some_2 l (pred (length l))) as [x Hx].
      { destruct l; [done|simpl; lia]. }
      rewrite Hx. f_equal. by eapply (proj1 (Forall_lookup _ _) Hzero). }
    assert (Hstep : step root l (-1) (init_locals l s) = Some (init_locals l s))
      by (unfold step; by rewrite Hlast).
    rewrite Hstep. cbn [mbind option_bind]. change (Z.succ (-1)) with (Z.of_nat (length (@nil Z))).
    rewrite (init_locals_scanned l [] s); [|apply Forall_nil_2|simpl; lia].
    apply (loop_scanned root s l []). done.
  - assert (∃ pre suf, l = pre ++ suf ∧ Z.of_nat (length pre) = start
                       ∧ Forall (λ x, x = 0) pre) as (pre & suf & -> & <- & Hz).
    { exists (take (Z.to_nat start) l), (drop (Z.to_nat start) l).
      rewrite take_drop, length_take. repeat split; [lia|done]. }
    rewrite (init_locals_scanned _ pre s); [|done|rewrite length_app; lia].
    replace (Z.of_nat (length (pre ++ suf)) - Z.of_nat (length pre))
      with (Z.of_nat (length suf)) by (rewrite length_app; lia).
    by apply loop_scanned.
Qed.

Lemma scanned_whole (l : list Z) s :
  scanned (length l) s l =
  {| Slide.new_list := compact l; Slide.movement := offsets 0 0 l;
     Slide.new_index := Z.max (Z.of_nat (length (nonzeros l)) - 1) 0;
     Slide.score := s |}.
Proof. unfold scanned, compact. by rewrite Nat.sub_diag, app_nil_r. Qed.

Lemma reversed_line_nonempty (b : bool) (l : list Z) :
  l ≠ [] → (if b then reverse l else l) ≠ [].
Proof.
  intros Hl. destruct b; [|done]. intros E. apply Hl.
  by rewrite <- (reverse_involutive l), E.
Qed.

(** [_slide_helper] on a non-empty merge-free line. *)
Lemma helper_merge_free root d (l : list Z) s :
  l ≠ [] → merge_free l = true →
  run (Slide.helper root d l s) = Some (line_values d l, line_offsets d l, s).
Proof.
  intros Hl Hfree. rewrite run_helper.
  rewrite slide_loop_merge_free.
  - rewrite scanned_whole. unfold slide_result, line_values, line_offsets. simpl.
    by destruct (reversed_direction d).
  - by apply reversed_line_nonempty.
  - destruct (reversed_direction d); [by rewrite merge_free_reverse|done].
Qed.

Lemma compact_length l : length (compact l) = length l.
Proof.
  unfold compact. rewrite length_app, length_replicate.
  pose proof (nonzeros_length_le l). lia.
Qed.

Lemma nonzeros_compact l : nonzeros (compact l) = nonzeros l.
Proof.
  unfold compact. rewrite nonzeros_app.
  rewrite (nonzeros_id (nonzeros l)) by apply nonzeros_Forall.
  rewrite (nonzeros_zeros (replicate _ 0)); [by rewrite app_nil_r|].
  apply Forall_replicate. done.
Qed.

Lemma compact_idem l : compact (compact l) = compact l.
Proof. unfold compact at 1. by rewrite nonzeros_compact, compact_length. Qed.

Lemma offsets_compact l : offsets 0 0 (compact l) = replicate (length l) 0.
Proof.
  unfold compact. rewrite offsets_app.
  rewrite (nonzeros_id (nonzeros l)) by apply nonzeros_Forall.
  rewrite (offsets_packed 0) by apply nonzeros_Forall.
  rewrite offsets_zeros by (by apply Forall_replicate).
  rewrite length_replicate, <- replicate_add. f_equal.
  pose proof (nonzeros_length_le l). lia.
Qed.

Lemma line_values_length d l : length (line_values d l) = length l.
Proof.
  unfold line_values. destruct (reversed_direction d);
    by rewrite ?length_reverse, compact_length, ?length_reverse.
Qed.

Lemma line_values_idem d l : line_values d (line_values d l) = line_values d l.
Proof.
  unfold line_values. destruct (reversed_direction d).
  - by rewrite reverse_involutive, compact_idem.
  - apply compact_idem.
Qed.

Lemma line_offsets_settled d l :
  line_offsets d (line_values d l) = replicate (length l) 0.
Proof.
  unfold line_offsets, line_values. destruct (reversed_direction d).
  - rewrite reverse_involutive, offsets_compact, length_reverse.
    rewrite reverse_replicate, fmap_replicate. done.
  - apply offsets_compact.
Qed.

Lemma merge_free_line_values d l : merge_free (line_values d l) = merge_free l.
Proof.
  unfold line_values, merge_free. destruct (reversed_direction d).
  - by rewrite nonzeros_reverse, nonzeros_compact, nonzeros_reverse, reverse_involutive.
  - by rewrite nonzeros_compact.
Qed.

(** ** Transposition *)

Lemma mapM_option_fmap {A B C} (f : B → option C) (g : A → B) (l : list A) :
  mapM f (g <$> l) = mapM (f ∘ g) l.
Proof.
  induction l as [|x l IH]; [done|].
  rewrite fmap_cons. cbn [mapM]. by rewrite IH.
Qed.

Lemma mapM_option_ext {A B} (f g : A → option B) (l : list A) :
  (∀ x, f x = g x) → mapM f l = mapM g l.
Proof.
  intros H. induction l as [|x l IH]; [done|]. cbn [mapM]. by rewrite H, IH.
Qed.

Lemma mapM_lookup_Some {A} (m : list (list A)) c w :
  Forall (λ row, length row = w) m → (c < w)%nat →
  ∃ col, mapM (λ row : list A, row !! c) m = Some col
         ∧ length col = length m
         ∧ ∀ r, col !! r = entry m c r.
Proof.
  intros Hrows Hc. induction Hrows as [|row m Hrow _ IH].
  - exists []. by repeat split.
  - destruct IH as (col & Hcol & Hlen & Hentry).
    destruct (lookup_lt_is_Some_2 row c) as [x Hx]; [lia|].
    exists (x :: col). cbn [mapM]. rewrite Hx, Hcol. simpl.
    repeat split; [by rewrite Hlen|].
    intros [|r]; unfold entry; simpl; [by rewrite Hx|]. apply Hentry.
Qed.

Lemma zip_star_lookup {A} (w : nat) : ∀ (m : list (list A)) c,
  Forall (λ row, length row = w) m → (c < w)%nat →
  ArrayHelper.zip_star w m !! c = mapM (λ row : list A, row !! c) m.
Proof.
  induction w as [|w IH]; intros m c Hrows Hc; [lia|].
  simpl.
  assert (Hhead : mapM head m = mapM (λ row : list A, row !! 0%nat) m).
  { apply mapM_option_ext. intros row. by rewrite head_lookup. }
  destruct (mapM_lookup_Some m 0 (S w) Hrows) as (hs & Hhs & _); [lia|].
  rewrite Hhead, Hhs.
  destruct c as [|c]; simpl; [done|].
  rewrite IH.
  - rewrite mapM_option_fmap. apply mapM_option_ext. intros row. simpl.
    by rewrite lookup_tail.
  - apply Forall_fmap. eapply Forall_impl; [exact Hrows|].
    intros row Hrow. destruct row; simpl in *; lia.
  - lia.
Qed.

Lemma zip_star_length {A} (w : nat) : ∀ (m : list (list A)),
  Forall (λ row, length row = w) m → length (ArrayHelper.zip_star w m) = w.
Proof.
  induction w as [|w IH]; intros m Hrows; [done|]. simpl.
  assert (Hhead : mapM head m = mapM (λ row : list A, row !! 0%nat) m).
  { apply mapM_option_ext. intros row. by rewrite head_lookup. }
  destruct (mapM_lookup_Some m 0 (S w) Hrows) as (hs & Hhs & _); [lia|].
  rewrite Hhead, Hhs. simpl. f_equal. apply IH.
  apply Forall_fmap. eapply Forall_impl; [exact Hrows|].
  intros row Hrow. destruct row; simpl in *; lia.
Qed.

Lemma transpose_columns_lookup {A} n (m : list (list A)) c :
  square_matrix n m → (c < n)%nat →
  ArrayHelper.transpose_columns m !! c = mapM (λ row : list A, row !! c) m.
Proof.
  intros [Hlen Hrows] Hc. destruct m as [|row m]; [simpl in Hlen; lia|].
  unfold ArrayHelper.transpose_columns.
  replace (length row) with n by (by apply Forall_cons_1 in Hrows as [-> _]).
  by apply zip_star_lookup.
Qed.

Lemma transpose_columns_square {A} n (m : list (list A)) :
  square_matrix n m → square_matrix n (ArrayHelper.transpose_columns m).
Proof.
  intros Hsq. pose proof Hsq as [Hlen Hrows].
  destruct m as [|row m].
  { simpl in *. subst n. by split. }
  assert (Hn : length row = n) by (by apply Forall_cons_1 in Hrows as [-> _]).
  split.
  - unfold ArrayHelper.transpose_columns. rewrite Hn. by apply zip_star_length.
  - apply Forall_lookup. intros c col Hcol.
    assert (Hc : (c < n)%nat).
    { apply lookup_lt_Some in Hcol. unfold ArrayHelper.transpose_columns in Hcol.
      rewrite Hn, zip_star_length in Hcol; done. }
    rewrite (transpose_columns_lookup n) in Hcol by done.
    apply length_mapM in Hcol. lia.
Qed.

Lemma transpose_columns_entry {A} n (m : list (list A)) c r :
  square_matrix n m → (c < n)%nat → (r < n)%nat →
  entry (ArrayHelper.transpose_columns m) r c = entry m c r.
Proof.
  intros Hsq Hc Hr. unfold entry at 1.
  rewrite (transpose_columns_lookup n) by done.
  destruct (mapM_lookup_Some m c n) as (col & Hcol & _ & Hentry);
    [by destruct Hsq|done|].
  rewrite Hcol. simpl. apply Hentry.
Qed.

Lemma square_matrix_ext {A} n (m1 m2 : list (list A)) :
  square_matrix n m1 → square_matrix n m2 →
  (∀ c r, (c < n)%nat → (r < n)%nat → entry m1 c r = entry m2 c r) →
  m1 = m2.
Proof.
  intros [Hl1 Hr1] [Hl2 Hr2] Hentry. apply list_eq. intros r.
  destruct (decide (r < n)%nat) as [Hr|Hr].
  - destruct (lookup_lt_is_Some_2 m1 r) as [row1 H1]; [lia|].
    destruct (lookup_lt_is_Some_2 m2 r) as [row2 H2]; [lia|].
    rewrite H1, H2. f_equal. apply list_eq. intros c.
    pose proof (proj1 (Forall_lookup _ _) Hr1 _ _ H1) as Hlen1.
    pose proof (proj1 (Forall_lookup _ _) Hr2 _ _ H2) as Hlen2.
    simpl in Hlen1, Hlen2.
    destruct (decide (c < n)%nat) as [Hc|Hc].
    + specialize (Hentry c r Hc Hr). unfold entry in Hentry.
      by rewrite H1, H2 in Hentry.
    + by rewrite !lookup_ge_None_2 by lia.
  - by rewrite !lookup_ge_None_2 by lia.
Qed.

Lemma transpose_columns_involutive {A} n (m : list (list A)) :
  square_matrix n m →
  ArrayHelper.transpose_columns (ArrayHelper.transpose_columns m) = m.
Proof.
  intros Hsq. apply (square_matrix_ext n); [|done|].
  - by do 2 apply transpose_columns_square.
  - intros c r Hc Hr.
    rewrite (transpose_columns_entry n) by (done || by apply transpose_columns_square).
    by apply (transpose_columns_entry n).
Qed.

Lemma square_matrix_replicate {A} n (x : A) :
  square_matrix n (replicate n (replicate n x)).
Proof.
  split; [apply length_replicate|]. apply Forall_replicate, length_replicate.
Qed.

Lemma entry_replicate {A} n (x : A) c r :
  (c < n)%nat → (r < n)%nat → entry (replicate n (replicate n x)) c r = Some x.
Proof.
  intros Hc Hr. unfold entry. rewrite lookup_replicate_2 by done. simpl.
  by apply lookup_replicate_2.
Qed.

Lemma transpose_columns_replicate {A} n (x : A) :
  ArrayHelper.transpose_columns (replicate n (replicate n x))
  = replicate n (replicate n x).
Proof.
  apply (square_matrix_ext n);
    [apply transpose_columns_square|..]; try apply square_matrix_replicate.
  intros c r Hc Hr.
  rewrite (transpose_columns_entry n) by (done || apply square_matrix_replicate).
  by rewrite !entry_replicate.
Qed.

(** ** Sliding a board on which nothing merges *)

Lemma with_score_same (self : Game) : with_score self (score self) = self.
Proof. by destruct self. Qed.

Lemma slide_helper_merge_free (self : Game) d (l : list Z) :
  l ≠ [] → merge_free l = true →
  _slide_helper self d l = Some (line_values d l, line_offsets d l, self).
Proof.
  intros Hl Hfree. unfold _slide_helper.
  rewrite helper_merge_free by done. simpl. by rewrite with_score_same.
Qed.

Lemma grid_values_square n (g : list (list Tile)) :
  Grid.square n g → square_matrix n (grid_values g).
Proof.
  intros [Hlen Hrows]. unfold grid_values. split; [by rewrite length_fmap|].
  apply Forall_fmap. eapply Forall_impl; [exact Hrows|].
  intros row Hrow. simpl. by rewrite length_fmap.
Qed.

Lemma tiles_square n (m : list (list Z)) :
  square_matrix n m → Grid.square n ((λ row : list Z, Tile_of <$> row) <$> m).
Proof.
  intros [Hlen Hrows]. split; [by rewrite length_fmap|].
  apply Forall_fmap. eapply Forall_impl; [exact Hrows|].
  intros row Hrow. simpl. by rewrite length_fmap.
Qed.

Lemma get_col_values (g : list (list Tile)) c tiles :
  Grid.get_col g c = Some tiles →
  mapM (λ row : list Z, row !! c) (grid_values g) = Some (value <$> tiles).
Proof.
  unfold Grid.get_col, grid_values. revert tiles.
  induction g as [|row g IH]; intros tiles Hcol.
  - by injection Hcol as <-.
  - cbn [mapM] in Hcol. rewrite fmap_cons. cbn [mapM].
    rewrite list_lookup_fmap.
    destruct (row !! c) as [t|]; simpl in *; [|done].
    destruct (mapM (λ row0 : list Tile, row0 !! c) g) as [ts|]; simpl in *; [|done].
    injection Hcol as <-. by rewrite (IH ts).
Qed.

(** The loop shared by [slide_each_row] and [slide_each_column], on lines
    that are non-empty and merge-free. *)
Lemma slide_lines_merge_free (self : Game) d
    (get : list (list Tile) → nat → option (list Tile)) (lines : list (list Z)) :
  length lines = Z.to_nat (grid_size (config self)) →
  (∀ k line, lines !! k = Some line →
     ∃ tiles, get (grid self) k = Some tiles ∧ value <$> tiles = line) →
  Forall (λ line, line ≠ [] ∧ merge_free line = true) lines →
  for_each (range (grid_size (config self)))
    (λ k '(new_grid_values, movement_matrix, self0),
       tiles ← get (grid self0) k;
       let line := value <$> tiles in
       '(new_line, movement, self1) ← _slide_helper self0 d line;
       Some (new_grid_values ++ [new_line], movement_matrix ++ [movement], self1))
    ([], [], self)
  = Some (line_values d <$> lines, line_offsets d <$> lines, self).
Proof.
  intros Hlen Hget Hfree.
  pose (Q (k : nat) (acc : list (list Z) * list (list Z) * Game) :=
    acc = (line_values d <$> take k lines, line_offsets d <$> take k lines, self)).
  match goal with
  | |- for_each (range ?z) ?body ?s = _ =>
      destruct (for_each_range_inv Q body z s) as (acc & Hrun & Hacc)
  end.
  - done.
  - intros k acc Hk ->.
    destruct (lookup_lt_is_Some_2 lines k) as [line Hline]; [lia|].
    destruct (Hget k line Hline) as (tiles & Htiles & Hvals).
    destruct (proj1 (Forall_lookup _ _) Hfree k line Hline) as [Hne Hmf].
    rewrite Htiles. simpl. rewrite Hvals.
    rewrite slide_helper_merge_free by done. simpl.
    eexists. split; [done|]. unfold Q.
    rewrite (take_S_r lines k line) by done. by rewrite !fmap_app.
  - rewrite Hrun. unfold Q in Hacc. rewrite Hacc.
    by rewrite take_ge by lia.
Qed.

Lemma lines_nonempty n (m : list (list Z)) :
  square_matrix n m → Forall (λ line, merge_free line = true) m →
  Forall (λ line, line ≠ [] ∧ merge_free line = true) m.
Proof.
  intros [Hlen Hrows] Hfree. apply Forall_lookup. intros k line Hline.
  split; [|by apply (proj1 (Forall_lookup _ _) Hfree k)].
  pose proof (proj1 (Forall_lookup _ _) Hrows k line Hline) as Hl. simpl in Hl.
  apply lookup_lt_Some in Hline. intros ->. simpl in Hl. lia.
Qed.

Lemma slide_each_row_merge_free (self : Game) d :
  well_formed self →
  Forall (λ line, merge_free line = true) (grid_values (grid self)) →
  slide_each_row self d
  = Some (line_values d <$> grid_values (grid self),
          line_offsets d <$> grid_values (grid self), self).
Proof.
  intros Hwf Hfree. unfold slide_each_row.
  apply (slide_lines_merge_free self d Grid.get_row).
  - unfold grid_values. rewrite length_fmap. by destruct Hwf.
  - intros k line Hline. unfold grid_values in Hline.
    rewrite list_lookup_fmap in Hline. unfold Grid.get_row.
    destruct (grid self !! k) as [tiles|]; simpl in Hline; [|done].
    injection Hline as <-. by exists tiles.
  - eapply lines_nonempty; [|done]. by apply grid_values_square.
Qed.

Lemma slide_each_column_merge_free (self : Game) d :
  well_formed self →
  Forall (λ line, merge_free line = true)
    (ArrayHelper.transpose_columns (grid_values (grid self))) →
  slide_each_column self d
  = Some (ArrayHelper.transpose_columns
            (line_values d <$> ArrayHelper.transpose_columns (grid_values (grid self))),
          ArrayHelper.transpose_columns
            (line_offsets d <$> ArrayHelper.transpose_columns (grid_values (grid self))),
          self).
Proof.
  intros Hwf Hfree. unfold slide_each_column.
  pose proof (grid_values_square _ _ Hwf) as Hsq.
  pose proof (transpose_columns_square _ _ Hsq) as Hsqt.
  assert (Hloop := slide_lines_merge_free self d Grid.get_col
                     (ArrayHelper.transpose_columns (grid_values (grid self)))
                     (proj1 Hsqt)).
  cbv zeta in Hloop. rewrite Hloop; [done| |by eapply lines_nonempty].
  intros c line Hline.
  assert (Hc : (c < Z.to_nat (grid_size (config self)))%nat).
  { apply lookup_lt_Some in Hline. destruct Hsqt as [Hl _]. lia. }
  destruct (mapM_lookup_Some (grid self) c (Z.to_nat (grid_size (config self))))
    as (tiles & Htiles & _); [by destruct Hwf|done|].
  exists tiles. split; [done|].
  apply get_col_values in Htiles.
  rewrite (transpose_columns_lookup _ _ _ Hsq Hc), Htiles in Hline.
  by injection Hline.
Qed.

Lemma square_matrix_fmap n (f : list Z → list Z) (m : list (list Z)) :
  (∀ l, length (f l) = length l) → square_matrix n m → square_matrix n (f <$> m).
Proof.
  intros Hf [Hlen Hrows]. split; [by rewrite length_fmap|].
  apply Forall_fmap. eapply Forall_impl; [exact Hrows|].
  intros row Hrow. simpl. by rewrite Hf.
Qed.

Lemma lines_along_square (self : Game) d :
  well_formed self →
  square_matrix (Z.to_nat (grid_size (config self))) (lines_along d self).
Proof.
  intros Hwf. unfold lines_along.
  destruct (direction_in d _); [apply transpose_columns_square|];
    by apply grid_values_square.
Qed.

Lemma lines_back_square n d (m : list (list Z)) :
  square_matrix n m → square_matrix n (lines_back d m).
Proof.
  intros Hsq. unfold lines_back.
  destruct (direction_in d _); [by apply transpose_columns_square|done].
Qed.

Lemma slide_tiles_merge_free (self : Game) d :
  well_formed self →
  Forall (λ line, merge_free line = true) (lines_along d self) →
  slide_tiles self d
  = Some (lines_back d (line_offsets d <$> lines_along d self), slid d self).
Proof.
  intros Hwf Hfree.
  pose proof (lines_along_square self d Hwf) as Hsq.
  assert (Hnew : square_matrix (Z.to_nat (grid_size (config self)))
                   (lines_back d (line_values d <$> lines_along d self))).
  { apply lines_back_square, square_matrix_fmap; [apply line_values_length|done]. }
  unfold slide_tiles, slid. unfold lines_along, lines_back in *.
  destruct (direction_in d [SlideDirection.UP; SlideDirection.DOWN]).
  - rewrite slide_each_column_merge_free by done. cbn [mbind option_bind].
    rewrite set_tiles_square; [done|done|by apply tiles_square].
  - rewrite slide_each_row_merge_free by done. cbn [mbind option_bind].
    rewrite set_tiles_square; [done|done|by apply tiles_square].
Qed.

Lemma lines_along_slid (self : Game) d :
  well_formed self →
  lines_along d (slid d self) = line_values d <$> lines_along d self.
Proof.
  intros Hwf. pose proof (lines_along_square self d Hwf) as Hsq.
  unfold lines_along at 1. unfold slid. simpl. rewrite grid_values_tiles.
  unfold lines_back.
  destruct (direction_in d [SlideDirection.UP; SlideDirection.DOWN]); [|done].
  apply (transpose_columns_involutive (Z.to_nat (grid_size (config self)))).
  apply square_matrix_fmap; [apply line_values_length|done].
Qed.

Lemma slid_well_formed (self : Game) d : well_formed self → well_formed (slid d self).
Proof.
  intros Hwf. unfold well_formed, slid. simpl.
  apply tiles_square, lines_back_square, square_matrix_fmap;
    [apply line_values_length|by apply lines_along_square].
Qed.

(** ** The code's loop against the spec's algorithm *)

Lemma step_inv root l i st st' :
  0 ≤ i < Z.of_nat (length l) → loop_inv (length l) i st →
  step root l i st = Some st' → loop_inv (length l) (i + 1) st'.
Proof.
  intros Hi Hinv Hstep.
  destruct (body_safe root l i st Hi Hinv) as (st1 & Hrun & Hinv1 & _).
  rewrite run_body, Hstep in Hrun. by injection Hrun as ->.
Qed.

Lemma step_spec root (l : list Z) (i : nat) x s0 st :
  l !! i = Some x →
  loop_inv (length l) (Z.of_nat i) (to_locals s0 st) →
  step root l (Z.of_nat i) (to_locals s0 st)
  = Some (to_locals s0 (spec_visit root st i x)).
Proof.
  intros Hx (Hnl & Hmv & _ & Hslot). simpl in Hnl, Hmv, Hslot.
  pose proof (lookup_lt_Some _ _ _ Hx) as Hi.
  unfold step, spec_visit. simpl.
  rewrite (py_getitem_nonneg l) by lia. rewrite Nat2Z.id, Hx. simpl.
  destruct (x =? 0) eqn:Ex; [done|].
  assert (Hc : (cursor st < length (out st))%nat) by (destruct Hslot; lia).
  destruct (lookup_lt_is_Some_2 (out st) (cursor st) Hc) as [y Hy].
  rewrite (py_getitem_nonneg (out st)) by lia. rewrite Nat2Z.id, Hy. simpl.
  rewrite (list_lookup_total_correct _ _ _ Hy).
  assert (Hlt : y ≠ 0 → (cursor st < i)%nat).
  { intros Hne. destruct Hslot as [?|[Heq Hz]]; [lia|].
    apply Nat2Z.inj in Heq. rewrite Nat2Z.id, <- Heq, Hy in Hz.
    injection Hz as ->. done. }
  destruct (x =? y) eqn:Exy; [|destruct (y =? 0) eqn:Ey].
  - rewrite (py_setitem_nonneg (out st)) by lia. simpl.
    rewrite (py_setitem_nonneg (moved st)) by lia. simpl.
    rewrite !Nat2Z.id. unfold to_locals. simpl. do 2 f_equal; lia.
  - rewrite (py_setitem_nonneg (out st)) by lia. simpl.
    rewrite (py_setitem_nonneg (moved st)) by lia. simpl.
    by rewrite !Nat2Z.id.
  - assert (cursor st < i)%nat by (apply Hlt; lia).
    rewrite (py_setitem_nonneg (out st)) by lia. simpl.
    rewrite (py_setitem_nonneg (moved st)) by lia. simpl.
    rewrite Nat2Z.id.
    replace (Z.to_nat (Z.of_nat (cursor st) + 1)) with (S (cursor st)) by lia.
    unfold to_locals. simpl. do 2 f_equal. lia.
Qed.

Lemma loop_spec root s0 suf : ∀ pre st,
  loop_inv (length (pre ++ suf)) (Z.of_nat (length pre)) (to_locals s0 st) →
  for_each (seqZ (Z.of_nat (length pre)) (Z.of_nat (length suf)))
    (step root (pre ++ suf)) (to_locals s0 st)
  = Some (to_locals s0 (spec_scan root (length pre) suf st)).
Proof.
  induction suf as [|x suf IH]; intros pre st Hinv; [done|].
  cbn [length]. rewrite Nat2Z.inj_succ, seqZ_cons, Z.pred_succ by lia.
  cbn [for_each spec_scan].
  assert (Hx : (pre ++ x :: suf) !! length pre = Some x) by (by apply list_lookup_middle).
  pose proof (step_spec root _ _ _ s0 st Hx Hinv) as Hstep.
  rewrite Hstep. cbn [mbind option_bind].
  apply step_inv in Hstep; [|rewrite length_app; simpl; lia|done].
  replace (Z.succ (Z.of_nat (length pre))) with (Z.of_nat (length (pre ++ [x])))
    in * by (rewrite length_app; simpl; lia).
  replace (Z.of_nat (length pre) + 1) with (Z.of_nat (length (pre ++ [x])))
    in Hstep by (rewrite length_app; simpl; lia).
  replace (S (length pre)) with (length (pre ++ [x]))
    by (rewrite length_app; simpl; lia).
  rewrite (cons_middle x pre suf), app_assoc in *. by apply IH.
Qed.

Lemma spec_scan_zeros root pre : ∀ i suf st,
  Forall (λ x, x = 0) pre →
  spec_scan root i (pre ++ suf) st = spec_scan root (i + length pre) suf st.
Proof.
  induction pre as [|x pre IH]; intros i suf st Hzero; simpl.
  - by rewrite Nat.add_0_r.
  - apply Forall_cons_1 in Hzero as [-> Hzero].
    rewrite IH by done. unfold spec_visit. simpl. f_equal. lia.
Qed.

Lemma init_locals_spec (l : list Z) s0 :
  init_locals l s0 = to_locals s0 (spec_init (length l)).
Proof.
  unfold init_locals, to_locals, spec_init. simpl.
  rewrite (const_fmap (λ _, 0) l 0) by done. f_equal. lia.
Qed.

(** On every non-empty line the code's loop computes what the spec's scan
    computes. *)
Lemma slide_loop_spec root (l : list Z) s0 :
  l ≠ [] →
  slide_loop root l s0
  = Some (to_locals s0 (spec_scan root 0 l (spec_init (length l)))).
Proof.
  intros Hl. unfold slide_loop.
  destruct (first_non_zero_index_spec l) as (start & Hrun & _ & Hspec).
  rewrite Hrun. simpl. unfold py_range.
  assert (Hinit : ∀ i, 0 ≤ i →
            loop_inv (length l) i (to_locals s0 (spec_init (length l)))).
  { intros i Hi. rewrite <- init_locals_spec. by apply init_loop_inv. }
  destruct Hspec as [[-> Hzero] | (Hstart & Hzero & _)].
  - replace (Z.of_nat (length l) - -1) with (Z.of_nat (S (length l))) by lia.
    rewrite Nat2Z.inj_succ, seqZ_cons, Z.pred_succ by lia. cbn [for_each].
    assert (Hlast : py_getitem l (-1) = Some 0).
    { rewrite py_getitem_last by done. rewrite last_lookup.
      destruct (lookup_lt_is_Some_2 l (pred (length l))) as [x Hx].
      { destruct l; [done|simpl; lia]. }
      rewrite Hx. f_equal. by eapply (proj1 (Forall_lookup _ _) Hzero). }
    assert (Hstep : step root l (-1) (init_locals l s0) = Some (init_locals l s0))
      by (unfold step; by rewrite Hlast).
    rewrite Hstep. cbn [mbind option_bind].
    rewrite init_locals_spec.
    apply (loop_spec root s0 l [] (spec_init (length l))). by apply Hinit.
  - assert (∃ pre suf, l = pre ++ suf ∧ Z.of_nat (length pre) = start
                       ∧ Forall (λ x, x = 0) pre) as (pre & suf & -> & <- & Hz).
    { exists (take (Z.to_nat start) l), (drop (Z.to_nat start) l).
      rewrite take_drop, length_take. repeat split; [lia|done]. }
    rewrite init_locals_spec.
    replace (Z.of_nat (length (pre ++ suf)) - Z.of_nat (length pre))
      with (Z.of_nat (length suf)) by (rewrite length_app; lia).
    rewrite loop_spec by (apply Hinit; lia).
    by rewrite (spec_scan_zeros root pre 0 suf) by done.
Qed.

(** C1: sliding one line toward index 0 (LEFT or UP) follows the spec's
    compaction-and-merge-once algorithm: on every non-empty line
    _slide_helper returns the line and the movement offsets of the spec's
    scan and adds the score that scan gains. Concretely, with root tile
    value 2, the line [2,2,2,2] gives [4,4,0,0] and adds 8 = 4+4 to the
    score, and [2,2,4,2] gives [4,4,2,0]: the trailing 2 stays apart from
    the 4 that the earlier merge produced. *)
Theorem slide_helper_toward_zero (self : Game) (d : SlideDirection.t) :
  d = SlideDirection.LEFT ∨ d = SlideDirection.UP →
  (∀ line, line ≠ [] →
     _slide_helper self d line =
     (let '(new_list, movement, g) := spec_slide (root_tile_value (config self)) line in
      Some (new_list, movement, with_score self (score self + g))))
  ∧ (root_tile_value (config self) = 2 →
     _slide_helper self d [2;2;2;2]
       = Some ([4;4;0;0], [0;-1;-1;-2], with_score self (score self + 8))
     ∧ _slide_helper self d [2;2;4;2]
       = Some ([4;4;2;0], [0;-1;-1;-1], with_score self (score self + 4))).
Proof.
  intros Hd.
  assert (Hgen : ∀ line, line ≠ [] →
     _slide_helper self d line =
     (let '(new_list, movement, g) := spec_slide (root_tile_value (config self)) line in
      Some (new_list, movement, with_score self (score self + g)))).
  { intros line Hline. unfold _slide_helper. rewrite run_helper.
    replace (reversed_direction d) with false by (by destruct Hd as [-> | ->]).
    by rewrite slide_loop_spec. }
  split; [exact Hgen|].
  intros Hroot. rewrite !Hgen by done. rewrite Hroot.
  replace (spec_slide 2 [2;2;2;2]) with ([4;4;0;0], [0;-1;-1;-2], 8)
    by (by vm_compute).
  replace (spec_slide 2 [2;2;4;2]) with ([4;4;2;0], [0;-1;-1;-1], 4)
    by (by vm_compute).
  done.
Qed.

Lemma slide_helper_toward_zero_witness :
  _slide_helper (game_of_values GameConfig_default power_vals) SlideDirection.LEFT [2;2;2;2]
    = Some ([4;4;0;0], [0;-1;-1;-2],
            with_score (game_of_values GameConfig_default power_vals) 8).
Proof.
  exact (proj1 (proj2 (slide_helper_toward_zero
                         (game_of_values GameConfig_default power_vals)
                         SlideDirection.LEFT (or_introl eq_refl)) eq_refl)).
Defined.

(** * Further properties of the code *)

(** ** Worked examples *)

Example test_highest_tile :
  get_highest_tile (game_of_values GameConfig_default full_tile_vals) = Some 16
  ∧ get_highest_tile (game_of_values GameConfig_default power_vals) = Some 4.
Proof. by split. Qed.

Example test_play_turn :
  (λ '(res, game, _), (res, latest_spawn_result game, latest_spawn_locations game))
    <$> play_turn game_after_init SlideDirection.UP rng_example
  = Some (SlideResult.NORMAL, Some true, [LocTuple 0 1; LocTuple 0 3]).
Proof. reflexivity. Qed.

(** ** ArrayHelper: searching a list *)

Lemma first_non_zero_loop_from (l : list Z) (start : Z) (m : nat) : ∀ k,
  0 ≤ start ≤ k → Z.of_nat m = Z.max 0 (Z.of_nat (length l) - k) →
  (∀ j, start ≤ j < k → l !! Z.to_nat j = Some 0) →
  ∃ r, run (ArrayHelper.first_non_zero_loop l (seqZ k (Z.of_nat m))) = Some r
       ∧ ((r = -1 ∧ ∀ j, start ≤ j < Z.of_nat (length l) → l !! Z.to_nat j = Some 0)
          ∨ (start ≤ r < Z.of_nat (length l)
             ∧ (∃ x, l !! Z.to_nat r = Some x ∧ x ≠ 0)
             ∧ ∀ j, start ≤ j < r → l !! Z.to_nat j = Some 0)).
Proof.
  induction m as [|m IH]; intros k Hk Hm Hzero.
  - exists (-1). split; [done|]. left. split; [done|]. intros j Hj. apply Hzero. lia.
  - rewrite Nat2Z.inj_succ, seqZ_cons, Z.pred_succ by lia. cbn [ArrayHelper.first_non_zero_loop].
    rewrite run_bind. unfold getitem_at at 1. cbn [run snd].
    rewrite py_getitem_nonneg by lia.
    destruct (lookup_lt_is_Some_2 l (Z.to_nat k)) as [x Hx]; [lia|]. rewrite Hx.
    cbn [mbind option_bind]. destruct (x =? 0) eqn:Ex; cbn [negb].
    + apply IH; [lia|lia|]. intros j Hj.
      destruct (decide (j = k)) as [->|]; [|apply Hzero; lia].
      rewrite Hx. f_equal. lia.
    + exists k. split; [done|]. right. split; [lia|]. split; [|done].
      exists x. split; [done|lia].
Qed.

(** X1: started at an index in range (the default is 0),
    first_non_zero_index never raises and returns the first index from
    start_index on that holds a non-zero element, or -1 when there is none. *)
Theorem first_non_zero_index_found (array : list Z) (start_index : Z) :
  0 ≤ start_index →
  ∃ r, run (ArrayHelper.first_non_zero_index array start_index) = Some r
       ∧ ((r = -1 ∧ ∀ j, start_index ≤ j < Z.of_nat (length array) →
                     array !! Z.to_nat j = Some 0)
          ∨ (start_index ≤ r < Z.of_nat (length array)
             ∧ (∃ x, array !! Z.to_nat r = Some x ∧ x ≠ 0)
             ∧ ∀ j, start_index ≤ j < r → array !! Z.to_nat j = Some 0)).
Proof.
  intros Hstart. unfold ArrayHelper.first_non_zero_index, py_range.
  destruct (decide (start_index ≤ Z.of_nat (length array))) as [Hle|Hgt].
  - rewrite <- (Z2Nat.id (Z.of_nat (length array) - start_index)) by lia.
    apply (first_non_zero_loop_from array start_index); [lia|lia|]. intros j Hj. lia.
  - rewrite seqZ_nil by lia. exists (-1). split; [done|]. left. split; [done|].
    intros j Hj. lia.
Qed.

Lemma first_non_zero_index_found_witness :
  ∃ r, run (ArrayHelper.first_non_zero_index [0; 0; 4; 2] 1) = Some r
       ∧ ((r = -1 ∧ ∀ j, 1 ≤ j < Z.of_nat (length [0; 0; 4; 2]) →
                     [0; 0; 4; 2] !! Z.to_nat j = Some 0)
          ∨ (1 ≤ r < Z.of_nat (length [0; 0; 4; 2])
             ∧ (∃ x, [0; 0; 4; 2] !! Z.to_nat r = Some x ∧ x ≠ 0)
             ∧ ∀ j, 1 ≤ j < r → [0; 0; 4; 2] !! Z.to_nat j = Some 0)).
Proof. apply (first_non_zero_index_found [0; 0; 4; 2] 1). lia. Defined.

Lemma first_zero_loop_from (l : list Z) (start : Z) (m : nat) : ∀ k,
  0 ≤ start ≤ k → Z.of_nat m = Z.max 0 (Z.of_nat (length l) - k) →
  (∀ j, start ≤ j < k → ∃ x, l !! Z.to_nat j = Some x ∧ x ≠ 0) →
  ∃ r, first_zero_loop l (seqZ k (Z.of_nat m)) = Some r
       ∧ ((r = -1 ∧ ∀ j, start ≤ j < Z.of_nat (length l) →
                     ∃ x, l !! Z.to_nat j = Some x ∧ x ≠ 0)
          ∨ (start ≤ r < Z.of_nat (length l)
             ∧ l !! Z.to_nat r = Some 0
             ∧ ∀ j, start ≤ j < r → ∃ x, l !! Z.to_nat j = Some x ∧ x ≠ 0)).
Proof.
  induction m as [|m IH]; intros k Hk Hm Hnz.
  - exists (-1). split; [done|]. left. split; [done|]. intros j Hj. apply Hnz. lia.
  - rewrite Nat2Z.inj_succ, seqZ_cons, Z.pred_succ by lia. cbn [first_zero_loop].
    rewrite py_getitem_nonneg by lia.
    destruct (lookup_lt_is_Some_2 l (Z.to_nat k)) as [x Hx]; [lia|]. rewrite Hx.
    cbn [mbind option_bind]. destruct (x =? 0) eqn:Ex.
    + exists k. split; [done|]. right. split; [lia|]. split; [|done].
      rewrite Hx. f_equal. lia.
    + apply IH; [lia|lia|]. intros j Hj.
      destruct (decide (j = k)) as [->|]; [|apply Hnz; lia].
      exists x. split; [done|lia].
Qed.

(** X2: started at an index in range, first_zero_index never raises and
    returns the first index from start_index on that holds a zero, or -1
    when there is none. *)
Theorem first_zero_index_found (array : list Z) (start_index : Z) :
  0 ≤ start_index →
  ∃ r, first_zero_index array start_index = Some r
       ∧ ((r = -1 ∧ ∀ j, start_index ≤ j < Z.of_nat (length array) →
                     ∃ x, array !! Z.to_nat j = Some x ∧ x ≠ 0)
          ∨ (start_index ≤ r < Z.of_nat (length array)
             ∧ array !! Z.to_nat r = Some 0
             ∧ ∀ j, start_index ≤ j < r → ∃ x, array !! Z.to_nat j = Some x ∧ x ≠ 0)).
Proof.
  intros Hstart. unfold first_zero_index, py_range.
  destruct (decide (start_index ≤ Z.of_nat (length array))) as [Hle|Hgt].
  - rewrite <- (Z2Nat.id (Z.of_nat (length array) - start_index)) by lia.
    apply (first_zero_loop_from array start_index); [lia|lia|]. intros j Hj. lia.
  - rewrite seqZ_nil by lia. exists (-1). split; [done|]. left. split; [done|].
    intros j Hj. lia.
Qed.

Lemma first_zero_index_found_witness :
  ∃ r, first_zero_index [4; 2; 0; 0] 1 = Some r
       ∧ ((r = -1 ∧ ∀ j, 1 ≤ j < Z.of_nat (length [4; 2; 0; 0]) →
                     ∃ x, [4; 2; 0; 0] !! Z.to_nat j = Some x ∧ x ≠ 0)
          ∨ (1 ≤ r < Z.of_nat (length [4; 2; 0; 0])
             ∧ [4; 2; 0; 0] !! Z.to_nat r = Some 0
             ∧ ∀ j, 1 ≤ j < r → ∃ x, [4; 2; 0; 0] !! Z.to_nat j = Some x ∧ x ≠ 0)).
Proof. apply (first_zero_index_found [4; 2; 0; 0] 1). lia. Defined.

(** A negative start index is resolved from the end of the list, and one
    below the negated length raises IndexError. *)
Example first_zero_index_negative_start :
  first_zero_index [4; 0; 2] (-2) = Some (-2)
  ∧ first_zero_index [4; 0; 2] (-4) = None.
Proof. by split. Qed.

(** ** ArrayHelper: transpose_columns on any list of rows *)

Lemma zip_star_lookup_iff {A} (n : nat) : ∀ (m : list (list A)) c col,
  ArrayHelper.zip_star n m !! c = Some col
  ↔ (c < n)%nat ∧ mapM (λ row : list A, row !! c) m = Some col.
Proof.
  induction n as [|n IH]; intros m c col; simpl.
  { split; [done|]. intros [? _]. lia. }
  assert (Hhead : mapM head m = mapM (λ row : list A, row !! 0%nat) m).
  { apply mapM_option_ext. intros row. by rewrite head_lookup. }
  assert (Htail : ∀ c', mapM (λ row : list A, row !! c') (tail <$> m)
                        = mapM (λ row : list A, row !! S c') m).
  { intros c'. rewrite mapM_option_fmap. apply mapM_option_ext. intros row. simpl.
    by rewrite lookup_tail. }
  rewrite Hhead.
  destruct (mapM (λ row : list A, row !! 0%nat) m) as [hs|] eqn:Hhs.
  - destruct c as [|c]; simpl.
    + rewrite Hhs. split; [intros [= <-]; split; [lia|done]|by intros [_ [= <-]]].
    + rewrite IH, Htail. split; intros [? ?]; split; try done; lia.
  - split; [done|]. intros [_ Hcol]. exfalso.
    assert (Hsome : is_Some (mapM (λ row : list A, row !! 0%nat) m)); [|by rewrite Hhs in Hsome; destruct Hsome].
    apply mapM_is_Some. assert (Hc : is_Some (mapM (λ row : list A, row !! c) m)) by (by rewrite Hcol).
    apply mapM_is_Some in Hc. eapply Forall_impl; [exact Hc|].
    intros row [x Hx]. apply lookup_lt_is_Some_2. apply lookup_lt_Some in Hx. lia.
Qed.

(** X3: transpose_columns on any list of rows, ragged or not: the result has
    a column c exactly when there is at least one row and every row has an
    element at index c, and that column lists those elements in row order;
    so the result is cut at the shortest row and is empty for no rows. *)
Theorem transpose_columns_lookup_iff {A} (m : list (list A)) (c : nat) (col : list A) :
  ArrayHelper.transpose_columns m !! c = Some col
  ↔ m ≠ [] ∧ mapM (λ row : list A, row !! c) m = Some col.
Proof.
  destruct m as [|row m]; [by split; [|intros [? _]]|].
  unfold ArrayHelper.transpose_columns. rewrite zip_star_lookup_iff.
  split; [by intros [_ ?]|]. intros [_ Hcol]. split; [|done].
  cbn [mapM] in Hcol. destruct (row !! c) as [x|] eqn:Hx; [|done].
  by apply lookup_lt_Some in Hx.
Qed.

(** X4: on an n x n matrix transpose_columns gives an n x n matrix whose
    entry (r, c) is the entry (c, r) of the input, and transposing twice
    gives the matrix back. *)
Theorem transpose_columns_square_involutive {A} (n : nat) (m : list (list A)) :
  square_matrix n m →
  square_matrix n (ArrayHelper.transpose_columns m)
  ∧ (∀ c r, (c < n)%nat → (r < n)%nat →
       entry (ArrayHelper.transpose_columns m) r c = entry m c r)
  ∧ ArrayHelper.transpose_columns (ArrayHelper.transpose_columns m) = m.
Proof.
  intros Hsq. split; [by apply transpose_columns_square|]. split.
  - intros c r Hc Hr. by apply (transpose_columns_entry n).
  - by apply (transpose_columns_involutive n).
Qed.

Lemma transpose_columns_square_involutive_witness :
  square_matrix 2 (ArrayHelper.transpose_columns [[1; 2]; [3; 4]])
  ∧ (∀ c r, (c < 2)%nat → (r < 2)%nat →
       entry (ArrayHelper.transpose_columns [[1; 2]; [3; 4]]) r c
       = entry [[1; 2]; [3; 4]] c r)
  ∧ ArrayHelper.transpose_columns (ArrayHelper.transpose_columns [[1; 2]; [3; 4]])
    = [[1; 2]; [3; 4]].
Proof.
  apply (transpose_columns_square_involutive 2 [[1; 2]; [3; 4]]).
  split; [reflexivity|]. repeat constructor.
Defined.

Example transpose_columns_ragged :
  ArrayHelper.transpose_columns [[1; 2; 3]; [4; 5]; [6; 7; 8]] = [[1; 4; 6]; [2; 5; 7]].
Proof. reflexivity. Qed.

(** ** set_tiles *)

(** X5: on a well-formed game set_tiles succeeds exactly when new_list has a
    tile at every cell of the board. It then overwrites every cell with
    new_list[r][c], ignores what new_list holds beyond the board and leaves
    every other field of the game alone; otherwise it raises. *)
Theorem set_tiles_overwrites (self : Game) (new_list : list (list Tile)) :
  well_formed self →
  let n := Z.to_nat (grid_size (config self)) in
  ((∀ c r, (c < n)%nat → (r < n)%nat → is_Some (Grid.get new_list c r)) →
   ∃ g, set_tiles self new_list = Some (with_grid self g)
        ∧ Grid.square n g
        ∧ ∀ c r, (c < n)%nat → (r < n)%nat → Grid.get g c r = Grid.get new_list c r)
  ∧ ((∃ c r, (c < n)%nat ∧ (r < n)%nat ∧ Grid.get new_list c r = None) →
     set_tiles self new_list = None).
Proof.
  intros Hwf n. split.
  - intros Hcover. by apply set_tiles_spec.
  - intros (c & r & Hc & Hr & Hnone). by apply (set_tiles_raises self new_list c r).
Qed.

Lemma set_tiles_overwrites_witness :
  ((∀ c r, (c < 4)%nat → (r < 4)%nat →
      is_Some (Grid.get ((λ row : list Z, Tile_of <$> row) <$> full_tile_vals) c r)) →
   ∃ g, set_tiles (game_of_values GameConfig_default power_vals)
          ((λ row : list Z, Tile_of <$> row) <$> full_tile_vals)
        = Some (with_grid (game_of_values GameConfig_default power_vals) g)
        ∧ Grid.square 4 g
        ∧ ∀ c r, (c < 4)%nat → (r < 4)%nat →
            Grid.get g c r
            = Grid.get ((λ row : list Z, Tile_of <$> row) <$> full_tile_vals) c r)
  ∧ ((∃ c r, (c < 4)%nat ∧ (r < 4)%nat
             ∧ Grid.get ((λ row : list Z, Tile_of <$> row) <$> full_tile_vals) c r = None) →
     set_tiles (game_of_values GameConfig_default power_vals)
       ((λ row : list Z, Tile_of <$> row) <$> full_tile_vals) = None).
Proof.
  apply (set_tiles_overwrites (game_of_values GameConfig_default power_vals)
           ((λ row : list Z, Tile_of <$> row) <$> full_tile_vals)).
  split; [reflexivity|]. simpl. repeat constructor.
Defined.

(** ** slide_tiles on every well-formed game *)

Lemma spec_visit_lengths root st i v :
  length (out (spec_visit root st i v)) = length (out st)
  ∧ length (moved (spec_visit root st i v)) = length (moved st).
Proof.
  unfold spec_visit. repeat case_match; simpl; by rewrite ?length_insert.
Qed.

Lemma spec_scan_lengths root vs : ∀ i st,
  length (out (spec_scan root i vs st)) = length (out st)
  ∧ length (moved (spec_scan root i vs st)) = length (moved st).
Proof.
  induction vs as [|v vs IH]; intros i st; simpl; [done|].
  destruct (IH (S i) (spec_visit root st i v)) as [-> ->].
  apply spec_visit_lengths.
Qed.

Lemma line_scan_lengths root d line :
  length (out (line_scan root d line)) = length line
  ∧ length (moved (line_scan root d line)) = length line.
Proof.
  unfold line_scan.
  destruct (spec_scan_lengths root
              (if reversed_direction d then reverse line else line) 0
              (spec_init (length (if reversed_direction d then reverse line else line))))
    as [-> ->].
  simpl. rewrite !length_replicate. by destruct (reversed_direction d); rewrite ?length_reverse.
Qed.

Lemma line_new_length root d line : length (line_new root d line) = length line.
Proof.
  unfold line_new. destruct (line_scan_lengths root d line) as [H _].
  by destruct (reversed_direction d); rewrite ?length_reverse.
Qed.

Lemma line_moved_length root d line : length (line_moved root d line) = length line.
Proof.
  unfold line_moved. destruct (line_scan_lengths root d line) as [_ H].
  by destruct (reversed_direction d); rewrite ?length_fmap, ?length_reverse.
Qed.

Lemma Zsum_app (l k : list Z) : Zsum (l ++ k) = Zsum l + Zsum k.
Proof. unfold Zsum. induction l as [|x l IH]; simpl; lia. Qed.

(** [_slide_helper] on any non-empty line, in any direction. *)
Lemma slide_helper_any (self : Game) d (line : list Z) :
  line ≠ [] →
  _slide_helper self d line
  = Some (line_new (root_tile_value (config self)) d line,
          line_moved (root_tile_value (config self)) d line,
          with_score self (score self + line_gained (root_tile_value (config self)) d line)).
Proof.
  intros Hline. unfold _slide_helper. rewrite run_helper.
  rewrite slide_loop_spec by (by apply reversed_line_nonempty).
  unfold line_new, line_moved, line_gained, line_scan, slide_result. simpl.
  by destruct (reversed_direction d).
Qed.

Lemma slide_lines_any (self : Game) d
    (get : list (list Tile) → nat → option (list Tile)) (lines : list (list Z)) :
  length lines = Z.to_nat (grid_size (config self)) →
  (∀ k line, lines !! k = Some line →
     ∃ tiles, get (grid self) k = Some tiles ∧ value <$> tiles = line) →
  Forall (λ line, line ≠ []) lines →
  for_each (range (grid_size (config self)))
    (λ k '(new_grid_values, movement_matrix, self0),
       tiles ← get (grid self0) k;
       '(new_line, movement, self1) ← _slide_helper self0 d (value <$> tiles);
       Some (new_grid_values ++ [new_line], movement_matrix ++ [movement], self1))
    ([], [], self)
  = Some (line_new (root_tile_value (config self)) d <$> lines,
          line_moved (root_tile_value (config self)) d <$> lines,
          with_score self
            (score self + Zsum (line_gained (root_tile_value (config self)) d <$> lines))).
Proof.
  intros Hlen Hget Hne.
  set (root := root_tile_value (config self)).
  pose (Q (k : nat) (acc : list (list Z) * list (list Z) * Game) :=
    acc = (line_new root d <$> take k lines, line_moved root d <$> take k lines,
           with_score self (score self + Zsum (line_gained root d <$> take k lines)))).
  match goal with
  | |- for_each (range ?z) ?body ?s = _ =>
      destruct (for_each_range_inv Q body z s) as (acc & Hrun & Hacc)
  end.
  - unfold Q. simpl. rewrite Z.add_0_r. by rewrite with_score_same.
  - intros k acc Hk ->.
    destruct (lookup_lt_is_Some_2 lines k) as [line Hline]; [lia|].
    destruct (Hget k line Hline) as (tiles & Htiles & Hvals).
    pose proof (proj1 (Forall_lookup _ _) Hne k line Hline) as Hl.
    cbn [grid with_score]. rewrite Htiles. cbn [mbind option_bind]. rewrite Hvals.
    rewrite slide_helper_any by done. cbn [mbind option_bind].
    eexists. split; [done|]. unfold Q.
    rewrite (take_S_r lines k line) by done. rewrite !fmap_app. simpl.
    fold root. rewrite Zsum_app.
    replace (Zsum [line_gained root d line]) with (line_gained root d line)
      by (unfold Zsum; simpl; lia).
    unfold with_score. simpl. by rewrite Z.add_assoc.
  - rewrite Hrun. unfold Q in Hacc. rewrite Hacc.
    by rewrite take_ge by lia.
Qed.

Lemma Zsum_insert (l : list Z) (i : nat) (x y : Z) :
  l !! i = Some x → Zsum (<[i := y]> l) = Zsum l - x + y.
Proof.
  revert i. induction l as [|a l IH]; intros [|i] Hl; simpl in *; try done.
  - injection Hl as ->. unfold Zsum. simpl. lia.
  - unfold Zsum in *. simpl. rewrite (IH i Hl). lia.
Qed.

Lemma Zsum_replicate n : Zsum (replicate n 0) = 0.
Proof. unfold Zsum. induction n as [|n IH]; simpl; lia. Qed.

Lemma spec_init_inv root n : scan_inv root n [] (spec_init n).
Proof.
  constructor; simpl; rewrite ?length_replicate; try done.
  - intros x Hx. apply lookup_replicate in Hx as [-> _]. done.
  - intros j x _ Hx. by apply lookup_replicate in Hx as [-> _].
  - intros _ j x Hj. lia.
  - rewrite Zsum_replicate. unfold Zsum. simpl. lia.
  - intros j m _ Hm. by apply lookup_replicate in Hm as [-> _].
Qed.

Lemma spec_visit_inv root n pre st v :
  scan_inv root n pre st → (length pre < n)%nat →
  scan_inv root n (pre ++ [v]) (spec_visit root st (length pre) v).
Proof.
  intros [H1 H2 H3 H4 H5 H6 H7 H8 H9] Hi.
  destruct (lookup_lt_is_Some_2 (out st) (cursor st)) as [x Hx]; [lia|].
  destruct (lookup_lt_is_Some_2 (moved st) (length pre)) as [m0 Hm0]; [lia|].
  assert (Hvisited_old : ∀ j v', (pre ++ [v]) !! j = Some v' →
            pre !! j = Some v' ∨ (j = length pre ∧ v' = v)).
  { intros j v' Hlk. apply lookup_app_Some in Hlk as [Hlk|[Hge Hlk]]; [by left|].
    right. apply list_lookup_singleton_Some in Hlk as [Hj ->]. split; [lia|done]. }
  unfold spec_visit. rewrite (list_lookup_total_correct _ _ _ Hx).
  destruct (Z.eqb_spec v 0) as [->|Hv].
  { constructor; rewrite ?length_app; simpl; try done.
    - lia.
    - intros y Hy Hne. specialize (H4 y Hy Hne). lia.
    - rewrite Zsum_app. unfold Zsum at 3. simpl. lia.
    - intros j m Hj. apply H8. lia.
    - intros j v' Hlk. destruct (Hvisited_old j v' Hlk) as [Hold|[-> ->]].
      + by apply H9.
      + exists m0. split; [done|]. split; [|done].
        intros _. by apply (H8 (length pre) m0). }
  destruct (Z.eqb_spec v x) as [->|Hvx].
  { (* merge *)
    constructor; simpl; rewrite ?length_app, ?length_insert; simpl; try done.
    - specialize (H4 x Hx Hv). lia.
    - intros y Hy Hne. rewrite list_lookup_insert_ne in Hy by lia.
      rewrite (H5 (S (cursor st)) y) in Hne; [done|lia|done].
    - intros j y Hj Hy. rewrite list_lookup_insert_ne in Hy by lia.
      apply (H5 j y); [lia|done].
    - intros Hroot j y Hj Hy.
      destruct (decide (j = cursor st)) as [->|Hne].
      + rewrite list_lookup_insert_eq in Hy by lia. injection Hy as <-. nia.
      + rewrite list_lookup_insert_ne in Hy by done. apply (H6 Hroot j y); [lia|done].
    - rewrite (Zsum_insert _ _ x) by done. rewrite Zsum_app. unfold Zsum at 3. simpl. lia.
    - intros j m Hj Hm. rewrite list_lookup_insert_ne in Hm by lia. apply (H8 j m); [lia|done].
    - specialize (H4 x Hx Hv).
      intros j v' Hlk. destruct (Hvisited_old j v' Hlk) as [Hold|[-> ->]].
      + destruct (H9 j v' Hold) as (m & Hm & Hz & Hnz).
        exists m. rewrite list_lookup_insert_ne by (apply lookup_lt_Some in Hold; lia).
        split; [done|]. split; [done|]. intros Hv'.
        destruct (Hnz Hv') as (Hb & t & Ht & Hdest). split; [done|].
        exists t. split; [done|]. left.
        destruct Hdest as [[Hlt Hd]|[-> Hd]].
        * split; [lia|]. by rewrite list_lookup_insert_ne by lia.
        * split; [lia|]. rewrite list_lookup_insert_eq by lia.
          rewrite Hx in Hd. injection Hd as ->. by right.
      + exists (Z.of_nat (cursor st) - Z.of_nat (length pre)).
        rewrite list_lookup_insert_eq by lia. split; [done|]. split; [done|].
        intros _. split; [lia|]. exists (cursor st). split; [lia|]. left.
        split; [lia|]. rewrite list_lookup_insert_eq by lia. by right. }
  destruct (Z.eqb_spec x 0) as [->|Hx0].
  { (* the cell under the cursor is empty *)
    constructor; simpl; rewrite ?length_app, ?length_insert; simpl; try done.
    - lia.
    - intros; lia.
    - intros j y Hj Hy. rewrite list_lookup_insert_ne in Hy by lia.
      apply (H5 j y); [lia|done].
    - intros Hroot j y Hj Hy. rewrite list_lookup_insert_ne in Hy by lia.
      apply (H6 Hroot j y); [lia|done].
    - rewrite (Zsum_insert _ _ 0) by done. rewrite Zsum_app. unfold Zsum at 3. simpl. lia.
    - intros j m Hj Hm. rewrite list_lookup_insert_ne in Hm by lia. apply (H8 j m); [lia|done].
    - intros j v' Hlk. destruct (Hvisited_old j v' Hlk) as [Hold|[-> ->]].
      + destruct (H9 j v' Hold) as (m & Hm & Hz & Hnz).
        exists m. rewrite list_lookup_insert_ne by (apply lookup_lt_Some in Hold; lia).
        split; [done|]. split; [done|]. intros Hv'.
        destruct (Hnz Hv') as (Hb & t & Ht & Hdest). split; [done|].
        exists t. split; [done|].
        destruct Hdest as [[Hlt Hd]|[-> Hd]].
        * left. split; [lia|]. by rewrite list_lookup_insert_ne by lia.
        * rewrite Hx in Hd. by injection Hd as <-.
      + exists (Z.of_nat (cursor st) - Z.of_nat (length pre)).
        rewrite list_lookup_insert_eq by lia. split; [done|]. split; [done|].
        intros _. split; [lia|]. exists (cursor st). split; [lia|]. right.
        split; [done|]. by rewrite list_lookup_insert_eq by lia. }
  (* the cell under the cursor is taken by another value *)
  specialize (H4 x Hx Hx0).
  constructor; simpl; rewrite ?length_app, ?length_insert; simpl; try done.
  - lia.
  - intros; lia.
  - intros j y Hj Hy. rewrite list_lookup_insert_ne in Hy by lia.
    apply (H5 j y); [lia|done].
  - intros Hroot j y Hj Hy. rewrite list_lookup_insert_ne in Hy by lia.
    destruct (decide (j = cursor st)) as [->|Hne].
    + rewrite Hx in Hy. by injection Hy as <-.
    + apply (H6 Hroot j y); [lia|done].
  - destruct (lookup_lt_is_Some_2 (out st) (S (cursor st))) as [z Hz]; [lia|].
    rewrite (Zsum_insert _ _ z) by done.
    rewrite (H5 (S (cursor st)) z) by (done || lia).
    rewrite Zsum_app. unfold Zsum at 3. simpl. lia.
  - intros j m Hj Hm. rewrite list_lookup_insert_ne in Hm by lia. apply (H8 j m); [lia|done].
  - intros j v' Hlk. destruct (Hvisited_old j v' Hlk) as [Hold|[-> ->]].
    + destruct (H9 j v' Hold) as (m & Hm & Hz & Hnz).
      exists m. rewrite list_lookup_insert_ne by (apply lookup_lt_Some in Hold; lia).
      split; [done|]. split; [done|]. intros Hv'.
      destruct (Hnz Hv') as (Hb & t & Ht & Hdest). split; [done|].
      exists t. split; [done|]. left.
      destruct Hdest as [[Hlt Hd]|[-> Hd]].
      * split; [lia|]. by rewrite list_lookup_insert_ne by lia.
      * split; [lia|]. rewrite list_lookup_insert_ne by lia. by left.
    + exists (Z.of_nat (cursor st) + 1 - Z.of_nat (length pre)).
      rewrite list_lookup_insert_eq by lia. split; [done|]. split; [done|].
      intros _. split; [lia|]. exists (S (cursor st)). split; [lia|]. right.
      split; [done|]. by rewrite list_lookup_insert_eq by lia.
Qed.

Lemma spec_scan_inv root n : ∀ vs pre st,
  scan_inv root n pre st → (length pre + length vs = n)%nat →
  scan_inv root n (pre ++ vs) (spec_scan root (length pre) vs st).
Proof.
  induction vs as [|v vs IH]; intros pre st Hinv Hn; simpl.
  - by rewrite app_nil_r.
  - simpl in Hn. replace (pre ++ v :: vs) with ((pre ++ [v]) ++ vs) by by rewrite <- app_assoc.
    replace (S (length pre)) with (length (pre ++ [v])) by (rewrite length_app; simpl; lia).
    apply IH; [apply spec_visit_inv; [done|lia]|]. rewrite length_app. simpl. lia.
Qed.

Lemma spec_slide_inv root (l : list Z) :
  scan_inv root (length l) l (spec_scan root 0 l (spec_init (length l))).
Proof. apply (spec_scan_inv root (length l) l [] _ (spec_init_inv root _)). done. Qed.

Lemma square_lines_nonempty n (m : list (list Z)) :
  square_matrix n m → Forall (λ line, line ≠ []) m.
Proof.
  intros [Hlen Hrows]. apply Forall_lookup. intros k line Hline.
  pose proof (proj1 (Forall_lookup _ _) Hrows k line Hline) as Hl. simpl in Hl.
  apply lookup_lt_Some in Hline. intros ->. simpl in Hl. lia.
Qed.

Lemma slide_each_row_any (self : Game) d :
  well_formed self →
  slide_each_row self d
  = Some (line_new (root_tile_value (config self)) d <$> grid_values (grid self),
          line_moved (root_tile_value (config self)) d <$> grid_values (grid self),
          with_score self
            (score self
             + Zsum (line_gained (root_tile_value (config self)) d
                       <$> grid_values (grid self)))).
Proof.
  intros Hwf. unfold slide_each_row.
  apply (slide_lines_any self d Grid.get_row).
  - unfold grid_values. rewrite length_fmap. by destruct Hwf.
  - intros k line Hline. unfold grid_values in Hline.
    rewrite list_lookup_fmap in Hline. unfold Grid.get_row.
    destruct (grid self !! k) as [tiles|]; simpl in Hline; [|done].
    injection Hline as <-. by exists tiles.
  - by eapply square_lines_nonempty, grid_values_square.
Qed.

Lemma slide_each_column_any (self : Game) d :
  well_formed self →
  slide_each_column self d
  = Some (ArrayHelper.transpose_columns
            (line_new (root_tile_value (config self)) d
               <$> ArrayHelper.transpose_columns (grid_values (grid self))),
          ArrayHelper.transpose_columns
            (line_moved (root_tile_value (config self)) d
               <$> ArrayHelper.transpose_columns (grid_values (grid self))),
          with_score self
            (score self
             + Zsum (line_gained (root_tile_value (config self)) d
                       <$> ArrayHelper.transpose_columns (grid_values (grid self))))).
Proof.
  intros Hwf. unfold slide_each_column.
  pose proof (grid_values_square _ _ Hwf) as Hsq.
  pose proof (transpose_columns_square _ _ Hsq) as Hsqt.
  assert (Hloop := slide_lines_any self d Grid.get_col
                     (ArrayHelper.transpose_columns (grid_values (grid self)))
                     (proj1 Hsqt)).
  cbv zeta. rewrite Hloop; [done| |by eapply square_lines_nonempty].
  intros c line Hline.
  assert (Hc : (c < Z.to_nat (grid_size (config self)))%nat).
  { apply lookup_lt_Some in Hline. destruct Hsqt as [Hl _]. lia. }
  destruct (mapM_lookup_Some (grid self) c (Z.to_nat (grid_size (config self))))
    as (tiles & Htiles & _); [by destruct Hwf|done|].
  exists tiles. split; [done|].
  apply get_col_values in Htiles.
  rewrite (transpose_columns_lookup _ _ _ Hsq Hc), Htiles in Hline.
  by injection Hline.
Qed.

Lemma slide_tiles_any (self : Game) d :
  well_formed self →
  slide_tiles self d
  = Some (lines_back d (line_moved (root_tile_value (config self)) d <$> lines_along d self),
          slid_any d self).
Proof.
  intros Hwf.
  pose proof (lines_along_square self d Hwf) as Hsq.
  assert (Hnew : square_matrix (Z.to_nat (grid_size (config self)))
                   (lines_back d (line_new (root_tile_value (config self)) d
                                    <$> lines_along d self))).
  { apply lines_back_square, square_matrix_fmap; [apply line_new_length|done]. }
  unfold slide_tiles, slid_any. unfold lines_along, lines_back in *.
  destruct (direction_in d [SlideDirection.UP; SlideDirection.DOWN]).
  - rewrite slide_each_column_any by done. cbn [mbind option_bind].
    rewrite set_tiles_square; [done|done|by apply tiles_square].
  - rewrite slide_each_row_any by done. cbn [mbind option_bind].
    rewrite set_tiles_square; [done|done|by apply tiles_square].
Qed.

(** X6: on a well-formed game slide_tiles never raises, in any direction
    (NONE included): it returns the movement matrix it stores, a square
    matrix of the board's size, leaves the game well-formed and touches
    only the grid, the score and the movement matrix. *)
Theorem slide_tiles_total (self : Game) (d : SlideDirection.t) :
  well_formed self →
  ∃ movement self',
    slide_tiles self d = Some (movement, self')
    ∧ well_formed self'
    ∧ movement_matrix self' = movement
    ∧ square_matrix (Z.to_nat (grid_size (config self))) movement
    ∧ config self' = config self
    ∧ init_mode self' = init_mode self
    ∧ latest_spawn_result self' = latest_spawn_result self
    ∧ latest_spawn_locations self' = latest_spawn_locations self.
Proof.
  intros Hwf. rewrite slide_tiles_any by done. do 2 eexists. split; [done|].
  pose proof (lines_along_square self d Hwf) as Hsq.
  split; [|split; [done|split; [|done]]].
  - unfold well_formed, slid_any. simpl.
    apply tiles_square, lines_back_square, square_matrix_fmap;
      [apply line_new_length|done].
  - apply lines_back_square, square_matrix_fmap; [apply line_moved_length|done].
Qed.

Lemma slide_tiles_total_witness :
  ∃ movement self',
    slide_tiles (game_of_values GameConfig_default loose_vals) SlideDirection.DOWN
      = Some (movement, self')
    ∧ well_formed self'
    ∧ movement_matrix self' = movement
    ∧ square_matrix 4 movement
    ∧ config self' = GameConfig_default
    ∧ init_mode self' = false
    ∧ latest_spawn_result self' = None
    ∧ latest_spawn_locations self' = [].
Proof.
  apply (slide_tiles_total (game_of_values GameConfig_default loose_vals)
           SlideDirection.DOWN).
  split; [reflexivity|]. simpl. repeat constructor.
Defined.
Lemma Zsum_cons x (l : list Z) : Zsum (x :: l) = x + Zsum l.
Proof. done. Qed.

Lemma Zsum_reverse (l : list Z) : Zsum (reverse l) = Zsum l.
Proof.
  induction l as [|x l IH]; [done|].
  rewrite reverse_cons, Zsum_app, IH, !Zsum_cons. unfold Zsum at 2. simpl. lia.
Qed.

Lemma heads_tails_sum n (m : list (list Z)) :
  Forall (λ row, length row = S n) m →
  ∃ hs, mapM head m = Some hs
        ∧ Zsum (Zsum <$> m) = Zsum hs + Zsum (Zsum <$> (tail <$> m))
        ∧ Forall (λ row, length row = n) (tail <$> m).
Proof.
  induction m as [|row m IH]; intros Hrows.
  - exists []. split; [done|]. split; [done|]. constructor.
  - apply Forall_cons_1 in Hrows as [Hrow Hrows].
    destruct (IH Hrows) as (hs & Hhs & Hsum & Htl).
    destruct row as [|x row]; [done|].
    exists (x :: hs). cbn [mapM]. cbn [head mbind option_bind]. rewrite Hhs.
    cbn [mbind option_bind mret option_ret]. split; [done|].
    rewrite !fmap_cons, !Zsum_cons, Hsum. cbn [tail].
    split; [lia|].
    apply Forall_cons_2; [|done]. simpl in Hrow. lia.
Qed.

Lemma zip_star_sum : ∀ n (m : list (list Z)),
  Forall (λ row, length row = n) m →
  Zsum (Zsum <$> ArrayHelper.zip_star n m) = Zsum (Zsum <$> m).
Proof.
  induction n as [|n IH]; intros m Hrows; simpl.
  - induction Hrows as [|row m Hrow _ IHm]; [done|].
    rewrite fmap_cons, Zsum_cons, <- IHm.
    destruct row; [done|]. done.
  - destruct (heads_tails_sum n m Hrows) as (hs & -> & Hsum & Htl).
    rewrite fmap_cons, Zsum_cons, (IH _ Htl). lia.
Qed.

Lemma transpose_columns_sum n (m : list (list Z)) :
  square_matrix n m →
  Zsum (Zsum <$> ArrayHelper.transpose_columns m) = Zsum (Zsum <$> m).
Proof.
  intros [Hlen Hrows]. unfold ArrayHelper.transpose_columns.
  destruct m as [|row m]; [done|].
  apply zip_star_sum. pose proof (Forall_cons_1 _ _ _ Hrows) as [-> _]. done.
Qed.

Lemma lines_back_sum n d (m : list (list Z)) :
  square_matrix n m → Zsum (Zsum <$> lines_back d m) = Zsum (Zsum <$> m).
Proof.
  intros Hsq. unfold lines_back.
  destruct (direction_in d _); [by apply (transpose_columns_sum n)|done].
Qed.

Lemma lines_along_sum (self : Game) d :
  well_formed self → Zsum (Zsum <$> lines_along d self) = tile_sum self.
Proof.
  intros Hwf. unfold lines_along, tile_sum.
  destruct (direction_in d _); [|done].
  by apply (transpose_columns_sum (Z.to_nat (grid_size (config self)))), grid_values_square.
Qed.

(** One line: what the slide does to the sum of its values. *)
Lemma line_new_sum root d (line : list Z) :
  root * Zsum (line_new root d line)
  = root * Zsum line + (root - 2) * line_gained root d line.
Proof.
  unfold line_new, line_gained, line_scan.
  destruct (reversed_direction d).
  - rewrite Zsum_reverse. rewrite (inv_sum _ _ _ _ (spec_slide_inv root (reverse line))).
    by rewrite Zsum_reverse.
  - by rewrite (inv_sum _ _ _ _ (spec_slide_inv root line)).
Qed.

Lemma lines_new_sum root d (lines : list (list Z)) :
  root * Zsum (Zsum <$> (line_new root d <$> lines))
  = root * Zsum (Zsum <$> lines) + (root - 2) * Zsum (line_gained root d <$> lines).
Proof.
  induction lines as [|line lines IH]; [unfold Zsum; simpl; lia|].
  rewrite !fmap_cons, !Zsum_cons.
  pose proof (line_new_sum root d line). lia.
Qed.

(** X7: a slide neither creates nor destroys tile value, except by merging:
    on a well-formed game, root_tile_value times the change of the sum of
    all tiles equals (root_tile_value - 2) times the score the slide adds.
    With the root tile value 2 of the standard game, the sum of the tiles on
    the board is the same before and after slide_tiles. *)
Theorem slide_tiles_tile_sum (self self' : Game) (d : SlideDirection.t)
    (movement : list (list Z)) :
  well_formed self →
  slide_tiles self d = Some (movement, self') →
  root_tile_value (config self) * (tile_sum self' - tile_sum self)
  = (root_tile_value (config self) - 2) * (score self' - score self)
  ∧ (root_tile_value (config self) = 2 → tile_sum self' = tile_sum self).
Proof.
  intros Hwf Hrun. rewrite slide_tiles_any in Hrun by done.
  injection Hrun as _ <-.
  pose proof (lines_along_square self d Hwf) as Hsq.
  assert (Hsum : tile_sum (slid_any d self)
                 = Zsum (Zsum <$> (line_new (root_tile_value (config self)) d
                                     <$> lines_along d self))).
  { unfold tile_sum, slid_any. simpl. rewrite grid_values_tiles.
    apply (lines_back_sum (Z.to_nat (grid_size (config self)))).
    apply square_matrix_fmap; [apply line_new_length|done]. }
  assert (Hscore : score (slid_any d self) - score self
                   = Zsum (line_gained (root_tile_value (config self)) d
                             <$> lines_along d self)).
  { unfold slid_any. simpl. lia. }
  pose proof (lines_new_sum (root_tile_value (config self)) d (lines_along d self)) as Hl.
  rewrite lines_along_sum in Hl by done.
  rewrite Hsum, Hscore. split; [rewrite Z.mul_sub_distr_l; lia|].
  intros Hroot. rewrite Hroot in *. lia.
Qed.

Lemma slide_tiles_tile_sum_witness :
  let self := game_of_values GameConfig_default power_vals in
  let self' := slid_any SlideDirection.UP self in
  2 * (tile_sum self' - tile_sum self) = (2 - 2) * (score self' - score self)
  ∧ (2 = 2 → tile_sum self' = tile_sum self).
Proof.
  apply (slide_tiles_tile_sum (game_of_values GameConfig_default power_vals)
           (slid_any SlideDirection.UP (game_of_values GameConfig_default power_vals))
           SlideDirection.UP
           [[0; 0; 0; 0]; [0; 0; 0; 0]; [0; 0; -1; 0]; [-3; -3; 0; -3]]).
  - split; [reflexivity|]. simpl. repeat constructor.
  - by vm_compute.
Defined.

(** X8: with a non-zero root tile value, _slide_helper leaves no gap: seen
    from the edge the slide moves to, no empty cell of the returned line
    comes before a tile. *)
Theorem slide_helper_packs (self self' : Game) (d : SlideDirection.t)
    (line new_line movement : list Z) :
  line ≠ [] →
  root_tile_value (config self) ≠ 0 →
  _slide_helper self d line = Some (new_line, movement, self') →
  packed (toward d new_line).
Proof.
  intros Hline Hroot Hrun. rewrite slide_helper_any in Hrun by done.
  injection Hrun as <- _ _.
  set (root := root_tile_value (config self)) in *.
  assert (Hout : toward d (line_new root d line) = out (line_scan root d line)).
  { unfold toward, line_new. destruct (reversed_direction d); [|done].
    by rewrite reverse_involutive. }
  rewrite Hout. unfold line_scan.
  set (l := if reversed_direction d then reverse line else line).
  pose proof (spec_slide_inv root l) as Hinv.
  intros j k x Hjk Hj Hk.
  destruct (decide (cursor (spec_scan root 0 l (spec_init (length l))) < k)%nat).
  - by apply (inv_after _ _ _ _ Hinv k).
  - exfalso. apply (inv_before _ _ _ _ Hinv Hroot j 0); [lia|done|done].
Qed.

Lemma slide_helper_packs_witness :
  packed (toward SlideDirection.RIGHT [0; 4; 4; 2]).
Proof.
  apply (slide_helper_packs (game_of_values GameConfig_default power_vals)
           (with_score (game_of_values GameConfig_default power_vals) 4)
           SlideDirection.RIGHT [2; 2; 4; 2] [0; 4; 4; 2] [1; 0; 0; 0]).
  - done.
  - done.
  - by vm_compute.
Defined.
(** X9: what the movement offsets of _slide_helper mean. An empty cell has
    offset 0. A tile found at index j has an offset m that points toward the
    edge of the slide (m <= 0 for LEFT, UP and NONE, m >= 0 for RIGHT and
    DOWN) and to a cell j + m inside the line; that cell of the returned
    line holds the tile's value or, if the tile took part in a merge, that
    value times root_tile_value: no tile merges twice in one slide. *)
Theorem slide_helper_movement (self self' : Game) (d : SlideDirection.t)
    (line new_line movement : list Z) :
  line ≠ [] →
  _slide_helper self d line = Some (new_line, movement, self') →
  ∀ j v, line !! j = Some v →
    ∃ m, movement !! j = Some m
         ∧ (v = 0 → m = 0)
         ∧ (v ≠ 0 →
            (if reversed_direction d then 0 ≤ m else m ≤ 0)
            ∧ ∃ t : nat,
                Z.of_nat t = Z.of_nat j + m
                ∧ (new_line !! t = Some v
                   ∨ new_line !! t = Some (v * root_tile_value (config self)))).
Proof.
  intros Hline Hrun j v Hj. rewrite slide_helper_any in Hrun by done.
  injection Hrun as <- <- _.
  set (root := root_tile_value (config self)) in *.
  unfold line_new, line_moved, line_scan.
  destruct (reversed_direction d).
  - pose proof (spec_slide_inv root (reverse line)) as Hinv.
    set (st := spec_scan root 0 (reverse line) (spec_init (length (reverse line)))) in *.
    pose proof (inv_out_length _ _ _ _ Hinv) as Hlo.
    pose proof (inv_moved_length _ _ _ _ Hinv) as Hlm.
    rewrite length_reverse in Hlo, Hlm.
    pose proof (lookup_lt_Some _ _ _ Hj) as Hjn.
    assert (Hj' : reverse line !! (length line - S j)%nat = Some v).
    { rewrite reverse_lookup by lia. rewrite <- Hj. f_equal. lia. }
    destruct (inv_visited _ _ _ _ Hinv _ _ Hj') as (m & Hm & Hz & Hnz).
    exists (- m). split; [|split].
    + rewrite list_lookup_fmap, reverse_lookup by lia. rewrite Hlm, Hm. done.
    + intros Hv. rewrite (Hz Hv). done.
    + intros Hv. destruct (Hnz Hv) as (Hb & t & Ht & Hdest). split; [lia|].
      assert (Hdest' : out st !! t = Some v ∨ out st !! t = Some (v * root)).
      { destruct Hdest as [[_ H]|[_ H]]; [done|by left]. }
      assert (Htn : (t < length line)%nat).
      { rewrite <- Hlo. destruct Hdest' as [H|H]; by apply lookup_lt_Some in H. }
      exists (length line - S t)%nat. split; [lia|].
      rewrite reverse_lookup by lia. rewrite Hlo.
      replace (length line - S (length line - S t))%nat with t by lia. done.
  - pose proof (spec_slide_inv root line) as Hinv.
    destruct (inv_visited _ _ _ _ Hinv _ _ Hj) as (m & Hm & Hz & Hnz).
    exists m. split; [done|]. split; [done|].
    intros Hv. destruct (Hnz Hv) as (Hb & t & Ht & Hdest). split; [lia|].
    exists t. split; [done|].
    destruct Hdest as [[_ H]|[_ H]]; [done|by left].
Qed.

Lemma slide_helper_movement_witness :
  ∃ m, [1; 0; 0; 0] !! 0%nat = Some m
       ∧ (2 = 0 → m = 0)
       ∧ (2 ≠ 0 →
          (if reversed_direction SlideDirection.RIGHT then 0 ≤ m else m ≤ 0)
          ∧ ∃ t : nat,
              Z.of_nat t = Z.of_nat 0 + m
              ∧ ([0; 4; 4; 2] !! t = Some 2 ∨ [0; 4; 4; 2] !! t = Some (2 * 2))).
Proof.
  apply (slide_helper_movement (game_of_values GameConfig_default power_vals)
           (with_score (game_of_values GameConfig_default power_vals) 4)
           SlideDirection.RIGHT [2; 2; 4; 2] [0; 4; 4; 2] [1; 0; 0; 0]).
  - done.
  - by vm_compute.
  - done.
Defined.

Lemma entry_grid_values (g : list (list Tile)) c r :
  entry (grid_values g) c r = value <$> Grid.get g c r.
Proof.
  unfold entry, Grid.get, grid_values. rewrite list_lookup_fmap.
  destruct (g !! r) as [row|]; simpl; [|done]. by rewrite list_lookup_fmap.
Qed.

Lemma lines_along_entry (self : Game) d k j :
  well_formed self →
  (k < Z.to_nat (grid_size (config self)))%nat →
  (j < Z.to_nat (grid_size (config self)))%nat →
  entry (lines_along d self) j k
  = value <$> Grid.get (grid self) (line_cell d k j).1 (line_cell d k j).2.
Proof.
  intros Hwf Hk Hj. unfold lines_along, line_cell.
  destruct (direction_in d _); simpl.
  - rewrite (transpose_columns_entry (Z.to_nat (grid_size (config self))));
      [apply entry_grid_values|by apply grid_values_square|done|done].
  - apply entry_grid_values.
Qed.

(** Every element of every line is the value of a tile of the board. *)
Lemma lines_along_values (self : Game) d k line j x :
  well_formed self →
  lines_along d self !! k = Some line → line !! j = Some x →
  ∃ tile, Grid.get (grid self) (line_cell d k j).1 (line_cell d k j).2 = Some tile
          ∧ value tile = x.
Proof.
  intros Hwf Hline Hx.
  pose proof (lines_along_square self d Hwf) as [Hlen Hrows].
  pose proof (proj1 (Forall_lookup _ _) Hrows k line Hline) as Hl. simpl in Hl.
  pose proof (lookup_lt_Some _ _ _ Hline) as Hk.
  pose proof (lookup_lt_Some _ _ _ Hx) as Hj.
  assert (He : entry (lines_along d self) j k = Some x).
  { unfold entry. rewrite Hline. done. }
  rewrite lines_along_entry in He by (done || lia).
  destruct (Grid.get _ _ _) as [tile|]; [|done].
  exists tile. split; [done|]. by injection He.
Qed.

Lemma spec_visit_gained root st i v :
  0 ≤ v * root → gained st ≤ gained (spec_visit root st i v).
Proof. intros Hv. unfold spec_visit. repeat case_match; simpl; lia. Qed.

Lemma spec_scan_gained root : ∀ vs i st,
  Forall (λ v, 0 ≤ v * root) vs → gained st ≤ gained (spec_scan root i vs st).
Proof.
  induction vs as [|v vs IH]; intros i st Hvs; simpl; [lia|].
  apply Forall_cons_1 in Hvs as [Hv Hvs].
  pose proof (spec_visit_gained root st i v Hv).
  pose proof (IH (S i) (spec_visit root st i v) Hvs). lia.
Qed.

Lemma line_gained_nonneg root d (line : list Z) :
  0 ≤ root → Forall (λ v, 0 ≤ v) line → 0 ≤ line_gained root d line.
Proof.
  intros Hroot Hline. unfold line_gained, line_scan.
  apply (spec_scan_gained root _ 0%nat (spec_init _)).
  assert (H : Forall (λ v, 0 ≤ v * root) line).
  { eapply Forall_impl; [exact Hline|]. simpl. intros v Hv. nia. }
  destruct (reversed_direction d); [by apply Forall_reverse|done].
Qed.

Lemma Zsum_nonneg (l : list Z) : Forall (λ x, 0 ≤ x) l → 0 ≤ Zsum l.
Proof.
  induction 1 as [|x l Hx _ IH]; [done|]. rewrite Zsum_cons. lia.
Qed.

Lemma distinct_neighbours_lookup (l : list Z) :
  (∀ j x y, l !! j = Some x → l !! S j = Some y → x ≠ y) →
  distinct_neighbours l = true.
Proof.
  induction l as [|x l IH]; intros Hl; [done|].
  destruct l as [|y l]; [done|].
  change (negb (x =? y) && distinct_neighbours (y :: l) = true).
  apply andb_true_iff. split.
  - apply negb_true_iff, Z.eqb_neq. by apply (Hl 0%nat).
  - apply IH. intros j a b Ha Hb. by apply (Hl (S j)).
Qed.

Lemma compact_full (l : list Z) : Forall (λ x, x ≠ 0) l → compact l = l.
Proof.
  intros Hl. unfold compact. rewrite nonzeros_id by done.
  by rewrite Nat.sub_diag, app_nil_r.
Qed.

Lemma line_values_full d (l : list Z) : Forall (λ x, x ≠ 0) l → line_values d l = l.
Proof.
  intros Hl. unfold line_values. destruct (reversed_direction d).
  - rewrite compact_full by (by apply Forall_reverse). apply reverse_involutive.
  - by apply compact_full.
Qed.

(** On a board where [can_play] finds nothing, every line is full and no
    two neighbours of a line are equal. *)
Lemma blocked_lines (self : Game) d k line :
  well_formed self → can_play self = Some false →
  lines_along d self !! k = Some line →
  Forall (λ x, x ≠ 0) line ∧ merge_free line = true.
Proof.
  intros Hwf Hplay Hline.
  rewrite can_play_cells in Hplay by done. injection Hplay as Hplay.
  assert (Hcell : ∀ c r tile, Grid.get (grid self) c r = Some tile →
            playable_cell (grid self) c r = false).
  { intros c r tile Hget.
    destruct (proj1 (square_get _ _ c r Hwf)) as [Hc Hr]; [by eexists|].
    destruct (playable_cell (grid self) c r) eqn:Hp; [|done].
    rewrite <- Hplay. symmetry. apply existsb_elem_of. exists r.
    split; [by apply elem_of_range|].
    apply existsb_elem_of. exists c.
    split; [by apply elem_of_range|done]. }
  assert (Hfull : Forall (λ x, x ≠ 0) line).
  { apply Forall_lookup. intros j x Hx.
    destruct (lines_along_values self d k line j x Hwf Hline Hx) as (tile & Ht & <-).
    pose proof (Hcell _ _ _ Ht) as Hp. unfold playable_cell in Hp. rewrite Ht in Hp.
    apply orb_false_iff in Hp as [Hp _]. by apply Z.eqb_neq. }
  split; [done|]. unfold merge_free. rewrite nonzeros_id by done.
  apply distinct_neighbours_lookup. intros j x y Hx Hy.
  destruct (lines_along_values self d k line j x Hwf Hline Hx) as (tile & Ht & <-).
  destruct (lines_along_values self d k line (S j) y Hwf Hline Hy) as (tile' & Ht' & <-).
  pose proof (Hcell _ _ _ Ht) as Hp. unfold playable_cell in Hp. rewrite Ht in Hp.
  apply orb_false_iff in Hp as [_ Hp].
  intros Heq.
  assert (Hex : existsb (λ neighbor, value neighbor =? value tile)
                  (Grid.get_adjacent (grid self) (line_cell d k j).1 (line_cell d k j).2)
                = true); [|by rewrite Hex in Hp].
  apply existsb_elem_of. exists tile'. split; [|by apply Z.eqb_eq].
  apply elem_of_get_adjacent.
  exists (line_cell d k (S j)).1, (line_cell d k (S j)).2. split; [|done].
  unfold adjacent, line_cell. destruct (direction_in d _); simpl; [left|right]; auto.
Qed.

(** X10: when can_play returns False, no slide changes anything: on a
    well-formed game slide_tiles, in whatever direction, leaves the values of
    the grid and the score as they are and returns an all-zero movement
    matrix. *)
Theorem blocked_board_stays (self : Game) (d : SlideDirection.t) :
  well_formed self →
  can_play self = Some false →
  ∃ movement self',
    slide_tiles self d = Some (movement, self')
    ∧ grid_values (grid self') = grid_values (grid self)
    ∧ score self' = score self
    ∧ movement = replicate (Z.to_nat (grid_size (config self)))
                   (replicate (Z.to_nat (grid_size (config self))) 0).
Proof.
  intros Hwf Hplay.
  pose proof (lines_along_square self d Hwf) as Hsq.
  assert (Hfree : Forall (λ line, merge_free line = true) (lines_along d self)).
  { apply Forall_lookup. intros k line Hline.
    by destruct (blocked_lines self d k line Hwf Hplay Hline). }
  assert (Hvals : line_values d <$> lines_along d self = lines_along d self).
  { rewrite <- (list_fmap_id (lines_along d self)) at 2.
    apply list_fmap_ext. intros k line Hline. simpl.
    apply line_values_full. by destruct (blocked_lines self d k line Hwf Hplay Hline). }
  rewrite slide_tiles_merge_free by done. do 2 eexists. split; [done|].
  split; [|split; [done|]].
  - unfold slid. simpl. rewrite grid_values_tiles, Hvals.
    unfold lines_along, lines_back.
    destruct (direction_in d _); [|done].
    apply (transpose_columns_involutive (Z.to_nat (grid_size (config self)))).
    by apply grid_values_square.
  - rewrite <- Hvals at 1. rewrite <- list_fmap_compose.
    rewrite (const_fmap _ _ (replicate (Z.to_nat (grid_size (config self))) 0)).
    + destruct Hsq as [-> _]. unfold lines_back.
      destruct (direction_in d _); [apply transpose_columns_replicate|done].
    + intros k line Hline. simpl. rewrite line_offsets_settled.
      destruct Hsq as [_ Hrows].
      by rewrite (proj1 (Forall_lookup _ _) Hrows k line Hline).
Qed.

Lemma blocked_board_stays_witness :
  ∃ movement self',
    slide_tiles (game_of_values GameConfig_default full_tile_vals) SlideDirection.DOWN
      = Some (movement, self')
    ∧ grid_values (grid self') = full_tile_vals
    ∧ score self' = 0
    ∧ movement = replicate 4 (replicate 4 0).
Proof.
  apply (blocked_board_stays (game_of_values GameConfig_default full_tile_vals)
           SlideDirection.DOWN).
  - split; [reflexivity|]. simpl. repeat constructor.
  - by vm_compute.
Defined.

Lemma ascending_snoc (l : list (nat * nat)) pos :
  ascending l → Forall (λ p, row_major p pos) l → ascending (l ++ [pos]).
Proof.
  induction l as [|p l IH]; intros Hl Hpos; simpl.
  - split; [constructor|done].
  - destruct Hl as [Hp Hl]. apply Forall_cons_1 in Hpos as [Hppos Hpos].
    split; [|by apply IH].
    apply Forall_app_2; [done|]. by apply Forall_cons_2; [|constructor].
Qed.

Lemma ascending_NoDup (l : list (nat * nat)) : ascending l → NoDup l.
Proof.
  induction l as [|p l IH]; intros Hl; [constructor|].
  destruct Hl as [Hp Hl]. constructor; [|by apply IH].
  intros Hin. pose proof (proj1 (Forall_forall _ _) Hp p Hin) as Hlt.
  unfold row_major in Hlt. lia.
Qed.

(** The two loops of [get_empty_tiles]. *)
Lemma get_empty_tiles_spec (self : Game) :
  well_formed self →
  ∃ empty_tiles,
    get_empty_tiles self = Some empty_tiles
    ∧ (∀ pos, pos ∈ empty_tiles ↔ empty_at (grid self) pos)
    ∧ ascending empty_tiles
    ∧ NoDup empty_tiles.
Proof.
  intros Hwf. set (n := Z.to_nat (grid_size (config self))).
  pose (Q (r c : nat) (acc : list (nat * nat)) :=
    (∀ pos, pos ∈ acc ↔
       empty_at (grid self) pos ∧ (pos.2 < r ∨ (pos.2 = r ∧ pos.1 < c))%nat)
    ∧ ascending acc).
  assert (Hloop : ∃ acc, get_empty_tiles self = Some acc ∧ Q n 0%nat acc).
  { unfold get_empty_tiles.
    apply (for_each_range_inv (λ r acc, Q r 0%nat acc)).
    - split; [|done]. intros pos. split; [by intros ?%elem_of_nil|]. intros [_ ?]. lia.
    - intros r acc Hr Hacc.
      assert (Hrow : ∃ acc', for_each (range (grid_size (config self)))
                (λ c empty_tiles,
                   tile ← Grid.get (grid self) c r;
                   Some (if value tile =? 0 then empty_tiles ++ [(c, r)] else empty_tiles))
                acc = Some acc' ∧ Q r n acc').
      { apply (for_each_range_inv (λ c acc, Q r c acc)); [done|].
        intros c acc' Hc [Hmem Hasc].
        destruct (proj2 (square_get _ _ c r Hwf)) as [tile Ht]; [done|].
        rewrite Ht. simpl. eexists. split; [done|].
        destruct (Z.eqb_spec (value tile) 0) as [Hv|Hv]; split.
        - intros pos. rewrite elem_of_app, list_elem_of_singleton, Hmem.
          split.
          + intros [[He Hlt]| ->]; [split; [done|lia]|].
            split; [by exists tile|]. simpl. lia.
          + intros [He Hlt].
            destruct (decide (pos = (c, r))) as [->|Hne]; [by right|left].
            split; [done|]. destruct pos as [c' r']. simpl in *.
            assert (¬ (r' = r ∧ c' = c)) by (intros [-> ->]; done). lia.
        - apply ascending_snoc; [done|]. apply Forall_forall. intros pos Hpos.
          apply Hmem in Hpos as [_ Hlt]. unfold row_major. simpl. lia.
        - intros pos. rewrite Hmem. split.
          + intros [He Hlt]. split; [done|lia].
          + intros [He Hlt]. split; [done|].
            destruct (decide (pos = (c, r))) as [->|Hne].
            * destruct He as (tile' & Ht' & Hv'). simpl in Ht'.
              rewrite Ht in Ht'. by injection Ht' as <-.
            * destruct pos as [c' r']. simpl in *.
              assert (¬ (r' = r ∧ c' = c)) by (intros [-> ->]; done). lia.
        - done. }
      destruct Hrow as (acc' & Hrun & [Hmem Hasc]). exists acc'. split; [done|].
      split; [|done]. intros pos. rewrite Hmem. split.
      + intros [He Hlt]. split; [done|]. lia.
      + intros [He Hlt]. split; [done|].
        destruct He as (tile & Ht & _).
        destruct (proj1 (square_get _ _ pos.1 pos.2 Hwf)) as [Hc _]; [by eexists|].
        fold n in Hc. lia. }
  destruct Hloop as (acc & Hrun & Hmem & Hasc). exists acc. split; [done|].
  split; [|split; [done|by apply ascending_NoDup]].
  intros pos. rewrite Hmem. split; [by intros [? _]|]. intros He. split; [done|].
  destruct He as (tile & Ht & _).
  destruct (proj1 (square_get _ _ pos.1 pos.2 Hwf)) as [_ Hr]; [by eexists|].
  fold n in Hr. lia.
Qed.

(** X11: on a well-formed game get_empty_tiles returns exactly the cells
    (c, r) of the board that hold 0, each once, rows first and by column
    within a row. *)
Theorem get_empty_tiles_exact (self : Game) :
  well_formed self →
  ∃ empty_tiles,
    get_empty_tiles self = Some empty_tiles
    ∧ (∀ pos, pos ∈ empty_tiles ↔ empty_at (grid self) pos)
    ∧ ascending empty_tiles
    ∧ NoDup empty_tiles.
Proof. exact (get_empty_tiles_spec self). Qed.

Lemma get_empty_tiles_exact_witness :
  ∃ empty_tiles,
    get_empty_tiles (game_of_values GameConfig_default full_tile_vals) = Some empty_tiles
    ∧ (∀ pos, pos ∈ empty_tiles
              ↔ empty_at (grid (game_of_values GameConfig_default full_tile_vals)) pos)
    ∧ ascending empty_tiles
    ∧ NoDup empty_tiles.
Proof.
  apply (get_empty_tiles_exact (game_of_values GameConfig_default full_tile_vals)).
  split; [reflexivity|]. simpl. repeat constructor.
Defined.

Lemma returns_false_existsb {A} (xs : list A) (body : A → option bool) (f : A → bool) :
  (∀ x, x ∈ xs → body x = Some (f x)) →
  returns_false xs body = Some (negb (existsb f xs)).
Proof.
  induction xs as [|x xs IH]; intros Hbody; simpl; [done|].
  rewrite (Hbody x) by apply list_elem_of_here. simpl.
  destruct (f x); simpl; [done|].
  apply IH. intros y Hy. apply Hbody. by apply list_elem_of_further.
Qed.

(** [board_full] as a test over the cells. *)
Lemma board_full_cells (self : Game) :
  well_formed self →
  board_full self
  = Some (negb (existsb (λ r, existsb (λ c, match Grid.get (grid self) c r with
                                           | Some tile => value tile =? 0
                                           | None => false
                                           end)
                                (range (grid_size (config self))))
                  (range (grid_size (config self))))).
Proof.
  intros Hwf. unfold board_full.
  apply returns_false_existsb. intros r Hr.
  rewrite (returns_false_existsb _ _
             (λ c, match Grid.get (grid self) c r with
                   | Some tile => value tile =? 0
                   | None => false
                   end)).
  - simpl. by rewrite negb_involutive.
  - intros c Hc. apply elem_of_range in Hr, Hc.
    destruct (proj2 (square_get _ _ c r Hwf)) as [tile Ht]; [done|].
    by rewrite Ht.
Qed.

Lemma board_full_empty_at (self : Game) :
  well_formed self →
  ∃ full, board_full self = Some full
          ∧ (full = false ↔ ∃ pos, empty_at (grid self) pos).
Proof.
  intros Hwf. rewrite board_full_cells by done. eexists. split; [done|].
  rewrite negb_false_iff, existsb_elem_of. split.
  - intros (r & Hr & Hex). apply existsb_elem_of in Hex as (c & Hc & Hcell).
    exists (c, r). unfold empty_at. simpl.
    destruct (Grid.get (grid self) c r) as [tile|]; [|done].
    exists tile. split; [done|]. by apply Z.eqb_eq.
  - intros ([c r] & tile & Ht & Hv). simpl in Ht.
    destruct (proj1 (square_get _ _ c r Hwf)) as [Hc Hr]; [by eexists|].
    exists r. split; [by apply elem_of_range|].
    apply existsb_elem_of. exists c. split; [by apply elem_of_range|].
    rewrite Ht. by apply Z.eqb_eq.
Qed.

(** X12: on a well-formed game board_full returns True exactly when no cell
    of the board holds 0, that is exactly when get_empty_tiles returns the
    empty list; and a board that is not full can always be played: can_play
    returns True. *)
Theorem board_full_iff (self : Game) :
  well_formed self →
  ∃ full,
    board_full self = Some full
    ∧ (full = true ↔
       ∀ c r tile, Grid.get (grid self) c r = Some tile → value tile ≠ 0)
    ∧ (full = true ↔ get_empty_tiles self = Some [])
    ∧ (full = false → can_play self = Some true).
Proof.
  intros Hwf.
  destruct (board_full_empty_at self Hwf) as (full & Hrun & Hfull).
  exists full. split; [done|].
  assert (Hnone : full = true ↔ ¬ ∃ pos, empty_at (grid self) pos).
  { rewrite <- Hfull. by destruct full. }
  split; [|split].
  - rewrite Hnone. split.
    + intros Hno c r tile Ht Hv. apply Hno. exists (c, r). by exists tile.
    + intros Hall ([c r] & tile & Ht & Hv). by apply (Hall c r tile).
  - destruct (get_empty_tiles_spec self Hwf) as (empty & -> & Hmem & _).
    rewrite Hnone. split.
    + intros Hno. f_equal. destruct empty as [|pos empty]; [done|].
      exfalso. apply Hno. exists pos. apply Hmem. apply list_elem_of_here.
    + intros [= ->] (pos & Hpos). apply Hmem in Hpos. by apply elem_of_nil in Hpos.
  - intros Hf. apply Hfull in Hf as ([c r] & tile & Ht & Hv). simpl in Ht.
    rewrite can_play_cells by done. f_equal.
    destruct (proj1 (square_get _ _ c r Hwf)) as [Hc Hr]; [by eexists|].
    apply existsb_elem_of. exists r. split; [by apply elem_of_range|].
    apply existsb_elem_of. exists c. split; [by apply elem_of_range|].
    unfold playable_cell. rewrite Ht. apply orb_true_iff. left. by apply Z.eqb_eq.
Qed.

Lemma board_full_iff_witness :
  ∃ full,
    board_full (game_of_values GameConfig_default power_vals) = Some full
    ∧ (full = true ↔
       ∀ c r tile,
         Grid.get (grid (game_of_values GameConfig_default power_vals)) c r = Some tile →
         value tile ≠ 0)
    ∧ (full = true ↔ get_empty_tiles (game_of_values GameConfig_default power_vals) = Some [])
    ∧ (full = false → can_play (game_of_values GameConfig_default power_vals) = Some true).
Proof.
  apply (board_full_iff (game_of_values GameConfig_default power_vals)).
  split; [reflexivity|]. simpl. repeat constructor.
Defined.

(** X13: on a well-formed game get_highest_tile returns the largest tile
    value of the board, or 0 when no tile is above 0: the result is at least
    0 and at least every tile, and it is 0 or the value of some tile. *)
Theorem get_highest_tile_max (self : Game) :
  well_formed self →
  ∃ highest,
    get_highest_tile self = Some highest
    ∧ 0 ≤ highest
    ∧ (∀ c r tile, Grid.get (grid self) c r = Some tile → value tile ≤ highest)
    ∧ (highest = 0
       ∨ ∃ c r tile, Grid.get (grid self) c r = Some tile ∧ value tile = highest).
Proof.
  intros Hwf. set (n := Z.to_nat (grid_size (config self))).
  pose (Q (r c : nat) (h : Z) :=
    0 ≤ h
    ∧ (∀ c' r' tile, (r' < r ∨ (r' = r ∧ c' < c))%nat → (c' < n)%nat →
         Grid.get (grid self) c' r' = Some tile → value tile ≤ h)
    ∧ (h = 0 ∨ ∃ c' r' tile, Grid.get (grid self) c' r' = Some tile ∧ value tile = h)).
  assert (Hloop : ∃ h, get_highest_tile self = Some h ∧ Q n 0%nat h).
  { unfold get_highest_tile.
    apply (for_each_range_inv (λ r h, Q r 0%nat h)).
    - split; [done|]. split; [|by left]. intros c' r' tile Hlt. lia.
    - intros r h Hr Hh.
      assert (Hrow : ∃ h', for_each (range (grid_size (config self)))
                (λ c highest_tile,
                   tile ← Grid.get (grid self) c r;
                   Some (if highest_tile <? value tile then value tile else highest_tile))
                h = Some h' ∧ Q r n h').
      { apply (for_each_range_inv (λ c h, Q r c h)); [done|].
        intros c h' Hc (Hpos & Hmax & Hhit).
        destruct (proj2 (square_get _ _ c r Hwf)) as [tile Ht]; [done|].
        rewrite Ht. simpl. eexists. split; [done|].
        assert (Hcase : ∀ c' r' tile', (r' < r ∨ (r' = r ∧ c' < S c))%nat → (c' < n)%nat →
                  Grid.get (grid self) c' r' = Some tile' →
                  value tile' ≤ h' ∨ tile' = tile).
        { intros c' r' tile' Hlt Hc' Ht'.
          destruct (decide (r' = r ∧ c' = c)) as [[-> ->]|Hne].
          - right. rewrite Ht in Ht'. by injection Ht'.
          - left. apply (Hmax c' r' tile'); [lia|done|done]. }
        destruct (Z.ltb_spec h' (value tile)) as [Hlt|Hge].
        - split; [lia|]. split.
          + intros c' r' tile' Hlt' Hc' Ht'.
            destruct (Hcase c' r' tile' Hlt' Hc' Ht') as [?| ->]; lia.
          + right. by exists c, r, tile.
        - split; [done|]. split; [|done].
          intros c' r' tile' Hlt' Hc' Ht'.
          destruct (Hcase c' r' tile' Hlt' Hc' Ht') as [?| ->]; lia. }
      destruct Hrow as (h' & Hrun & Hpos & Hmax & Hhit). exists h'. split; [done|].
      split; [done|]. split; [|done].
      intros c' r' tile Hlt Hc'. apply Hmax; [lia|done]. }
  destruct Hloop as (h & Hrun & Hpos & Hmax & Hhit). exists h.
  split; [done|]. split; [done|]. split; [|done].
  intros c r tile Ht.
  destruct (proj1 (square_get _ _ c r Hwf)) as [Hc Hr]; [by eexists|].
  apply (Hmax c r tile); [fold n in Hr; lia|done|done].
Qed.

Lemma get_highest_tile_max_witness :
  ∃ highest,
    get_highest_tile (game_of_values GameConfig_default full_tile_vals) = Some highest
    ∧ 0 ≤ highest
    ∧ (∀ c r tile,
         Grid.get (grid (game_of_values GameConfig_default full_tile_vals)) c r = Some tile →
         value tile ≤ highest)
    ∧ (highest = 0
       ∨ ∃ c r tile,
           Grid.get (grid (game_of_values GameConfig_default full_tile_vals)) c r = Some tile
           ∧ value tile = highest).
Proof.
  apply (get_highest_tile_max (game_of_values GameConfig_default full_tile_vals)).
  split; [reflexivity|]. simpl. repeat constructor.
Defined.

Lemma get_new_tile_value (self : Game) (rng : Rng) :
  ((_get_new_tile self rng).1 = Tile_of (root_tile_value (config self))
   ∨ (_get_new_tile self rng).1
     = Tile_of (root_tile_value (config self) * root_tile_value (config self)))
  ∧ rand_draws (_get_new_tile self rng).2 = rand_draws rng
  ∧ rand_pos (_get_new_tile self rng).2 = S (rand_pos rng)
  ∧ randint_draws (_get_new_tile self rng).2 = randint_draws rng
  ∧ randint_pos (_get_new_tile self rng).2 = randint_pos rng.
Proof.
  unfold _get_new_tile, _get_new_tile_value, np_random_rand.
  destruct (init_mode self); [destruct (mutation_at_start (config self) && _)|];
    simpl; [by auto..|].
  destruct (negb _); simpl; by auto.
Qed.

Lemma spawn_new_tile_spec (self : Game) (rng : Rng) :
  well_formed self →
  ∃ pos g rng',
    _spawn_new_tile self rng = Some (pos, with_grid self g, rng')
    ∧ Grid.square (Z.to_nat (grid_size (config self))) g
    ∧ spawned (root_tile_value (config self)) (grid self) g pos
    ∧ rand_pos rng' = S (rand_pos rng)
    ∧ randint_pos rng' = (if pos is Some _ then S (randint_pos rng) else randint_pos rng).
Proof.
  intros Hwf. unfold _spawn_new_tile.
  pose proof (get_new_tile_value self rng) as (Hval & _ & Hrand & _ & Hint).
  destruct (_get_new_tile self rng) as [new_tile rng1]. simpl in Hval, Hrand, Hint.
  unfold _get_random_empty_tile.
  destruct (get_empty_tiles_spec self Hwf) as (empty & Hempty & Hmem & _).
  rewrite Hempty. cbn [mbind option_bind].
  destruct (decide (empty = [])) as [->|Hne].
  - simpl. exists None, (grid self), rng1. split; [by destruct self|].
    split; [done|]. split; [|done]. split; [done|].
    intros (p & Hp). apply Hmem in Hp. by apply elem_of_nil in Hp.
  - rewrite bool_decide_eq_false_2 by done.
    destruct (random_randint 0 (Z.of_nat (length empty) - 1) rng1) as [idx rng2] eqn:Hdraw.
    assert (Hidx : 0 ≤ idx < Z.of_nat (length empty)).
    { unfold random_randint in Hdraw. injection Hdraw as <- _.
      assert (0 < Z.of_nat (length empty)) by (destruct empty; simpl; [done|lia]).
      pose proof (Z.mod_pos_bound
                    (Z.of_nat (randint_draws rng1 (randint_pos rng1)))
                    (Z.of_nat (length empty) - 1 - 0 + 1)). lia. }
    assert (Hrng2 : rand_pos rng2 = rand_pos rng1 ∧ randint_pos rng2 = S (randint_pos rng1)).
    { unfold random_randint in Hdraw. by injection Hdraw as _ <-. }
    simpl. rewrite py_getitem_nonneg by done.
    destruct (lookup_lt_is_Some_2 empty (Z.to_nat idx)) as [[c r] Hpos]; [lia|].
    rewrite Hpos. simpl.
    assert (He : empty_at (grid self) (c, r)).
    { apply Hmem. by eapply list_elem_of_lookup_2. }
    destruct (proj1 (square_get _ _ c r Hwf)) as [Hc Hr].
    { destruct He as (tile & Ht & _). by exists tile. }
    destruct (grid_set_square _ (grid self) c r new_tile Hwf Hc Hr)
      as (g' & Hset & Hg' & Hnew & Hothers).
    rewrite Hset. simpl. exists (Some (c, r)), g', rng2.
    split; [done|]. split; [done|]. split; [|lia].
    split; [done|]. split; [|done].
    exists new_tile. split; [done|]. by destruct Hval as [-> | ->]; [left|right].
Qed.

(** X14: one spawn on a well-formed game. _spawn_new_tile draws the tile's
    value first, whether or not there is room for it. If no cell is empty it
    returns None and leaves the game as it is, without drawing a position;
    otherwise it returns an empty cell (c, r), puts there a tile worth
    root_tile_value or its square, leaves every other cell and every other
    field alone, and the game stays well-formed. *)
Theorem spawn_new_tile_places (self : Game) (rng : Rng) :
  well_formed self →
  ∃ pos self' rng',
    _spawn_new_tile self rng = Some (pos, self', rng')
    ∧ well_formed self'
    ∧ self' = with_grid self (grid self')
    ∧ spawned (root_tile_value (config self)) (grid self) (grid self') pos
    ∧ (pos = None ↔ board_full self = Some true)
    ∧ rand_pos rng' = S (rand_pos rng)
    ∧ randint_pos rng' = (if pos is Some _ then S (randint_pos rng) else randint_pos rng).
Proof.
  intros Hwf.
  destruct (spawn_new_tile_spec self rng Hwf) as (pos & g & rng' & Hrun & Hg & Hsp & Hr).
  exists pos, (with_grid self g), rng'. split; [done|]. split; [done|].
  split; [done|]. split; [done|]. split; [|done].
  destruct (board_full_empty_at self Hwf) as (full & -> & Hfull).
  destruct pos as [[c r]|]; simpl in Hsp.
  - destruct Hsp as (He & _). split; [done|]. intros [= ->].
    assert (true = false); [|done]. apply Hfull. by exists (c, r).
  - destruct Hsp as [_ Hno]. split; [|done]. intros _. f_equal.
    destruct full; [done|]. exfalso. by apply Hno, Hfull.
Qed.

Lemma spawn_new_tile_places_witness :
  ∃ pos self' rng',
    _spawn_new_tile (game_of_values GameConfig_default power_vals) rng_example
      = Some (pos, self', rng')
    ∧ well_formed self'
    ∧ self' = with_grid (game_of_values GameConfig_default power_vals) (grid self')
    ∧ spawned 2 (grid (game_of_values GameConfig_default power_vals)) (grid self') pos
    ∧ (pos = None ↔ board_full (game_of_values GameConfig_default power_vals) = Some true)
    ∧ rand_pos rng' = S (rand_pos rng_example)
    ∧ randint_pos rng'
      = (if pos is Some _ then S (randint_pos rng_example) else randint_pos rng_example).
Proof.
  apply (spawn_new_tile_places (game_of_values GameConfig_default power_vals) rng_example).
  split; [reflexivity|]. simpl. repeat constructor.
Defined.

Lemma slide_tiles_frame (self : Game) (d : SlideDirection.t) :
  well_formed self →
  ∃ movement self',
    slide_tiles self d = Some (movement, self')
    ∧ well_formed self'
    ∧ movement_matrix self' = movement
    ∧ config self' = config self
    ∧ latest_spawn_result self' = latest_spawn_result self
    ∧ latest_spawn_locations self' = latest_spawn_locations self.
Proof.
  intros Hwf. rewrite slide_tiles_any by done. do 2 eexists. split; [done|].
  split; [|done]. unfold well_formed, slid_any. simpl.
  apply tiles_square, lines_back_square, square_matrix_fmap;
    [apply line_new_length|by apply lines_along_square].
Qed.

Lemma empty_count_spec (self : Game) :
  well_formed self →
  ∃ empty, get_empty_tiles self = Some empty
           ∧ empty_count self = length empty
           ∧ (∀ pos, pos ∈ empty ↔ empty_at (grid self) pos)
           ∧ NoDup empty.
Proof.
  intros Hwf. destruct (get_empty_tiles_spec self Hwf) as (empty & Hrun & Hmem & _ & Hnd).
  exists empty. unfold empty_count. by rewrite Hrun.
Qed.

Lemma empty_count_zero (self : Game) :
  well_formed self → (empty_count self = 0%nat ↔ ¬ ∃ p, empty_at (grid self) p).
Proof.
  intros Hwf. destruct (empty_count_spec self Hwf) as (empty & _ & -> & Hmem & _).
  split.
  - intros Hlen (p & Hp). apply Hmem in Hp.
    apply length_zero_iff_nil in Hlen. subst. by apply elem_of_nil in Hp.
  - intros Hno. destruct empty as [|p empty]; [done|].
    exfalso. apply Hno. exists p. apply Hmem, list_elem_of_here.
Qed.

(** A spawn that finds a cell fills it when the root tile value is not 0:
    one empty cell less. *)
Lemma spawned_count (self : Game) (g : list (list Tile)) c r :
  well_formed self →
  Grid.square (Z.to_nat (grid_size (config self))) g →
  root_tile_value (config self) ≠ 0 →
  spawned (root_tile_value (config self)) (grid self) g (Some (c, r)) →
  empty_count self = S (empty_count (with_grid self g)).
Proof.
  intros Hwf Hg Hroot (He & (tile & Ht & Hv) & Hothers).
  destruct (empty_count_spec self Hwf) as (e & _ & -> & Hmem & Hnd).
  destruct (empty_count_spec (with_grid self g) Hg) as (e' & _ & -> & Hmem' & Hnd').
  simpl in Hmem'.
  assert (Hnot : (c, r) ∉ e').
  { intros Hin. apply Hmem' in Hin as (tile' & Ht' & Hv'). simpl in Ht'.
    rewrite Ht in Ht'. injection Ht' as <-. nia. }
  change (length e = length ((c, r) :: e')). apply Permutation_length.
  apply NoDup_Permutation; [done|by constructor|].
  intros [c' r']. rewrite elem_of_cons, Hmem, Hmem'. unfold empty_at. simpl.
  destruct (decide ((c', r') = (c, r))) as [[= -> ->]|Hne].
  - split; [by left|]. intros _. exact He.
  - rewrite (Hothers c' r' Hne). split; [by right|]. by intros [?|?].
Qed.

Lemma spawned_tiles_added (self : Game) (g : list (list Tile)) pos :
  spawned (root_tile_value (config self)) (grid self) g pos →
  tiles_added self (with_grid self g).
Proof.
  intros Hsp c' r' tile' Ht'. simpl in Ht'. destruct pos as [[c r]|]; simpl in Hsp.
  - destruct Hsp as (He & (tile & Ht & Hv) & Hothers).
    destruct (decide ((c', r') = (c, r))) as [[= -> ->]|Hne].
    + right. split; [done|]. rewrite Ht in Ht'. by injection Ht' as <-.
    + left. by rewrite <- (Hothers c' r' Hne).
  - destruct Hsp as [-> _]. by left.
Qed.

Lemma tiles_added_trans (s1 s2 s3 : Game) :
  config s2 = config s1 →
  tiles_added s1 s2 → tiles_added s2 s3 → tiles_added s1 s3.
Proof.
  intros Hcfg H12 H23 c r tile Ht.
  destruct (H23 c r tile Ht) as [Ht2|[(tile2 & Ht2 & Hv2) Hv]].
  - by apply H12.
  - simpl in Ht2. rewrite Hcfg in Hv.
    destruct (H12 c r tile2 Ht2) as [Ht1|[He1 _]].
    + right. split; [by exists tile2|done].
    + right. by split.
Qed.

(** The loop of [spawn_new_tiles], from any state of the game. *)
Lemma spawn_loop_spec : ∀ (idxs : list nat) (self : Game) (rng : Rng),
  well_formed self →
  root_tile_value (config self) ≠ 0 →
  ∃ spawned_all g locs rng',
    spawn_loop idxs self rng
      = Some (spawned_all,
              with_latest_spawn_locations (with_grid self g)
                (latest_spawn_locations self ++ locs), rng')
    ∧ Grid.square (Z.to_nat (grid_size (config self))) g
    ∧ (spawned_all = true ↔ (length idxs ≤ empty_count self)%nat)
    ∧ empty_count (with_grid self g) = (empty_count self - length idxs)%nat
    ∧ length locs = (length idxs `min` empty_count self)%nat
    ∧ tiles_added self (with_grid self g).
Proof.
  induction idxs as [|i idxs IH]; intros self rng Hwf Hroot.
  - exists true, (grid self), [], rng. simpl. rewrite app_nil_r.
    split; [by destruct self|]. split; [done|]. split; [split; [lia|done]|].
    split; [unfold empty_count; simpl; by destruct (get_empty_tiles _); lia|].
    split; [done|]. intros c r tile Ht. by left.
  - cbn [spawn_loop].
    destruct (spawn_new_tile_spec self rng Hwf) as (pos & g & rng1 & -> & Hg & Hsp & _).
    cbn [mbind option_bind].
    pose proof (spawned_tiles_added self g pos Hsp) as Hadded.
    destruct pos as [[c r]|].
    + pose proof (spawned_count self g c r Hwf Hg Hroot Hsp) as Hcount.
      set (self1 := with_latest_spawn_locations (with_grid self g)
                      (latest_spawn_locations (with_grid self g)
                         ++ [location_of (Some (c, r))])).
      destruct (IH self1 rng1 Hg Hroot)
        as (b & g' & locs & rng' & Hrun & Hg' & Hb & Hcount' & Hlocs & Hadded').
      rewrite Hrun. exists b, g', (location_of (Some (c, r)) :: locs), rng'.
      split; [simpl; by rewrite <- app_assoc|].
      split; [done|].
      change (empty_count self1) with (empty_count (with_grid self g)) in *.
      change (empty_count (with_grid self1 g')) with (empty_count (with_grid self g')) in *.
      cbn [length].
      split; [rewrite Hb; lia|]. split; [lia|].
      split; [lia|].
      apply (tiles_added_trans self (with_grid self g)); [done|done|].
      exact Hadded'.
    + destruct Hsp as [-> Hno].
      apply (empty_count_zero self Hwf) in Hno.
      exists false, (grid self), [], rng1. rewrite app_nil_r.
      split; [by destruct self|]. split; [done|].
      cbn [length].
      split; [split; [done|lia]|].
      replace (with_grid self (grid self)) with self by (by destruct self).
      split; [lia|]. split; [lia|]. intros c r tile Ht. by left.
Qed.

Lemma spawn_new_tiles_spec (self : Game) (rng : Rng) :
  well_formed self →
  root_tile_value (config self) ≠ 0 →
  ∃ spawned_all self' rng',
    spawn_new_tiles self rng = Some (spawned_all, self', rng')
    ∧ well_formed self'
    ∧ self' = with_latest_spawn_locations (with_grid self (grid self'))
                (latest_spawn_locations self')
    ∧ (spawned_all = true
       ↔ (Z.to_nat (spawn_tile_count (config self)) ≤ empty_count self)%nat)
    ∧ empty_count self'
      = (empty_count self - Z.to_nat (spawn_tile_count (config self)))%nat
    ∧ length (latest_spawn_locations self')
      = (Z.to_nat (spawn_tile_count (config self)) `min` empty_count self)%nat
    ∧ tiles_added self self'.
Proof.
  intros Hwf Hroot. unfold spawn_new_tiles.
  destruct (spawn_loop_spec (range (spawn_tile_count (config self)))
              (with_latest_spawn_locations self []) rng Hwf Hroot)
    as (b & g & locs & rng' & Hrun & Hg & Hb & Hcount & Hlocs & Hadded).
  cbv zeta. cbn [config with_latest_spawn_locations] in *. rewrite Hrun.
  unfold range in *. rewrite length_seq in *.
  change (empty_count (with_latest_spawn_locations self [])) with (empty_count self) in *.
  do 3 eexists. split; [done|]. split; [done|]. split; [done|].
  split; [done|]. split; [exact Hcount|]. split; [done|]. exact Hadded.
Qed.

(** X15: spawn_new_tiles on a well-formed game with a non-zero root tile
    value places min(spawn_tile_count, number of empty cells) tiles, each on
    a formerly empty cell and worth root_tile_value or its square, keeps
    every tile that was there, records one location per placed tile, and
    returns True exactly when all spawn_tile_count tiles found a cell. *)
Theorem spawn_new_tiles_count (self : Game) (rng : Rng) :
  well_formed self →
  root_tile_value (config self) ≠ 0 →
  ∃ spawned_all self' rng',
    spawn_new_tiles self rng = Some (spawned_all, self', rng')
    ∧ well_formed self'
    ∧ self' = with_latest_spawn_locations (with_grid self (grid self'))
                (latest_spawn_locations self')
    ∧ (spawned_all = true
       ↔ (Z.to_nat (spawn_tile_count (config self)) ≤ empty_count self)%nat)
    ∧ empty_count self'
      = (empty_count self - Z.to_nat (spawn_tile_count (config self)))%nat
    ∧ length (latest_spawn_locations self')
      = (Z.to_nat (spawn_tile_count (config self)) `min` empty_count self)%nat
    ∧ tiles_added self self'.
Proof. exact (spawn_new_tiles_spec self rng). Qed.

Lemma spawn_new_tiles_count_witness :
  ∃ spawned_all self' rng',
    spawn_new_tiles (game_of_values GameConfig_default power_vals) rng_example
      = Some (spawned_all, self', rng')
    ∧ well_formed self'
    ∧ self' = with_latest_spawn_locations
                (with_grid (game_of_values GameConfig_default power_vals) (grid self'))
                (latest_spawn_locations self')
    ∧ (spawned_all = true
       ↔ (2 ≤ empty_count (game_of_values GameConfig_default power_vals))%nat)
    ∧ empty_count self'
      = (empty_count (game_of_values GameConfig_default power_vals) - 2)%nat
    ∧ length (latest_spawn_locations self')
      = (2 `min` empty_count (game_of_values GameConfig_default power_vals))%nat
    ∧ tiles_added (game_of_values GameConfig_default power_vals) self'.
Proof.
  apply (spawn_new_tiles_count (game_of_values GameConfig_default power_vals) rng_example).
  - split; [reflexivity|]. simpl. repeat constructor.
  - done.
Defined.

(** X16: a turn on a well-formed game with a non-zero root tile value never
    raises, and its result tells what happened after the slide, with e the
    number of empty cells the slide left and k = spawn_tile_count:
    BOARD_FULL exactly when e = 0, and then nothing is spawned, no random
    number is drawn and latest_spawn_result and latest_spawn_locations keep
    their values of the turn before; NORMAL exactly when e >= 1 and all k
    tiles found a cell (k <= e); SPAWN_KILL or SPAWN_FILL, by the spawn_kill
    flag, exactly when 1 <= e < k, and then the board is full.  In every
    case the game stays well-formed and differs from the slid game by
    spawned tiles only. *)
Theorem play_turn_result (self : Game) (d : SlideDirection.t) (rng : Rng) :
  well_formed self →
  root_tile_value (config self) ≠ 0 →
  ∃ movement slid_game result self' rng',
    slide_tiles self d = Some (movement, slid_game)
    ∧ play_turn self d rng = Some (result, self', rng')
    ∧ well_formed self'
    ∧ tiles_added slid_game self'
    ∧ score self' = score slid_game
    ∧ movement_matrix self' = movement
    ∧ let k := Z.to_nat (spawn_tile_count (config self)) in
      let e := empty_count slid_game in
      match result with
      | SlideResult.BOARD_FULL =>
          e = 0%nat ∧ self' = slid_game ∧ rng' = rng
          ∧ latest_spawn_result self' = latest_spawn_result self
          ∧ latest_spawn_locations self' = latest_spawn_locations self
      | SlideResult.NORMAL =>
          (0 < e)%nat ∧ (k ≤ e)%nat
          ∧ latest_spawn_result self' = Some true
          ∧ empty_count self' = (e - k)%nat
          ∧ length (latest_spawn_locations self') = k
      | SlideResult.SPAWN_KILL =>
          (0 < e < k)%nat ∧ spawn_kill (config self) = true
          ∧ latest_spawn_result self' = Some false
          ∧ empty_count self' = 0%nat
          ∧ length (latest_spawn_locations self') = e
      | SlideResult.SPAWN_FILL =>
          (0 < e < k)%nat ∧ spawn_kill (config self) = false
          ∧ latest_spawn_result self' = Some false
          ∧ empty_count self' = 0%nat
          ∧ length (latest_spawn_locations self') = e
      end.
Proof.
  intros Hwf Hroot.
  destruct (slide_tiles_frame self d Hwf)
    as (movement & s1 & Hslide & Hwf1 & Hmv & Hcfg & Hres & Hlocs).
  exists movement, s1. unfold play_turn. rewrite Hslide. cbn [mbind option_bind].
  destruct (board_full_empty_at s1 Hwf1) as (full & -> & Hfull).
  cbn [mbind option_bind].
  pose proof (empty_count_zero s1 Hwf1) as Hzero.
  destruct full.
  - exists SlideResult.BOARD_FULL, s1, rng. split; [done|]. split; [done|].
    split; [done|]. split; [by intros c r tile Ht; left|]. split; [done|].
    split; [done|]. simpl. split; [|done].
    apply Hzero. intros Hex. by apply Hfull in Hex.
  - assert (He : (0 < empty_count s1)%nat).
    { destruct (empty_count s1); [|lia]. exfalso.
      destruct (proj1 Hzero eq_refl). by apply Hfull. }
    destruct (spawn_new_tiles_spec s1 rng Hwf1)
      as (b & s2 & rng' & -> & Hwf2 & Hs2 & Hb & Hcount & Hlen & Hadded).
    { by rewrite Hcfg. }
    cbn [mbind option_bind]. rewrite Hcfg in *.
    assert (Hframe : score s2 = score s1 ∧ movement_matrix s2 = movement_matrix s1
                     ∧ config s2 = config s1).
    { rewrite Hs2. done. }
    destruct Hframe as (Hscore & Hmv2 & Hcfg2).
    cbn [config with_latest_spawn_result]. rewrite Hcfg2, Hcfg.
    destruct b; cbn [negb].
    + exists SlideResult.NORMAL, (with_latest_spawn_result s2 (Some true)), rng'.
      split; [done|]. split; [done|]. split; [done|]. split; [done|].
      split; [done|]. split; [by rewrite <- Hmv, <- Hmv2|]. simpl.
      pose proof (proj1 Hb eq_refl) as Hk.
      split; [done|]. split; [done|]. split; [done|].
      split; [exact Hcount|]. change (length (latest_spawn_locations s2)
        = Z.to_nat (spawn_tile_count (config self))). lia.
    + assert (Hk : (empty_count s1 < Z.to_nat (spawn_tile_count (config self)))%nat).
      { destruct (decide (Z.to_nat (spawn_tile_count (config self)) ≤ empty_count s1)%nat)
          as [Hle|Hgt]; [|lia]. by apply Hb in Hle. }
      assert (Hcount0 : empty_count (with_latest_spawn_result s2 (Some false)) = 0%nat).
      { change (empty_count s2 = 0%nat). lia. }
      assert (Hlen' : length (latest_spawn_locations
                                (with_latest_spawn_result s2 (Some false)))
                      = empty_count s1).
      { change (length (latest_spawn_locations s2) = empty_count s1). lia. }
      destruct (spawn_kill (config self)) eqn:Hkill.
      * exists SlideResult.SPAWN_KILL, (with_latest_spawn_result s2 (Some false)), rng'.
        split; [done|]. split; [done|]. split; [done|]. split; [done|].
        split; [done|]. split; [by rewrite <- Hmv, <- Hmv2|]. simpl.
        split; [lia|]. done.
      * exists SlideResult.SPAWN_FILL, (with_latest_spawn_result s2 (Some false)), rng'.
        split; [done|]. split; [done|]. split; [done|]. split; [done|].
        split; [done|]. split; [by rewrite <- Hmv, <- Hmv2|]. simpl.
        split; [lia|]. done.
Qed.

Lemma play_turn_result_witness :
  ∃ movement slid_game result self' rng',
    slide_tiles (game_of_values GameConfig_default power_vals) SlideDirection.UP
      = Some (movement, slid_game)
    ∧ play_turn (game_of_values GameConfig_default power_vals) SlideDirection.UP rng_example
      = Some (result, self', rng')
    ∧ well_formed self'
    ∧ tiles_added slid_game self'
    ∧ score self' = score slid_game
    ∧ movement_matrix self' = movement
    ∧ let k := 2%nat in
      let e := empty_count slid_game in
      match result with
      | SlideResult.BOARD_FULL =>
          e = 0%nat ∧ self' = slid_game ∧ rng' = rng_example
          ∧ latest_spawn_result self' = None
          ∧ latest_spawn_locations self' = []
      | SlideResult.NORMAL =>
          (0 < e)%nat ∧ (k ≤ e)%nat
          ∧ latest_spawn_result self' = Some true
          ∧ empty_count self' = (e - k)%nat
          ∧ length (latest_spawn_locations self') = k
      | SlideResult.SPAWN_KILL =>
          (0 < e < k)%nat ∧ false = true
          ∧ latest_spawn_result self' = Some false
          ∧ empty_count self' = 0%nat
          ∧ length (latest_spawn_locations self') = e
      | SlideResult.SPAWN_FILL =>
          (0 < e < k)%nat ∧ false = false
          ∧ latest_spawn_result self' = Some false
          ∧ empty_count self' = 0%nat
          ∧ length (latest_spawn_locations self') = e
      end.
Proof.
  apply (play_turn_result (game_of_values GameConfig_default power_vals)
           SlideDirection.UP rng_example).
  - split; [reflexivity|]. simpl. repeat constructor.
  - done.
Defined.

Lemma grid_set_get (g g' : list (list Tile)) c r tile :
  Grid.set g c r tile = Some g' → Grid.get g' c r = Some tile.
Proof.
  unfold Grid.set, Grid.get. intros Hset.
  destruct (g !! r) as [row|] eqn:Hrow; simpl in Hset; [|done].
  destruct (row !! c) as [old|] eqn:Hold; simpl in Hset; [|done].
  injection Hset as <-.
  rewrite list_lookup_insert_eq by (by eapply lookup_lt_Some). simpl.
  by rewrite list_lookup_insert_eq by (by eapply lookup_lt_Some).
Qed.

(** In init mode without mutation_at_start the spawned tile is worth
    root_tile_value. *)
Lemma spawn_new_tile_start (self self' : Game) (rng rng' : Rng) c r :
  init_mode self = true → mutation_at_start (config self) = false →
  _spawn_new_tile self rng = Some (Some (c, r), self', rng') →
  Grid.get (grid self') c r = Some (Tile_of (root_tile_value (config self))).
Proof.
  intros Hinit Hmut. unfold _spawn_new_tile, _get_new_tile, _get_new_tile_value.
  rewrite Hinit, Hmut. simpl.
  destruct (_get_random_empty_tile self _) as [[[[c' r']|] rng1]|]; simpl; [|done..].
  destruct (Grid.set (grid self) c' r' _) as [g'|] eqn:Hset; simpl; [|done].
  intros [= -> -> <- _]. simpl. by apply grid_set_get in Hset.
Qed.

(** A board of empty cells only has [n * n] of them. *)
Lemma empty_count_all_zero (self : Game) :
  well_formed self →
  (∀ c r tile, Grid.get (grid self) c r = Some tile → value tile = 0) →
  empty_count self
  = (Z.to_nat (grid_size (config self)) * Z.to_nat (grid_size (config self)))%nat.
Proof.
  intros Hwf Hzero. set (n := Z.to_nat (grid_size (config self))).
  assert (Hloop : ∃ acc, get_empty_tiles self = Some acc ∧ length acc = (n * n)%nat).
  { unfold get_empty_tiles.
    apply (for_each_range_inv (λ r (acc : list (nat * nat)), length acc = (r * n)%nat));
      [done|].
    intros r acc Hr Hacc.
    assert (Hrow : ∃ acc', for_each (range (grid_size (config self)))
              (λ c empty_tiles,
                 tile ← Grid.get (grid self) c r;
                 Some (if value tile =? 0 then empty_tiles ++ [(c, r)] else empty_tiles))
              acc = Some acc' ∧ length acc' = (r * n + n)%nat).
    { apply (for_each_range_inv
               (λ c (acc : list (nat * nat)), length acc = (r * n + c)%nat)); [lia|].
      intros c acc' Hc Hacc'.
      destruct (proj2 (square_get _ _ c r Hwf)) as [tile Ht]; [done|].
      rewrite Ht. simpl. rewrite (Hzero c r tile Ht). simpl.
      eexists. split; [done|]. rewrite length_app. simpl. lia. }
    destruct Hrow as (acc' & -> & Hlen). exists acc'. split; [done|]. lia. }
  destruct Hloop as (acc & Hrun & Hlen). unfold empty_count. by rewrite Hrun.
Qed.

Lemma initial_spawn_spec (self : Game) (rng : Rng) :
  well_formed self →
  root_tile_value (config self) ≠ 0 →
  init_mode self = true →
  (∀ c r tile, Grid.get (grid self) c r = Some tile →
     starting_value (config self) (value tile)) →
  ∃ g locs rng',
    initial_spawn self rng
      = Some (with_latest_spawn_locations (with_init_mode (with_grid self g) false) locs,
              rng')
    ∧ Grid.square (Z.to_nat (grid_size (config self))) g
    ∧ empty_count (with_grid self g)
      = (empty_count self - Z.to_nat (starting_tile_count (config self)))%nat
    ∧ (∀ c r tile, Grid.get g c r = Some tile → starting_value (config self) (value tile)).
Proof.
  intros Hwf Hroot Hinit Hstart. unfold initial_spawn.
  pose (Q (k : nat) (acc : list location * Game * Rng) :=
    ∃ g, acc.1.2 = with_grid self g
         ∧ Grid.square (Z.to_nat (grid_size (config self))) g
         ∧ empty_count (with_grid self g) = (empty_count self - k)%nat
         ∧ (∀ c r tile, Grid.get g c r = Some tile →
              starting_value (config self) (value tile))).
  destruct (for_each_range_inv Q
              (λ _i '(spawn_locations, self0, rng0),
                 '(pos, self1, rng1) ← _spawn_new_tile self0 rng0;
                 Some (spawn_locations ++ [location_of pos], self1, rng1))
              (starting_tile_count (config self)) ([], self, rng))
    as ([[locs s'] rng'] & Hrun & (g & Hs' & Hg & Hcount & Hvals)).
  - exists (grid self). split; [by destruct self|]. split; [done|].
    split; [|done]. replace (with_grid self (grid self)) with self by (by destruct self). lia.
  - intros k [[locs s0] rng0] Hk (g & Hs0 & Hg & Hcount & Hvals). simpl in Hs0. subst s0.
    destruct (spawn_new_tile_spec (with_grid self g) rng0 Hg)
      as (pos & g' & rng1 & Hsp & Hg' & Hspawned & _).
    rewrite Hsp. simpl. eexists. split; [done|].
    exists g'. split; [done|]. split; [exact Hg'|].
    destruct pos as [[c r]|].
    + pose proof (spawned_count (with_grid self g) g' c r Hg Hg' Hroot Hspawned) as Hc.
      change (with_grid (with_grid self g) g') with (with_grid self g') in Hc.
      split; [lia|].
      pose proof (spawn_new_tile_start (with_grid self g) (with_grid (with_grid self g) g')
                    rng0 rng1 c r Hinit) as Hfirst.
      destruct Hspawned as (_ & (tile & Ht & Hv) & Hothers).
      intros c' r' tile' Ht'.
      destruct (decide ((c', r') = (c, r))) as [[= -> ->]|Hne].
      * rewrite Ht in Ht'. injection Ht' as <-. unfold starting_value.
        destruct (mutation_at_start (config self)) eqn:Hmut.
        -- destruct Hv as [?|?]; auto.
        -- specialize (Hfirst Hmut Hsp). simpl in Hfirst.
           rewrite Ht in Hfirst. injection Hfirst as ->. auto.
      * rewrite (Hothers c' r' Hne) in Ht'. by apply (Hvals c' r').
    + destruct Hspawned as [-> Hno]. split; [|done].
      apply (empty_count_zero (with_grid self g) Hg) in Hno.
      change (empty_count (with_grid self g) = (empty_count self - S k)%nat). lia.
  - rewrite Hrun. simpl in *. subst s'. by exists g, locs, rng'.
Qed.

(** X17: what Game(config) puts on the board when root_tile_value is not 0:
    min(starting_tile_count, grid_size * grid_size) tiles, all other cells
    empty; every tile is worth root_tile_value, or its square if
    mutation_at_start is set (never otherwise). *)
Theorem game_init_tiles (cfg : GameConfig) (rng : Rng) :
  root_tile_value cfg ≠ 0 →
  ∃ game rng',
    Game_init cfg rng = Some (game, rng')
    ∧ empty_count game
      = (Z.to_nat (grid_size cfg) * Z.to_nat (grid_size cfg)
         - Z.to_nat (starting_tile_count cfg))%nat
    ∧ (∀ c r tile, Grid.get (grid game) c r = Some tile →
         starting_value cfg (value tile)).
Proof.
  intros Hroot. unfold Game_init.
  set (self := {| config := cfg; init_mode := true;
                  grid := TileHelper.build_grid_with_value 0 (grid_size cfg) |}).
  assert (Hwf : well_formed self) by apply build_grid_square.
  assert (Hzero : ∀ c r tile, Grid.get (grid self) c r = Some tile → value tile = 0).
  { intros c r tile. unfold Grid.get. simpl. unfold TileHelper.build_grid_with_value.
    rewrite list_lookup_fmap. destruct (range (grid_size cfg) !! r); simpl; [|done].
    rewrite list_lookup_fmap. destruct (range (grid_size cfg) !! c); simpl; [|done].
    by intros [= <-]. }
  destruct (initial_spawn_spec self rng Hwf Hroot eq_refl)
    as (g & locs & rng' & Hrun & Hg & Hcount & Hvals).
  { intros c r tile Ht. left. by apply (Hzero c r). }
  rewrite Hrun. do 2 eexists. split; [done|]. split; [|exact Hvals].
  rewrite (empty_count_all_zero self Hwf Hzero) in Hcount. exact Hcount.
Qed.

Lemma game_init_tiles_witness :
  ∃ game rng',
    Game_init GameConfig_default rng_example = Some (game, rng')
    ∧ empty_count game = (4 * 4 - 2)%nat
    ∧ (∀ c r tile, Grid.get (grid game) c r = Some tile →
         starting_value GameConfig_default (value tile)).
Proof. apply (game_init_tiles GameConfig_default rng_example). done. Defined.

(** ** A slide that moves nothing *)

(** While no visited cell has a non-zero offset, the scan has copied the
    visited cells and gained nothing. *)
Lemma spec_visit_still root n pre st v :
  scan_inv root n pre st → (length pre < n)%nat →
  ((∀ j m, (j < length pre)%nat → moved st !! j = Some m → m = 0) →
   (∀ j x, pre !! j = Some x → out st !! j = Some x) ∧ gained st = 0) →
  (∀ j m, (j < S (length pre))%nat →
     moved (spec_visit root st (length pre) v) !! j = Some m → m = 0) →
  (∀ j x, (pre ++ [v]) !! j = Some x →
     out (spec_visit root st (length pre) v) !! j = Some x)
  ∧ gained (spec_visit root st (length pre) v) = 0.
Proof.
  intros Hinv Hi Hstill Hzero.
  pose proof (inv_out_length _ _ _ _ Hinv) as Hlo.
  pose proof (inv_moved_length _ _ _ _ Hinv) as Hlm.
  pose proof (inv_cursor _ _ _ _ Hinv) as Hc.
  destruct (lookup_lt_is_Some_2 (out st) (cursor st)) as [x Hx]; [lia|].
  destruct (lookup_lt_is_Some_2 (out st) (length pre)) as [y Hy]; [lia|].
  assert (Hlen_moved : ∀ st', length (moved st') = n →
            is_Some (moved st' !! length pre)).
  { intros st' Hl. apply lookup_lt_is_Some_2. lia. }
  assert (Hsplit : ∀ j x', (pre ++ [v]) !! j = Some x' →
            pre !! j = Some x' ∨ (j = length pre ∧ x' = v)).
  { intros j x' Hlk. apply lookup_app_Some in Hlk as [Hlk|[Hge Hlk]]; [by left|].
    right. apply list_lookup_singleton_Some in Hlk as [Hj ->]. split; [lia|done]. }
  revert Hzero. unfold spec_visit. rewrite (list_lookup_total_correct _ _ _ Hx).
  destruct (Z.eqb_spec v 0) as [->|Hv].
  { intros Hzero.
    destruct Hstill as [Hcopy Hgain]; [intros j m Hj; apply Hzero; lia|].
    split; [|done]. intros j x' Hlk.
    destruct (Hsplit j x' Hlk) as [Hold|[-> ->]]; [by apply Hcopy|].
    rewrite Hy. f_equal.
    destruct (decide (cursor st < length pre)%nat) as [Hlt|Hge].
    - by apply (inv_after _ _ _ _ Hinv (length pre) y).
    - assert (cursor st = length pre) as Hcur by lia.
      destruct (decide (y = 0)) as [->|Hne]; [done|].
      rewrite <- Hcur in Hy.
      pose proof (inv_cursor_full _ _ _ _ Hinv y Hy Hne). lia. }
  destruct (Z.eqb_spec v x) as [->|Hvx].
  { simpl. intros Hzero. exfalso.
    pose proof (inv_cursor_full _ _ _ _ Hinv x Hx Hv) as Hlt.
    specialize (Hzero (length pre) (Z.of_nat (cursor st) - Z.of_nat (length pre))).
    rewrite list_lookup_insert_eq in Hzero by lia.
    specialize (Hzero ltac:(lia) eq_refl). lia. }
  destruct (Z.eqb_spec x 0) as [->|Hx0]; simpl; intros Hzero.
  - assert (Hcur : cursor st = length pre).
    { pose proof (Hzero (length pre) (Z.of_nat (cursor st) - Z.of_nat (length pre))) as H.
      rewrite list_lookup_insert_eq in H by lia.
      specialize (H ltac:(lia) eq_refl). lia. }
    destruct Hstill as [Hcopy Hgain].
    { intros j m Hj Hm. apply (Hzero j m); [lia|].
      by rewrite list_lookup_insert_ne by lia. }
    split; [|done]. intros j x' Hlk.
    destruct (Hsplit j x' Hlk) as [Hold|[-> ->]].
    + rewrite list_lookup_insert_ne by (apply lookup_lt_Some in Hold; lia).
      by apply Hcopy.
    + rewrite Hcur. by rewrite list_lookup_insert_eq by lia.
  - assert (Hcur : S (cursor st) = length pre).
    { pose proof (Hzero (length pre) (Z.of_nat (cursor st) + 1 - Z.of_nat (length pre))) as H.
      rewrite list_lookup_insert_eq in H by lia.
      specialize (H ltac:(lia) eq_refl). lia. }
    destruct Hstill as [Hcopy Hgain].
    { intros j m Hj Hm. apply (Hzero j m); [lia|].
      by rewrite list_lookup_insert_ne by lia. }
    split; [|done]. intros j x' Hlk.
    destruct (Hsplit j x' Hlk) as [Hold|[-> ->]].
    + rewrite list_lookup_insert_ne by (apply lookup_lt_Some in Hold; lia).
      by apply Hcopy.
    + rewrite Hcur. by rewrite list_lookup_insert_eq by lia.
Qed.

Lemma spec_visit_moved_before root st i v j :
  j ≠ i → moved (spec_visit root st i v) !! j = moved st !! j.
Proof.
  intros Hne. unfold spec_visit. repeat case_match; simpl; try done;
    by rewrite list_lookup_insert_ne.
Qed.

Lemma spec_scan_moved_before root : ∀ vs i st j,
  (j < i)%nat → moved (spec_scan root i vs st) !! j = moved st !! j.
Proof.
  induction vs as [|v vs IH]; intros i st j Hj; simpl; [done|].
  rewrite IH by lia. apply spec_visit_moved_before. lia.
Qed.

Lemma spec_scan_still root n : ∀ vs pre st,
  scan_inv root n pre st → (length pre + length vs = n)%nat →
  ((∀ j m, (j < length pre)%nat → moved st !! j = Some m → m = 0) →
   (∀ j x, pre !! j = Some x → out st !! j = Some x) ∧ gained st = 0) →
  (∀ j m, moved (spec_scan root (length pre) vs st) !! j = Some m → m = 0) →
  (∀ j x, (pre ++ vs) !! j = Some x →
     out (spec_scan root (length pre) vs st) !! j = Some x)
  ∧ gained (spec_scan root (length pre) vs st) = 0.
Proof.
  induction vs as [|v vs IH]; intros pre st Hinv Hn Hstill Hzero; simpl in *.
  - rewrite app_nil_r. apply Hstill. intros j m _. apply Hzero.
  - replace (pre ++ v :: vs) with ((pre ++ [v]) ++ vs) by by rewrite <- app_assoc.
    assert (Hlen : length (pre ++ [v]) = S (length pre)) by (rewrite length_app; simpl; lia).
    pose proof (IH (pre ++ [v]) (spec_visit root st (length pre) v)) as IH'.
    rewrite Hlen in IH'.
    apply IH'; [apply spec_visit_inv; [done|lia]|lia| |done].
    intros Hzero'. apply (spec_visit_still root n); [done|lia|done|done].
Qed.

(** One line: all offsets 0 means the line is returned as it was and the
    score is not touched. *)
Lemma line_still root d (line : list Z) :
  Forall (λ m, m = 0) (line_moved root d line) →
  line_new root d line = line ∧ line_gained root d line = 0.
Proof.
  intros Hzero. unfold line_new, line_moved, line_gained, line_scan in *.
  set (l := if reversed_direction d then reverse line else line) in *.
  pose proof (spec_slide_inv root l) as Hinv.
  assert (Hmoved : ∀ j m,
            moved (spec_scan root 0 l (spec_init (length l))) !! j = Some m → m = 0).
  { intros j m Hm. destruct (reversed_direction d).
    - apply list_elem_of_lookup_2, elem_of_reverse_2 in Hm.
      apply (list_elem_of_fmap_2 Z.opp) in Hm.
      pose proof (proj1 (Forall_forall _ _) Hzero _ Hm) as H. simpl in H. lia.
    - by apply (proj1 (Forall_lookup _ _) Hzero j m). }
  destruct (spec_scan_still root (length l) l [] (spec_init (length l)))
    as [Hcopy Hgain]; [apply spec_init_inv|done| |done|].
  { intros _. split; [|done]. intros j x Hx. by rewrite lookup_nil in Hx. }
  split; [|done]. simpl in Hcopy.
  assert (Hout : out (spec_scan root 0 l (spec_init (length l))) = l).
  { apply list_eq. intros j. destruct (l !! j) as [x|] eqn:Hx; [by apply Hcopy|].
    apply lookup_ge_None. rewrite (inv_out_length _ _ _ _ Hinv).
    by apply lookup_ge_None in Hx. }
  rewrite Hout. subst l. destruct (reversed_direction d); [apply reverse_involutive|done].
Qed.

(** X18: an all-zero movement matrix means that nothing changed: when the
    matrix slide_tiles returns holds only zeros, the values of the grid and
    the score are what they were before the slide. *)
Theorem slide_tiles_still (self self' : Game) (d : SlideDirection.t)
    (movement : list (list Z)) :
  well_formed self →
  slide_tiles self d = Some (movement, self') →
  Forall (Forall (λ m, m = 0)) movement →
  grid_values (grid self') = grid_values (grid self) ∧ score self' = score self.
Proof.
  intros Hwf Hrun Hzero. rewrite slide_tiles_any in Hrun by done.
  injection Hrun as <- <-.
  set (root := root_tile_value (config self)) in *.
  pose proof (lines_along_square self d Hwf) as Hsq.
  assert (Hlines : Forall (λ line, Forall (λ m, m = 0) (line_moved root d line))
                     (lines_along d self)).
  { assert (Hback : lines_back d (lines_back d (line_moved root d <$> lines_along d self))
                    = line_moved root d <$> lines_along d self).
    { unfold lines_back. destruct (direction_in d _); [|done].
      apply (transpose_columns_involutive (Z.to_nat (grid_size (config self)))).
      apply square_matrix_fmap; [apply line_moved_length|done]. }
    assert (Hz : Forall (Forall (λ m, m = 0))
                   (lines_back d (lines_back d (line_moved root d <$> lines_along d self)))).
    { set (mm := lines_back d (line_moved root d <$> lines_along d self)) in *.
      assert (Hmm : square_matrix (Z.to_nat (grid_size (config self))) mm).
      { apply lines_back_square, square_matrix_fmap; [apply line_moved_length|done]. }
      unfold lines_back at 1. destruct (direction_in d _); [|done].
      pose proof (transpose_columns_square _ _ Hmm) as Hsqt.
      apply Forall_lookup. intros k col Hcol. apply Forall_lookup. intros j m Hm.
      pose proof (lookup_lt_Some _ _ _ Hcol) as Hk.
      pose proof (proj1 (Forall_lookup _ _) (proj2 Hsqt) k col Hcol) as Hl. simpl in Hl.
      pose proof (lookup_lt_Some _ _ _ Hm) as Hj.
      assert (He : entry (ArrayHelper.transpose_columns mm) j k = Some m).
      { unfold entry. by rewrite Hcol. }
      rewrite (transpose_columns_entry (Z.to_nat (grid_size (config self)))) in He;
        [|done|destruct Hsqt; lia|lia].
      unfold entry in He. destruct (mm !! j) as [row|] eqn:Hrow; [|done]. simpl in He.
      pose proof (proj1 (Forall_lookup _ _) Hzero j row Hrow) as Hr.
      by apply (proj1 (Forall_lookup _ _) Hr k m). }
    rewrite Hback in Hz. apply Forall_lookup. intros k line Hline.
    apply (proj1 (Forall_lookup _ _) Hz k). by rewrite list_lookup_fmap, Hline. }
  assert (Hnew : line_new root d <$> lines_along d self = lines_along d self).
  { rewrite <- (list_fmap_id (lines_along d self)) at 2.
    apply list_fmap_ext. intros k line Hline. simpl.
    by destruct (line_still root d line (proj1 (Forall_lookup _ _) Hlines k line Hline)). }
  assert (Hgain : Zsum (line_gained root d <$> lines_along d self) = 0).
  { assert (Hall : ∀ lines,
              Forall (λ line, Forall (λ m, m = 0) (line_moved root d line)) lines →
              Zsum (line_gained root d <$> lines) = 0); [|by apply Hall].
    induction 1 as [|line lines Hline _ IH]; [done|].
    rewrite fmap_cons, Zsum_cons, IH.
    destruct (line_still root d line Hline) as [_ ->]. done. }
  unfold slid_any. fold root. simpl. rewrite grid_values_tiles, Hnew, Hgain.
  split; [|lia]. unfold lines_along, lines_back.
  destruct (direction_in d _); [|done].
  apply (transpose_columns_involutive (Z.to_nat (grid_size (config self)))).
  by apply grid_values_square.
Qed.

Lemma slide_tiles_still_witness :
  grid_values (grid (slid_any SlideDirection.LEFT
                       (game_of_values GameConfig_default full_tile_vals)))
  = grid_values (grid (game_of_values GameConfig_default full_tile_vals))
  ∧ score (slid_any SlideDirection.LEFT (game_of_values GameConfig_default full_tile_vals))
    = score (game_of_values GameConfig_default full_tile_vals).
Proof.
  apply (slide_tiles_still (game_of_values GameConfig_default full_tile_vals)
           (slid_any SlideDirection.LEFT (game_of_values GameConfig_default full_tile_vals))
           SlideDirection.LEFT (replicate 4 (replicate 4 0))).
  - split; [reflexivity|]. simpl. repeat constructor.
  - by vm_compute.
  - repeat constructor.
Defined.

(** ** Loading and the random generators *)

(** X19: load does not depend on the random generators. The constructor it
    calls spawns starting tiles from them, but set_tiles and the four
    assignments overwrite everything the spawns touched, and whether the
    constructor raises TypeError depends on the types of the configuration
    only: whatever the generators yield, and whatever the types of the
    persisted values, load returns the same game or raises the same
    error. *)
Theorem load_ignores_randomness {text : Type} (json_loads : text → option json)
    (s : text) (rng1 rng2 : Rng) :
  load json_loads s rng1 = load json_loads s rng2.
Proof.
  unfold load.
  destruct (json_loads s) as [game_dict|]; cbn [or_raise mbind result_bind]; [|done].
  destruct (subscript game_dict "config") as [kwargs|]; cbn [mbind result_bind]; [|done].
  destruct (GameConfig_of_kwargs kwargs) as [cfg|]; cbn [mbind result_bind]; [|done].
  pose proof (dyn_game_init_spec cfg rng1) as H1.
  pose proof (dyn_game_init_spec cfg rng2) as H2.
  destruct (constructible cfg) eqn:Hc; [|by rewrite H1, H2].
  destruct H1 as (g1 & rng1' & -> & Hcfg1 & Hmode1 & Hsq1).
  destruct H2 as (g2 & rng2' & -> & Hcfg2 & Hmode2 & Hsq2).
  cbn [mbind result_bind].
  destruct (subscript game_dict "grid") as [rows|]; cbn [mbind result_bind]; [|done].
  destruct (iterate rows) as [rows'|]; cbn [mbind result_bind]; [|done].
  destruct (mapM tiles_of_row rows') as [new_list|]; cbn [mbind result_bind]; [|done].
  assert (Hint : integral (p_grid_size (p_config g1)) = true).
  { rewrite Hcfg1. unfold constructible in Hc. by destruct (integral (p_grid_size cfg)). }
  destruct (dyn_set_tiles_agree g1 g2 new_list) as [[-> ->]|(g & -> & ->)];
    [by rewrite Hcfg1, Hcfg2|done|by rewrite Hcfg1|by rewrite Hcfg1|done|].
  cbn [mbind result_bind].
  destruct (subscript game_dict "score") as [score|]; cbn [mbind result_bind]; [|done].
  destruct (subscript game_dict "movement_matrix") as [movement_matrix|];
    cbn [mbind result_bind]; [|done].
  destruct (subscript game_dict "latest_spawn_result") as [latest_spawn_result|];
    cbn [mbind result_bind]; [|done].
  destruct (subscript game_dict "latest_spawn_locations") as [latest_spawn_locations|];
    cbn [mbind result_bind]; [|done].
  cbn [Dyn.with_grid p_config p_init_mode p_grid].
  by rewrite Hcfg1, Hcfg2, Hmode1, Hmode2.
Qed.

(** ** Columns are rows of the transposed board *)

Lemma line_scan_reversed root d d' (line : list Z) :
  reversed_direction d = reversed_direction d' →
  line_new root d line = line_new root d' line
  ∧ line_moved root d line = line_moved root d' line
  ∧ line_gained root d line = line_gained root d' line.
Proof.
  intros Hd. unfold line_new, line_moved, line_gained, line_scan. by rewrite Hd.
Qed.

(** X20: sliding UP is sliding LEFT on the transposed board, and sliding
    DOWN is sliding RIGHT on it: on a well-formed game both slides return,
    the grid values and the movement matrix of the column slide are the
    transposes of those of the row slide, and both add the same score. *)
Theorem slide_tiles_transposed (self : Game) (d d' : SlideDirection.t) :
  well_formed self →
  (d = SlideDirection.UP ∧ d' = SlideDirection.LEFT)
  ∨ (d = SlideDirection.DOWN ∧ d' = SlideDirection.RIGHT) →
  ∃ movement self' movement_t self_t,
    slide_tiles self d = Some (movement, self')
    ∧ slide_tiles (transposed self) d' = Some (movement_t, self_t)
    ∧ grid_values (grid self') = ArrayHelper.transpose_columns (grid_values (grid self_t))
    ∧ movement = ArrayHelper.transpose_columns movement_t
    ∧ score self' = score self_t.
Proof.
  intros Hwf Hd.
  pose proof (grid_values_square _ _ Hwf) as Hsq.
  pose proof (transpose_columns_square _ _ Hsq) as Hsqt.
  assert (Hwft : well_formed (transposed self)).
  { unfold well_formed, transposed. simpl. by apply tiles_square. }
  rewrite (slide_tiles_any self d Hwf), (slide_tiles_any (transposed self) d' Hwft).
  do 4 eexists. split; [done|]. split; [done|].
  assert (Hcol : direction_in d [SlideDirection.UP; SlideDirection.DOWN] = true)
    by (by destruct Hd as [[-> _]|[-> _]]).
  assert (Hrow : direction_in d' [SlideDirection.UP; SlideDirection.DOWN] = false)
    by (by destruct Hd as [[_ ->]|[_ ->]]).
  assert (Hrev : reversed_direction d = reversed_direction d')
    by (by destruct Hd as [[-> ->]|[-> ->]]).
  assert (Hlines : lines_along d' (transposed self) = lines_along d self).
  { unfold lines_along. rewrite Hcol, Hrow. unfold transposed. simpl.
    apply grid_values_tiles. }
  unfold slid_any. simpl. rewrite !grid_values_tiles, Hlines.
  unfold lines_back. rewrite Hcol, Hrow.
  set (root := root_tile_value (config self)).
  assert (Hnew : line_new root d <$> lines_along d self
                 = line_new root d' <$> lines_along d self).
  { apply list_fmap_ext. intros k line _. by apply line_scan_reversed. }
  assert (Hmoved : line_moved root d <$> lines_along d self
                   = line_moved root d' <$> lines_along d self).
  { apply list_fmap_ext. intros k line _. by apply line_scan_reversed. }
  assert (Hgained : line_gained root d <$> lines_along d self
                    = line_gained root d' <$> lines_along d self).
  { apply list_fmap_ext. intros k line _. by apply line_scan_reversed. }
  by rewrite Hnew, Hmoved, Hgained.
Qed.

Lemma slide_tiles_transposed_witness :
  ∃ movement self' movement_t self_t,
    slide_tiles (game_of_values GameConfig_default power_vals) SlideDirection.DOWN
      = Some (movement, self')
    ∧ slide_tiles (transposed (game_of_values GameConfig_default power_vals))
        SlideDirection.RIGHT = Some (movement_t, self_t)
    ∧ grid_values (grid self') = ArrayHelper.transpose_columns (grid_values (grid self_t))
    ∧ movement = ArrayHelper.transpose_columns movement_t
    ∧ score self' = score self_t.
Proof.
  apply (slide_tiles_transposed (game_of_values GameConfig_default power_vals)
           SlideDirection.DOWN SlideDirection.RIGHT).
  - split; [reflexivity|]. simpl. repeat constructor.
  - by right.
Defined.

(** ** When a slide scores *)

(** While the scan has gained nothing, the visited cells are merge-free and
    the cell under the cursor holds the last tile visited (0 if none). *)
Lemma spec_visit_gainless root n pre st v :
  0 < root → 0 ≤ v →
  scan_inv root n pre st → (length pre < n)%nat →
  0 ≤ gained st →
  (gained st = 0 →
   merge_free pre = true
   ∧ ∀ x, out st !! cursor st = Some x → x = default 0 (last (nonzeros pre))) →
  0 ≤ gained (spec_visit root st (length pre) v)
  ∧ (gained (spec_visit root st (length pre) v) = 0 →
     merge_free (pre ++ [v]) = true
     ∧ ∀ x, out (spec_visit root st (length pre) v)
              !! cursor (spec_visit root st (length pre) v) = Some x →
            x = default 0 (last (nonzeros (pre ++ [v])))).
Proof.
  intros Hroot Hv0 Hinv Hi Hgain Hfree.
  pose proof (inv_out_length _ _ _ _ Hinv) as Hlo.
  pose proof (inv_cursor _ _ _ _ Hinv) as Hc.
  destruct (lookup_lt_is_Some_2 (out st) (cursor st)) as [x Hx]; [lia|].
  unfold spec_visit. rewrite (list_lookup_total_correct _ _ _ Hx).
  unfold merge_free in *. rewrite nonzeros_app.
  destruct (Z.eqb_spec v 0) as [->|Hv].
  { simpl. rewrite app_nil_r. done. }
  assert (Hnz : nonzeros [v] = [v]).
  { simpl. by destruct (Z.eqb_spec v 0). }
  rewrite Hnz, last_snoc. simpl.
  destruct (Z.eqb_spec v x) as [->|Hvx]; simpl.
  { split; [nia|]. intros Hzero. nia. }
  destruct (Z.eqb_spec x 0) as [->|Hx0]; simpl.
  - split; [done|]. intros Hzero. destruct (Hfree Hzero) as [Hmf Hlast].
    specialize (Hlast 0 Hx).
    assert (Hnil : nonzeros pre = []).
    { destruct (last (nonzeros pre)) as [y|] eqn:Hy; [|by apply last_None].
      simpl in Hlast. subst y. apply last_Some in Hy as [l' Hl'].
      pose proof (nonzeros_Forall pre) as Hall. rewrite Hl' in Hall.
      apply Forall_app in Hall as [_ Hall]. by apply Forall_cons_1 in Hall as [? _]. }
    rewrite Hnil. split; [done|].
    intros y Hy. rewrite list_lookup_insert_eq in Hy by lia. by injection Hy.
  - split; [done|]. intros Hzero. destruct (Hfree Hzero) as [Hmf Hlast].
    specialize (Hlast x Hx).
    assert (Hy : last (nonzeros pre) = Some x).
    { destruct (last (nonzeros pre)) as [y|]; simpl in Hlast; [by subst|done]. }
    apply last_Some in Hy as [l' Hl']. rewrite Hl' in *. split.
    + rewrite <- app_assoc. simpl. rewrite distinct_neighbours_snoc, Hmf. simpl.
      apply negb_true_iff, Z.eqb_neq. done.
    + intros y Hy.
      pose proof (inv_cursor_full _ _ _ _ Hinv x Hx Hx0).
      rewrite list_lookup_insert_eq in Hy by lia. by injection Hy.
Qed.

Lemma spec_scan_gainless root n : ∀ vs pre st,
  0 < root → Forall (λ v, 0 ≤ v) vs →
  scan_inv root n pre st → (length pre + length vs = n)%nat →
  0 ≤ gained st →
  (gained st = 0 →
   merge_free pre = true
   ∧ ∀ x, out st !! cursor st = Some x → x = default 0 (last (nonzeros pre))) →
  0 ≤ gained (spec_scan root (length pre) vs st)
  ∧ (gained (spec_scan root (length pre) vs st) = 0 → merge_free (pre ++ vs) = true).
Proof.
  induction vs as [|v vs IH]; intros pre st Hroot Hvs Hinv Hn Hgain Hfree; simpl in *.
  - rewrite app_nil_r. split; [done|]. intros Hzero. by destruct (Hfree Hzero).
  - apply Forall_cons_1 in Hvs as [Hv Hvs].
    destruct (spec_visit_gainless root n pre st v Hroot Hv Hinv ltac:(lia) Hgain Hfree)
      as [Hgain' Hfree'].
    replace (pre ++ v :: vs) with ((pre ++ [v]) ++ vs) by by rewrite <- app_assoc.
    assert (Hlen : length (pre ++ [v]) = S (length pre)) by (rewrite length_app; simpl; lia).
    pose proof (IH (pre ++ [v]) (spec_visit root st (length pre) v)) as IH'.
    rewrite Hlen in IH'.
    apply IH'; [done|done|apply spec_visit_inv; [done|lia]|lia|done|done].
Qed.

(** One line of non-negative tiles, with a positive root: the slide adds to
    the score exactly when the line is not merge-free. *)
Lemma line_gained_merge_free root d (line : list Z) :
  0 < root → Forall (λ v, 0 ≤ v) line →
  0 ≤ line_gained root d line
  ∧ (line_gained root d line = 0 → merge_free line = true).
Proof.
  intros Hroot Hline. unfold line_gained, line_scan.
  set (l := if reversed_direction d then reverse line else line).
  assert (Hl : Forall (λ v, 0 ≤ v) l).
  { subst l. destruct (reversed_direction d); [by apply Forall_reverse|done]. }
  destruct (spec_scan_gainless root (length l) l [] (spec_init (length l)) Hroot Hl)
    as [Hpos Hfree]; [apply spec_init_inv|done|done| |].
  { intros _. split; [done|]. simpl. intros x Hx.
    by apply lookup_replicate in Hx as [-> _]. }
  split; [done|]. intros Hzero. specialize (Hfree Hzero). simpl in Hfree.
  subst l. destruct (reversed_direction d); [by rewrite merge_free_reverse in Hfree|done].
Qed.

Lemma Zsum_zero (l : list Z) :
  Forall (λ x, 0 ≤ x) l → Zsum l = 0 → Forall (λ x, x = 0) l.
Proof.
  induction 1 as [|x l Hx Hl IH]; intros Hsum; [constructor|].
  rewrite Zsum_cons in Hsum. pose proof (Zsum_nonneg l Hl).
  constructor; [lia|apply IH; lia].
Qed.

(** X21: when a slide scores. On a well-formed board of non-negative tiles
    with a positive root tile value, slide_tiles leaves the score unchanged
    exactly when no line along the slide (the rows for LEFT, RIGHT and NONE,
    the columns for UP and DOWN) has two equal tiles facing each other with
    only empty cells between them; otherwise the score grows. *)
Theorem slide_tiles_scores (self self' : Game) (d : SlideDirection.t)
    (movement : list (list Z)) :
  well_formed self →
  0 < root_tile_value (config self) →
  (∀ c r tile, Grid.get (grid self) c r = Some tile → 0 ≤ value tile) →
  slide_tiles self d = Some (movement, self') →
  (score self' = score self
   ↔ Forall (λ line, merge_free line = true) (lines_along d self))
  ∧ (score self' ≠ score self → score self < score self').
Proof.
  intros Hwf Hroot Hvals Hrun.
  set (root := root_tile_value (config self)) in *.
  assert (Hlines : Forall (λ line, 0 ≤ line_gained root d line
                                   ∧ (line_gained root d line = 0 → merge_free line = true))
                     (lines_along d self)).
  { apply Forall_lookup. intros k line Hline. simpl.
    apply line_gained_merge_free; [done|]. apply Forall_lookup. intros j x Hx.
    destruct (lines_along_values self d k line j x Hwf Hline Hx) as (tile & Ht & <-).
    by eapply Hvals. }
  assert (Hpos : Forall (λ x, 0 ≤ x) (line_gained root d <$> lines_along d self)).
  { apply Forall_fmap. eapply Forall_impl; [exact Hlines|]. by intros line [? _]. }
  pose proof (Zsum_nonneg _ Hpos) as Hsum.
  split.
  - split.
    + intros Hscore. rewrite slide_tiles_any in Hrun by done.
      injection Hrun as _ <-. unfold slid_any in Hscore. simpl in Hscore. fold root in Hscore.
      assert (Hzero : Zsum (line_gained root d <$> lines_along d self) = 0) by lia.
      apply Zsum_zero in Hzero; [|done].
      apply Forall_lookup. intros k line Hline.
      destruct (proj1 (Forall_lookup _ _) Hlines k line Hline) as [_ Hfree].
      apply Hfree.
      apply (proj1 (Forall_lookup _ _) Hzero k). by rewrite list_lookup_fmap, Hline.
    + intros Hfree. rewrite slide_tiles_merge_free in Hrun by done.
      by injection Hrun as _ <-.
  - rewrite slide_tiles_any in Hrun by done.
    injection Hrun as _ <-. unfold slid_any. simpl. fold root. lia.
Qed.

Lemma slide_tiles_scores_witness :
  (score (slid_any SlideDirection.UP (game_of_values GameConfig_default power_vals))
   = score (game_of_values GameConfig_default power_vals)
   ↔ Forall (λ line, merge_free line = true)
       (lines_along SlideDirection.UP (game_of_values GameConfig_default power_vals)))
  ∧ (score (slid_any SlideDirection.UP (game_of_values GameConfig_default power_vals))
     ≠ score (game_of_values GameConfig_default power_vals)
     → score (game_of_values GameConfig_default power_vals)
       < score (slid_any SlideDirection.UP (game_of_values GameConfig_default power_vals))).
Proof.
  apply (slide_tiles_scores (game_of_values GameConfig_default power_vals)
           (slid_any SlideDirection.UP (game_of_values GameConfig_default power_vals))
           SlideDirection.UP
           [[0; 0; 0; 0]; [0; 0; 0; 0]; [0; 0; -1; 0]; [-3; -3; 0; -3]]).
  - split; [reflexivity|]. simpl. repeat constructor.
  - done.
  - intros c r tile Hget.
    destruct r as [|[|[|[|r]]]]; [| | | |done];
      (destruct c as [|[|[|[|c]]]]; [| | | |done]); by injection Hget as <-.
  - by vm_compute.
Defined.

(** X22: a configuration survives its own serialization. With a json module
    whose loads inverts dumps, the GameConfig built from the keywords of
    json.loads(config.to_json()) is the configuration itself, for every
    configuration (valid or not); and to_json writes exactly the record
    that Game.to_dict stores under the key config. *)
Theorem config_to_json_roundtrip {text : Type}
    (json_dumps : json → text) (json_loads : text → option json) (cfg : GameConfig) :
  (∀ j, json_loads (json_dumps j) = Some j) →
  (kwargs ← or_raise JSONDecodeError (json_loads (GameConfig_to_json json_dumps cfg));
   GameConfig_of_kwargs kwargs) = Ok (py_config cfg)
  ∧ GameConfig_to_json json_dumps cfg = json_dumps (config_dict cfg).
Proof.
  intros Hjson. split; [|done].
  unfold GameConfig_to_json. rewrite Hjson. cbn [or_raise mbind result_bind].
  by destruct cfg.
Qed.

Lemma config_to_json_roundtrip_witness :
  (kwargs ← or_raise JSONDecodeError
              (Some (GameConfig_to_json (λ j, j) config_probability_1_5));
   GameConfig_of_kwargs kwargs) = Ok (py_config config_probability_1_5)
  ∧ GameConfig_to_json (λ j, j) config_probability_1_5
    = config_dict config_probability_1_5.
Proof.
  apply (config_to_json_roundtrip (λ j, j) Some config_probability_1_5). done.
Defined.

(** ** Sliding twice *)

Lemma packed_tail x (l : list Z) : packed (x :: l) → packed l.
Proof. intros Hp j k y Hjk Hj Hk. by apply (Hp (S j) (S k) y); [lia|..]. Qed.

Lemma packed_compact (l : list Z) : packed l → compact l = l.
Proof.
  induction l as [|x l IH]; intros Hp; [done|].
  unfold compact in *. simpl. destruct (Z.eqb_spec x 0) as [->|Hx].
  - assert (Hzero : Forall (λ y, y = 0) (0 :: l)).
    { apply Forall_lookup. intros [|k] y Hy; [by injection Hy|].
      by apply (Hp 0%nat (S k) y); [lia|..]. }
    rewrite (nonzeros_zeros l) by (by apply Forall_cons_1 in Hzero as [_ ?]).
    simpl. f_equal.
    apply Forall_cons_1 in Hzero as [_ Hzero].
    clear IH Hp. induction Hzero as [|y l -> _ IH]; [done|]. simpl. by f_equal.
  - simpl. f_equal. apply IH. by eapply packed_tail.
Qed.

Lemma line_values_packed d (l : list Z) : packed (toward d l) → line_values d l = l.
Proof.
  unfold toward, line_values. destruct (reversed_direction d); intros Hp.
  - rewrite packed_compact by done. apply reverse_involutive.
  - by apply packed_compact.
Qed.

(** With a non-zero root the line a slide returns has no gap. *)
Lemma line_new_packed root d (line : list Z) :
  root ≠ 0 → packed (toward d (line_new root d line)).
Proof.
  intros Hroot.
  assert (Hout : toward d (line_new root d line) = out (line_scan root d line)).
  { unfold toward, line_new. destruct (reversed_direction d); [|done].
    by rewrite reverse_involutive. }
  rewrite Hout. unfold line_scan.
  set (l := if reversed_direction d then reverse line else line).
  pose proof (spec_slide_inv root l) as Hinv.
  intros j k x Hjk Hj Hk.
  destruct (decide (cursor (spec_scan root 0 l (spec_init (length l))) < k)%nat).
  - by apply (inv_after _ _ _ _ Hinv k).
  - exfalso. apply (inv_before _ _ _ _ Hinv Hroot j 0); [lia|done|done].
Qed.

(** While no visited cell has a non-zero offset, the visited cells are
    merge-free and the cell under the cursor holds the last tile visited
    (0 if none). *)
Lemma spec_visit_unmoved root n pre st v :
  scan_inv root n pre st → (length pre < n)%nat →
  ((∀ j m, (j < length pre)%nat → moved st !! j = Some m → m = 0) →
   merge_free pre = true
   ∧ ∀ x, out st !! cursor st = Some x → x = default 0 (last (nonzeros pre))) →
  (∀ j m, (j < S (length pre))%nat →
     moved (spec_visit root st (length pre) v) !! j = Some m → m = 0) →
  merge_free (pre ++ [v]) = true
  ∧ ∀ x, out (spec_visit root st (length pre) v)
           !! cursor (spec_visit root st (length pre) v) = Some x →
         x = default 0 (last (nonzeros (pre ++ [v]))).
Proof.
  intros Hinv Hi Hfree Hzero.
  pose proof (inv_out_length _ _ _ _ Hinv) as Hlo.
  pose proof (inv_moved_length _ _ _ _ Hinv) as Hlm.
  pose proof (inv_cursor _ _ _ _ Hinv) as Hc.
  destruct (lookup_lt_is_Some_2 (out st) (cursor st)) as [x Hx]; [lia|].
  assert (Hbefore : ∀ j m, (j < length pre)%nat → moved st !! j = Some m → m = 0).
  { intros j m Hj Hm. apply (Hzero j m); [lia|].
    rewrite spec_visit_moved_before by lia. done. }
  destruct (Hfree Hbefore) as [Hmf Hlast]. specialize (Hlast x Hx).
  revert Hzero. unfold spec_visit. rewrite (list_lookup_total_correct _ _ _ Hx).
  unfold merge_free in *. rewrite nonzeros_app.
  destruct (Z.eqb_spec v 0) as [->|Hv].
  { intros _. simpl. rewrite app_nil_r. split; [done|].
    intros y Hy. rewrite Hx in Hy. by injection Hy as <-. }
  assert (Hnz : nonzeros [v] = [v]).
  { simpl. by destruct (Z.eqb_spec v 0). }
  rewrite Hnz, last_snoc. simpl.
  destruct (Z.eqb_spec v x) as [->|Hvx]; simpl.
  { intros Hzero. exfalso.
    pose proof (inv_cursor_full _ _ _ _ Hinv x Hx Hv) as Hlt.
    specialize (Hzero (length pre) (Z.of_nat (cursor st) - Z.of_nat (length pre))).
    rewrite list_lookup_insert_eq in Hzero by lia.
    specialize (Hzero ltac:(lia) eq_refl). lia. }
  destruct (Z.eqb_spec x 0) as [->|Hx0]; simpl; intros _.
  - assert (Hnil : nonzeros pre = []).
    { destruct (last (nonzeros pre)) as [y|] eqn:Hy; [|by apply last_None].
      simpl in Hlast. subst y. apply last_Some in Hy as [l' Hl'].
      pose proof (nonzeros_Forall pre) as Hall. rewrite Hl' in Hall.
      apply Forall_app in Hall as [_ Hall]. by apply Forall_cons_1 in Hall as [? _]. }
    rewrite Hnil. split; [done|].
    intros y Hy. rewrite list_lookup_insert_eq in Hy by lia. by injection Hy.
  - assert (Hy : last (nonzeros pre) = Some x).
    { destruct (last (nonzeros pre)) as [y|]; simpl in Hlast; [by subst|done]. }
    apply last_Some in Hy as [l' Hl']. rewrite Hl' in *. split.
    + rewrite <- app_assoc. simpl. rewrite distinct_neighbours_snoc, Hmf. simpl.
      apply negb_true_iff, Z.eqb_neq. done.
    + intros y Hy.
      pose proof (inv_cursor_full _ _ _ _ Hinv x Hx Hx0).
      rewrite list_lookup_insert_eq in Hy by lia. by injection Hy.
Qed.

Lemma spec_scan_unmoved root n : ∀ vs pre st,
  scan_inv root n pre st → (length pre + length vs = n)%nat →
  ((∀ j m, (j < length pre)%nat → moved st !! j = Some m → m = 0) →
   merge_free pre = true
   ∧ ∀ x, out st !! cursor st = Some x → x = default 0 (last (nonzeros pre))) →
  (∀ j m, moved (spec_scan root (length pre) vs st) !! j = Some m → m = 0) →
  merge_free (pre ++ vs) = true.
Proof.
  induction vs as [|v vs IH]; intros pre st Hinv Hn Hfree Hzero; simpl in *.
  - rewrite app_nil_r. apply Hfree. intros j m _. apply Hzero.
  - replace (pre ++ v :: vs) with ((pre ++ [v]) ++ vs) by by rewrite <- app_assoc.
    assert (Hlen : length (pre ++ [v]) = S (length pre)) by (rewrite length_app; simpl; lia).
    pose proof (IH (pre ++ [v]) (spec_visit root st (length pre) v)) as IH'.
    rewrite Hlen in IH'.
    apply IH'; [apply spec_visit_inv; [done|lia]|lia| |done].
    intros Hzero'. apply (spec_visit_unmoved root n); [done|lia|done|done].
Qed.

(** One line: all offsets 0 means that nothing could merge. *)
Lemma line_unmoved_merge_free root d (line : list Z) :
  Forall (λ m, m = 0) (line_moved root d line) → merge_free line = true.
Proof.
  intros Hzero. unfold line_moved, line_scan in *.
  set (l := if reversed_direction d then reverse line else line) in *.
  assert (Hmoved : ∀ j m,
            moved (spec_scan root 0 l (spec_init (length l))) !! j = Some m → m = 0).
  { intros j m Hm. destruct (reversed_direction d).
    - apply list_elem_of_lookup_2, elem_of_reverse_2 in Hm.
      apply (list_elem_of_fmap_2 Z.opp) in Hm.
      pose proof (proj1 (Forall_forall _ _) Hzero _ Hm) as H. simpl in H. lia.
    - by apply (proj1 (Forall_lookup _ _) Hzero j m). }
  pose proof (spec_scan_unmoved root (length l) l [] (spec_init (length l))
                (spec_init_inv root _) eq_refl) as Hfree.
  simpl in Hfree.
  assert (Hl : merge_free l = true).
  { apply Hfree; [|done]. intros _. split; [done|]. intros x Hx.
    by apply lookup_replicate in Hx as [-> _]. }
  subst l. destruct (reversed_direction d); [by rewrite merge_free_reverse in Hl|done].
Qed.

Lemma slid_any_well_formed (self : Game) d :
  well_formed self → well_formed (slid_any d self).
Proof.
  intros Hwf. unfold well_formed, slid_any. simpl.
  apply tiles_square, lines_back_square, square_matrix_fmap;
    [apply line_new_length|by apply lines_along_square].
Qed.

Lemma lines_along_slid_any (self : Game) d :
  well_formed self →
  lines_along d (slid_any d self)
  = line_new (root_tile_value (config self)) d <$> lines_along d self.
Proof.
  intros Hwf. pose proof (lines_along_square self d Hwf) as Hsq.
  unfold lines_along at 1. unfold slid_any. simpl. rewrite grid_values_tiles.
  unfold lines_back.
  destruct (direction_in d [SlideDirection.UP; SlideDirection.DOWN]); [|done].
  apply (transpose_columns_involutive (Z.to_nat (grid_size (config self)))).
  apply square_matrix_fmap; [apply line_new_length|done].
Qed.

(** The lines behind an all-zero movement matrix have all-zero offsets. *)
Lemma movement_zero_lines (self : Game) d :
  well_formed self →
  lines_back d (line_moved (root_tile_value (config self)) d <$> lines_along d self)
  = replicate (Z.to_nat (grid_size (config self)))
      (replicate (Z.to_nat (grid_size (config self))) 0) →
  Forall (λ line, Forall (λ m, m = 0)
                    (line_moved (root_tile_value (config self)) d line))
    (lines_along d self).
Proof.
  intros Hwf Hzero. set (root := root_tile_value (config self)) in *.
  set (n := Z.to_nat (grid_size (config self))) in *.
  pose proof (lines_along_square self d Hwf) as Hsq.
  assert (Hsqm : square_matrix n (line_moved root d <$> lines_along d self)).
  { apply square_matrix_fmap; [apply line_moved_length|done]. }
  assert (Hm : line_moved root d <$> lines_along d self = replicate n (replicate n 0)).
  { unfold lines_back in Hzero. destruct (direction_in d _); [|done].
    rewrite <- (transpose_columns_involutive n _ Hsqm), Hzero.
    apply transpose_columns_replicate. }
  apply Forall_lookup. intros k line Hline.
  assert (Hk : (line_moved root d <$> lines_along d self) !! k
               = Some (line_moved root d line)) by (by rewrite list_lookup_fmap, Hline).
  rewrite Hm in Hk. apply lookup_replicate in Hk as [-> _].
  apply Forall_forall. intros m Hin. by apply elem_of_replicate in Hin as [-> _].
Qed.

Lemma compact_packed (l : list Z) : packed (compact l).
Proof.
  unfold compact. intros j k x Hjk Hj Hk.
  destruct (decide (j < length (nonzeros l))%nat) as [Hlt|Hge].
  - rewrite lookup_app_l in Hj by done.
    by destruct (proj1 (Forall_lookup _ _) (nonzeros_Forall l) j 0 Hj).
  - rewrite lookup_app_r in Hk by lia. by apply lookup_replicate in Hk as [-> _].
Qed.

Lemma toward_line_values d (l : list Z) : toward d (line_values d l) = compact (toward d l).
Proof.
  unfold toward, line_values. destruct (reversed_direction d); [|done].
  apply reverse_involutive.
Qed.

(** A line that a merge-free slide leaves as it is has no gap. *)
Lemma line_values_fixed_packed d (l : list Z) : line_values d l = l → packed (toward d l).
Proof.
  intros Hfix. rewrite <- Hfix, toward_line_values. apply compact_packed.
Qed.

(** C4 (as amended): on a well-formed game, slide_tiles(D) called twice in
    a row returns both times, and the second call leaves the grid unchanged
    and returns (and stores) an all-zero movement matrix exactly when the
    board the first call left is settled along D: no line along D (a row for
    LEFT and RIGHT, a column for UP and DOWN) has two equal tiles facing
    each other with only empty cells between them, and none has an empty
    cell before a tile, seen from the edge the slide moves to. The second
    call then leaves the score alone too. With a non-zero root tile value
    the first slide leaves no such empty cell, so the condition is only that
    no two equal tiles face each other on the board the first call left.
    The board is settled in particular when the board before the first call
    has no two equal tiles facing each other (the first slide merges
    nothing), and also after a first slide that merged, as long as the
    merged tiles met no equal neighbour. *)
Theorem slide_twice_merge_free (self : Game) (d : SlideDirection.t) :
  well_formed self →
  ∃ movement1 self1 movement2 self2,
    slide_tiles self d = Some (movement1, self1)
    ∧ slide_tiles self1 d = Some (movement2, self2)
    ∧ movement_matrix self2 = movement2
    ∧ (settled d self1
       ↔ grid self2 = grid self1
         ∧ movement2 = replicate (Z.to_nat (grid_size (config self)))
                         (replicate (Z.to_nat (grid_size (config self))) 0))
    ∧ (settled d self1 → score self2 = score self1)
    ∧ (root_tile_value (config self) ≠ 0 →
       (Forall (λ line, merge_free line = true) (lines_along d self1)
        ↔ grid self2 = grid self1
          ∧ movement2 = replicate (Z.to_nat (grid_size (config self)))
                          (replicate (Z.to_nat (grid_size (config self))) 0)))
    ∧ (Forall (λ line, merge_free line = true) (lines_along d self) → settled d self1).
Proof.
  intros Hwf. set (root := root_tile_value (config self)) in *.
  set (n := Z.to_nat (grid_size (config self))).
  pose proof (slid_any_well_formed self d Hwf) as Hwf1.
  pose proof (lines_along_square _ d Hwf1) as Hsq1.
  pose proof (lines_along_slid_any self d Hwf) as Hlines1. fold root in Hlines1.
  exists (lines_back d (line_moved root d <$> lines_along d self)), (slid_any d self),
    (lines_back d (line_moved root d <$> lines_along d (slid_any d self))),
    (slid_any d (slid_any d self)).
  split; [by apply slide_tiles_any|]. split; [by apply slide_tiles_any|].
  split; [done|].
  (* a second slide that merges nothing *)
  assert (Hplain : Forall (λ line, merge_free line = true)
                     (lines_along d (slid_any d self)) →
                   slid_any d (slid_any d self) = slid d (slid_any d self)
                   ∧ lines_back d (line_moved root d <$> lines_along d (slid_any d self))
                     = lines_back d (line_offsets d <$> lines_along d (slid_any d self))).
  { intros Hfree.
    pose proof (slide_tiles_merge_free _ d Hwf1 Hfree) as Hmf.
    rewrite slide_tiles_any in Hmf by done.
    assert (Hmv := f_equal (λ r, fst <$> r) Hmf).
    assert (Hslid := f_equal (λ r, snd <$> r) Hmf).
    cbn [fmap option_fmap option_map fst snd] in Hmv, Hslid.
    apply (inj Some) in Hmv, Hslid. by split. }
  assert (Hnoop : settled d (slid_any d self) →
                  slid_any d (slid_any d self) = slid d (slid_any d self)
                  ∧ grid (slid d (slid_any d self)) = grid (slid_any d self)
                  ∧ lines_back d (line_moved root d <$> lines_along d (slid_any d self))
                    = replicate n (replicate n 0)).
  { intros Hset.
    destruct Hplain as [Hslid Hmv].
    { eapply Forall_impl; [exact Hset|]. by intros line [? _]. }
    assert (Hvals : line_values d <$> lines_along d (slid_any d self)
                    = lines_along d (slid_any d self)).
    { rewrite <- (list_fmap_id (lines_along d (slid_any d self))) at 2.
      apply list_fmap_ext. intros k line Hline. simpl.
      apply line_values_packed.
      by destruct (proj1 (Forall_lookup _ _) Hset k line Hline). }
    split; [done|]. split.
    - unfold slid at 1. cbn [grid with_movement_matrix with_grid]. rewrite Hvals.
      rewrite Hlines1. reflexivity.
    - rewrite Hmv. rewrite <- Hvals at 1.
      rewrite <- list_fmap_compose.
      rewrite (const_fmap _ _ (replicate n 0)).
      + destruct Hsq1 as [Hlen _]. cbn [config slid_any with_movement_matrix with_grid
                                          with_score] in Hlen. rewrite Hlen.
        unfold lines_back.
        destruct (direction_in d _); [apply transpose_columns_replicate|done].
      + intros k line Hline. simpl. rewrite line_offsets_settled.
        destruct Hsq1 as [_ Hrows].
        by rewrite (proj1 (Forall_lookup _ _) Hrows k line Hline). }
  assert (Hback : grid (slid_any d (slid_any d self)) = grid (slid_any d self)
                  ∧ lines_back d (line_moved root d <$> lines_along d (slid_any d self))
                    = replicate n (replicate n 0) →
                  settled d (slid_any d self)).
  { intros [Hgrid Hmv].
    pose proof (movement_zero_lines (slid_any d self) d Hwf1 Hmv) as Hz.
    assert (Hfree : Forall (λ line, merge_free line = true)
                      (lines_along d (slid_any d self))).
    { eapply Forall_impl; [exact Hz|]. intros line Hline. simpl in Hline.
      by eapply line_unmoved_merge_free. }
    destruct (Hplain Hfree) as [Hslid _]. rewrite Hslid in Hgrid.
    assert (Hvals : line_values d <$> lines_along d (slid_any d self)
                    = lines_along d (slid_any d self)).
    { rewrite <- (lines_along_slid _ d Hwf1). unfold lines_along. by rewrite Hgrid. }
    apply Forall_lookup. intros k line Hline. split.
    - by apply (proj1 (Forall_lookup _ _) Hfree k line).
    - apply line_values_fixed_packed.
      apply (f_equal (λ m, m !! k)) in Hvals.
      rewrite list_lookup_fmap, Hline in Hvals. by injection Hvals. }
  split; [|split; [|split]].
  - split.
    + intros Hset. destruct (Hnoop Hset) as (-> & Hgrid & Hmv). by split.
    + exact Hback.
  - intros Hset. destruct (Hnoop Hset) as (-> & _ & _). done.
  - intros Hroot.
    assert (Hpacked : Forall (λ line, merge_free line = true)
                        (lines_along d (slid_any d self)) →
                      settled d (slid_any d self)).
    { intros Hfree. apply Forall_lookup. intros k line Hline. split.
      - by apply (proj1 (Forall_lookup _ _) Hfree k line).
      - rewrite Hlines1, list_lookup_fmap in Hline.
        destruct (lines_along d self !! k) as [line0|]; simpl in Hline; [|done].
        injection Hline as <-. by apply line_new_packed. }
    split.
    + intros Hfree. destruct (Hnoop (Hpacked Hfree)) as (-> & Hgrid & Hmv). by split.
    + intros Hno. eapply Forall_impl; [exact (Hback Hno)|]. by intros line [? _].
  - intros Hfree.
    pose proof (slide_tiles_merge_free self d Hwf Hfree) as Hmf.
    rewrite slide_tiles_any in Hmf by done.
    assert (Hslid := f_equal (λ r, snd <$> r) Hmf).
    cbn [fmap option_fmap option_map fst snd] in Hslid.
    apply (inj Some) in Hslid. rewrite Hslid.
    unfold settled. rewrite lines_along_slid by done. apply Forall_fmap.
    eapply Forall_impl; [exact Hfree|]. intros line Hline. simpl. split.
    + by rewrite merge_free_line_values.
    + rewrite toward_line_values. apply compact_packed.
Qed.

Lemma slide_twice_merge_free_witness :
  ∃ movement1 self1 movement2 self2,
    slide_tiles (game_of_values GameConfig_default power_vals) SlideDirection.UP
      = Some (movement1, self1)
    ∧ slide_tiles self1 SlideDirection.UP = Some (movement2, self2)
    ∧ movement_matrix self2 = movement2
    ∧ (settled SlideDirection.UP self1
       ↔ grid self2 = grid self1 ∧ movement2 = replicate 4 (replicate 4 0))
    ∧ (settled SlideDirection.UP self1 → score self2 = score self1)
    ∧ (2 ≠ 0 →
       (Forall (λ line, merge_free line = true) (lines_along SlideDirection.UP self1)
        ↔ grid self2 = grid self1 ∧ movement2 = replicate 4 (replicate 4 0)))
    ∧ (Forall (λ line, merge_free line = true)
         (lines_along SlideDirection.UP (game_of_values GameConfig_default power_vals)) →
       settled SlideDirection.UP self1).
Proof.
  apply (slide_twice_merge_free (game_of_values GameConfig_default power_vals)
           SlideDirection.UP).
  split; [reflexivity|]. simpl. repeat constructor.
Defined.

(** The first slide may merge: on the board whose top row is [2,2,0,0] the
    LEFT slide merges into [4,0,0,0], which holds no pair, and the second
    LEFT slide changes nothing and moves nothing. *)
Example slide_twice_after_a_merge :
  ∃ movement1 self1 movement2 self2,
    slide_tiles (game_of_values GameConfig_default
                   [[2;2;0;0]; [0;0;0;0]; [0;0;0;0]; [0;0;0;0]]) SlideDirection.LEFT
      = Some (movement1, self1)
    ∧ slide_tiles self1 SlideDirection.LEFT = Some (movement2, self2)
    ∧ score self1 = 4
    ∧ grid_values (grid self1) = [[4;0;0;0]; [0;0;0;0]; [0;0;0;0]; [0;0;0;0]]
    ∧ grid self2 = grid self1
    ∧ movement2 = replicate 4 (replicate 4 0).
Proof.
  destruct (slide_tiles (game_of_values GameConfig_default
                           [[2;2;0;0]; [0;0;0;0]; [0;0;0;0]; [0;0;0;0]])
              SlideDirection.LEFT)
    as [[movement1 self1]|] eqn:E1; vm_compute in E1; [|discriminate].
  injection E1 as <- <-.
  match goal with
  | |- ∃ m1 s1 m2 s2, Some (?a, ?b) = _ ∧ _ =>
      destruct (slide_tiles b SlideDirection.LEFT) as [[movement2 self2]|] eqn:E2;
        vm_compute in E2; [|discriminate]
  end.
  injection E2 as <- <-.
  do 4 eexists. split; [reflexivity|]. split; [vm_compute; reflexivity|].
  by vm_compute.
Qed.

(** With root tile value 0 a merge writes an empty cell: the LEFT slide of
    [2,2,4,0] leaves [0,4,0,0], where no two tiles face each other, and the
    second LEFT slide still moves the 4. *)
Example slide_twice_root_zero :
  ∃ movement1 self1 movement2 self2,
    slide_tiles (game_of_values config_root_0
                   [[2;2;4;0]; [0;0;0;0]; [0;0;0;0]; [0;0;0;0]]) SlideDirection.LEFT
      = Some (movement1, self1)
    ∧ slide_tiles self1 SlideDirection.LEFT = Some (movement2, self2)
    ∧ grid_values (grid self1) = [[0;4;0;0]; [0;0;0;0]; [0;0;0;0]; [0;0;0;0]]
    ∧ Forall (λ line, merge_free line = true) (lines_along SlideDirection.LEFT self1)
    ∧ grid_values (grid self2) = [[4;0;0;0]; [0;0;0;0]; [0;0;0;0]; [0;0;0;0]]
    ∧ movement2 = [[0;-1;0;0]; [0;0;0;0]; [0;0;0;0]; [0;0;0;0]].
Proof.
  destruct (slide_tiles (game_of_values config_root_0
                           [[2;2;4;0]; [0;0;0;0]; [0;0;0;0]; [0;0;0;0]])
              SlideDirection.LEFT)
    as [[movement1 self1]|] eqn:E1; vm_compute in E1; [|discriminate].
  injection E1 as <- <-.
  match goal with
  | |- ∃ m1 s1 m2 s2, Some (?a, ?b) = _ ∧ _ =>
      destruct (slide_tiles b SlideDirection.LEFT) as [[movement2 self2]|] eqn:E2;
        vm_compute in E2; [|discriminate]
  end.
  injection E2 as <- <-.
  do 4 eexists. split; [reflexivity|]. split; [vm_compute; reflexivity|].
  split; [by vm_compute|]. split; [|by vm_compute].
  repeat constructor.
Qed.

(** C4 as stated fails on the board whose top row is [2,2,2,2]: the first
    LEFT slide leaves [4,4,0,0], the second merges again into [8,0,0,0], so
    it changes the grid and its movement matrix is not all zero. *)
Lemma slide_twice_merges_again :
  ∃ movement1 self1 movement2 self2,
    slide_tiles (game_of_values GameConfig_default twos_vals) SlideDirection.LEFT
      = Some (movement1, self1)
    ∧ slide_tiles self1 SlideDirection.LEFT = Some (movement2, self2)
    ∧ grid_values (grid self1) = [[4;4;0;0]; [0;0;0;0]; [0;0;0;0]; [0;0;0;0]]
    ∧ grid_values (grid self2) = [[8;0;0;0]; [0;0;0;0]; [0;0;0;0]; [0;0;0;0]]
    ∧ grid self2 ≠ grid self1
    ∧ movement2 = [[0;-1;0;0]; [0;0;0;0]; [0;0;0;0]; [0;0;0;0]]
    ∧ movement_matrix self2 = movement2.
Proof.
  destruct (slide_tiles (game_of_values GameConfig_default twos_vals) SlideDirection.LEFT)
    as [[movement1 self1]|] eqn:E1; vm_compute in E1; [|discriminate].
  injection E1 as <- <-.
  match goal with
  | |- ∃ m1 s1 m2 s2, Some (?a, ?b) = _ ∧ _ =>
      destruct (slide_tiles b SlideDirection.LEFT) as [[movement2 self2]|] eqn:E2;
        vm_compute in E2; [|discriminate]
  end.
  injection E2 as <- <-.
  do 4 eexists. split; [reflexivity|]. split; [vm_compute; reflexivity|].
  vm_compute. repeat split. discriminate.
Qed.
